(** * fontfit.js: fitting a font size to a container

    A shallow embedding of the two implementations found in [src/fontfit.js]
    (the in-place one, lines 5-119, and the offscreen-clone one, lines
    124-256) together with the properties stated about them.

    - JavaScript numbers that the code passes through [Math.floor] are
      rationals ([Q]); the sizes the search manipulates are integers ([Z]).
      They are the double-precision numbers of the source as long as they
      stay below [2^53]; [search_double] is the loop with the rounding that
      sets in from there.
    - Option objects, inline styles and [dataset] are finite maps keyed by
      property name.
    - The DOM that the code touches is an explicit state; code that mutates
      it, or that can throw, lives in a state-and-exception monad [M].
    - The layout engine is a record of read functions ([Host]); a read may
      throw.
    - Timers, animation frames and observers are flags of the session; the
      host's event sources are the constructors of [event]. *)

From Stdlib Require Import ZArith QArith Qround Lia.
From Equations Require Import Equations.
From stdpp Require Import gmap strings list fin_maps.

Local Open Scope Z_scope.

(** ** JavaScript values held by an options object *)

Inductive value :=
| VNum (q : Q)
| VBool (b : bool).

(** A property that is absent reads as [undefined], which is falsy.  Every
    property the code reads is present after the merge over the defaults
    (see [merged_keys_present] below). *)
Global Instance value_inhabited : Inhabited value := populate (VBool false).

(** [ToNumber] on numbers and booleans. *)
Definition to_number (v : value) : Q :=
  match v with
  | VNum q => q
  | VBool true => 1%Q
  | VBool false => 0%Q
  end.

(** [ToBoolean] on numbers and booleans. *)
Definition truthy (v : value) : bool :=
  match v with
  | VBool b => b
  | VNum q => negb (Qeq_bool q 0)
  end.

(** [Object.assign(tgt, src)]: own properties of [src] overwrite those of
    [tgt]; the others are kept. *)
Definition object_assign (tgt src : gmap string value) : gmap string value :=
  src ∪ tgt.

(** ** The document *)

Inductive css :=
| Px (n : Z)
| Percent (n : Z)
| Keyword (s : string).

(** An element: its inline style, its [dataset] and its (opaque) content.
    [dataset.fittedFontPx = String(best)] is recorded as the number whose
    decimal representation the string is. *)
Record Element := {
  style : gmap string css;
  dataset : gmap string Q;
  content : string
}.

(** The [div] created by [makeMeasureBox], with the clones appended to it. *)
Record MeasureBox := {
  box_style : gmap string css;
  box_children : list Element
}.

Global Instance Element_inhabited : Inhabited Element :=
  populate {| style := ∅; dataset := ∅; content := "" |}.
Global Instance MeasureBox_inhabited : Inhabited MeasureBox :=
  populate {| box_style := ∅; box_children := [] |}.

(** References to elements.  A [node] is one of the two elements of the page
    that a caller can hand to [fitFontToContainer]; a [Probe] is a clone
    inside a measurement box, addressed by the box's position under
    [document.body] and the clone's position in the box. *)
Inductive node := TargetEl | ContainerEl.

Inductive elem :=
| Node (n : node)
| Probe (box child : nat).

Record Dom := {
  target : Element;
  container : Element;
  body : list MeasureBox
}.

Definition get_node (n : node) (d : Dom) : Element :=
  match n with
  | TargetEl => target d
  | ContainerEl => container d
  end.

Definition get_elem (el : elem) (d : Dom) : Element :=
  match el with
  | Node n => get_node n d
  | Probe i j => box_children (body d !!! i) !!! j
  end.

Definition alter_box (f : list Element -> list Element) (b : MeasureBox) : MeasureBox :=
  {| box_style := box_style b; box_children := f (box_children b) |}.

Definition alter_elem (f : Element -> Element) (el : elem) (d : Dom) : Dom :=
  match el with
  | Node TargetEl =>
      {| target := f (target d); container := container d; body := body d |}
  | Node ContainerEl =>
      {| target := target d; container := f (container d); body := body d |}
  | Probe i j =>
      {| target := target d; container := container d;
         body := alter (alter_box (alter f j)) i (body d) |}
  end.

Definition with_style (k : string) (v : css) (e : Element) : Element :=
  {| style := <[k := v]> (style e); dataset := dataset e; content := content e |}.

Definition with_data (k : string) (q : Q) (e : Element) : Element :=
  {| style := style e; dataset := <[k := q]> (dataset e); content := content e |}.

Definition with_body (f : list MeasureBox -> list MeasureBox) (d : Dom) : Dom :=
  {| target := target d; container := container d; body := f (body d) |}.

(** ** Results and the host *)

Inductive outcome (A : Type) :=
| Ret (a : A)
| Throw (e : string).
Arguments Ret {A} a.
Arguments Throw {A} e.

(** The layout engine and the capabilities of the environment.  Each layout
    read is a function of the current document; it may throw. *)
Record Host := {
  hasResizeObserver : bool;     (* 'ResizeObserver' in window *)
  hasMutationObserver : bool;   (* 'MutationObserver' in window *)
  hasFontsReady : bool;         (* document.fonts && document.fonts.ready *)
  clientWidth : elem -> Dom -> outcome Z;
  clientHeight : elem -> Dom -> outcome Z;
  scrollWidth : elem -> Dom -> outcome Z;
  scrollHeight : elem -> Dom -> outcome Z;
  rectWidth : elem -> Dom -> outcome Q   (* getBoundingClientRect().width *)
}.

(** ** The session: the variables closed over by [refit] and [disconnect] *)

Record Session := {
  targetEl : node;
  containerEl : node;
  opts : gmap string value;
  busy : bool;
  timer : bool;          (* [t] of [debounce] holds a timeout not yet fired *)
  frame : bool;          (* the requestAnimationFrame callback is pending *)
  ro : option bool;      (* undefined, or a ResizeObserver and whether it observes *)
  mo : option bool;      (* undefined, or a MutationObserver and whether it observes *)
  winResize : bool;      (* [debounced] is a 'resize' listener of window *)
  fontsThen : bool       (* [debounced] waits on document.fonts.ready *)
}.

Record World := {
  dom : Dom;
  sess : Session
}.

Definition with_dom (f : Dom -> Dom) (w : World) : World :=
  {| dom := f (dom w); sess := sess w |}.

Definition with_sess (f : Session -> Session) (w : World) : World :=
  {| dom := dom w; sess := f (sess w) |}.

Definition set_busy (b : bool) (s : Session) : Session :=
  {| targetEl := targetEl s; containerEl := containerEl s; opts := opts s;
     busy := b; timer := timer s; frame := frame s; ro := ro s; mo := mo s;
     winResize := winResize s; fontsThen := fontsThen s |}.

Definition set_timer (b : bool) (s : Session) : Session :=
  {| targetEl := targetEl s; containerEl := containerEl s; opts := opts s;
     busy := busy s; timer := b; frame := frame s; ro := ro s; mo := mo s;
     winResize := winResize s; fontsThen := fontsThen s |}.

Definition set_frame (b : bool) (s : Session) : Session :=
  {| targetEl := targetEl s; containerEl := containerEl s; opts := opts s;
     busy := busy s; timer := timer s; frame := b; ro := ro s; mo := mo s;
     winResize := winResize s; fontsThen := fontsThen s |}.

Definition set_fontsThen (b : bool) (s : Session) : Session :=
  {| targetEl := targetEl s; containerEl := containerEl s; opts := opts s;
     busy := busy s; timer := timer s; frame := frame s; ro := ro s; mo := mo s;
     winResize := winResize s; fontsThen := b |}.

(** [if (ro) ro.disconnect(); if (mo) mo.disconnect();
     window.removeEventListener('resize', debounced)] *)
Definition unsubscribe (s : Session) : Session :=
  {| targetEl := targetEl s; containerEl := containerEl s; opts := opts s;
     busy := busy s; timer := timer s; frame := frame s;
     ro := (fun _ => false) <$> ro s;
     mo := (fun _ => false) <$> mo s;
     winResize := false; fontsThen := fontsThen s |}.

(** ** The monad: state, and exceptions that keep the state reached *)

Definition M (A : Type) : Type := World -> outcome A * World.

Global Instance M_ret : MRet M := fun A a w => (Ret a, w).

Global Instance M_bind : MBind M := fun A B f m w =>
  match m w with
  | (Ret a, w') => f a w'
  | (Throw e, w') => (Throw e, w')
  end.

Definition gets {A} (f : World -> A) : M A := fun w => (Ret (f w), w).

Definition modify (f : World -> World) : M unit := fun w => (Ret tt, f w).

(** A layout read. *)
Definition layout {A} (r : Dom -> outcome A) : M A := fun w => (r (dom w), w).

(** [try { body } finally { fin }]: [fin] runs on the state [body] reached,
    whether [body] returned or threw; what [body] did is what the statement
    does, unless [fin] itself throws. *)
Definition try_finally {A} (body : M A) (fin : M unit) : M A := fun w =>
  let (r, w1) := body w in
  match fin w1 with
  | (Ret _, w2) => (r, w2)
  | (Throw e, w2) => (Throw e, w2)
  end.

Definition set_style (el : elem) (k : string) (v : css) : M unit :=
  modify (with_dom (alter_elem (with_style k v) el)).

Definition set_data (el : elem) (k : string) (q : Q) : M unit :=
  modify (with_dom (alter_elem (with_data k q) el)).

(** ** Code shared by the two implementations *)

(** [el.style.fontSize = Math.max(1, Math.floor(px)) + 'px'] (lines 20-22
    and 129-131). *)
Definition setFontSizePx (el : elem) (px : Q) : M unit :=
  set_style el "fontSize" (Px (Z.max 1 (Qfloor px))).

(** The search loop (lines 44-56 and 178-189), which the two implementations
    share up to the probe run at [mid]:
<<
    while (lo <= hi) {
      const mid = Math.floor((lo + hi) / 2);
      if (probe(mid)) { best = mid; lo = mid + 1; } else { hi = mid - 1; }
    }
>>
    The loop ends when a probe throws, with the state reached.

    [lo], [hi] and [mid] are integers here; in the source they are
    double-precision numbers.  The two agree on the ranges singled out by
    [exact_size] below, where every number the loop forms is an integer that
    a double holds exactly.  Out of them they part: from [2^53] on,
    [mid + 1] can round back to [mid], and the loop of the source then
    probes the same size for ever, where the recursion below returns (the
    loop with the rounding is [search_double] below).  The properties that
    say that the loop returns on an arbitrary range are stated under
    [exact_size]. *)
Equations? search (probe : Z -> M bool) (lo hi best : Z) (w : World)
  : outcome Z * World by wf (Z.to_nat (hi + 1 - lo)) lt :=
  search probe lo hi best w with Z_le_dec lo hi := {
    | right _ := (Ret best, w)
    | left _ with probe ((lo + hi) / 2) w := {
      | (Throw e, w') := (Throw e, w')
      | (Ret true, w') := search probe ((lo + hi) / 2 + 1) hi ((lo + hi) / 2) w'
      | (Ret false, w') := search probe lo ((lo + hi) / 2 - 1) best w' } }.
Proof.
  all: assert (lo <= (lo + hi) / 2 <= hi)
    by (split; [apply Z.div_le_lower_bound | apply Z.div_le_upper_bound]; lia);
    lia.
Qed.

(** [debounce(fn, delay)] (lines 6-12 and 125-127) returns the function
    [debounced]; calling it clears the timeout held in [t] and sets a new
    one.  The delay itself is not modelled: the timeout fires when the host
    delivers [TimerFire]. *)
Definition debounced : M unit :=
  modify (with_sess (set_timer false));;   (* clearTimeout(t) *)
  modify (with_sess (set_timer true)).     (* t = setTimeout(...) *)

(** What the host can deliver to a session.  An observer calls back only
    while it observes, a listener only while registered; a timeout or an
    animation frame fires once. *)
Inductive event :=
| ContainerResize   (* the ResizeObserver reports the container *)
| WindowResize      (* window 'resize' *)
| ContentMutation   (* the MutationObserver reports the target *)
| FontsReady        (* document.fonts.ready resolves *)
| TimerFire         (* the timeout set by [debounced] fires *)
| AnimationFrame.   (* the frame requested at construction *)

Module Controller.
Section WithSearch.

(** The implementation's [computeBestFontSize(target, container, minPx, maxPx)]. *)
Variable computeBestFontSize : node -> node -> Q -> Q -> M Q.

(** The body of [try] in [refit] (lines 81-83 and 215-217).  The source
    hands [opts.minPx] and [opts.maxPx] over as they are, and the guard of
    [computeBestFontSize] returns the former as it is; here they are handed
    over as the numbers they stand for.  The two agree when [opts.minPx] is a
    number ([numeric_min] below); when it is a boolean the guard of the
    source returns the boolean, which [String(best)] records as such.  The
    properties that say which value a refit records when the guard may be
    taken are stated under [numeric_min]. *)
Definition apply_best : M unit :=
  s ← gets sess;
  best ← computeBestFontSize (targetEl s) (containerEl s)
           (to_number (opts s !!! "minPx")) (to_number (opts s !!! "maxPx"));
  setFontSizePx (Node (targetEl s)) best;;
  set_data (Node (targetEl s)) "fittedFontPx" best.

(** One refit cycle: [busy = true; try { ... } finally { busy = false; }]. *)
Definition cycle : M unit :=
  modify (with_sess (set_busy true));;
  try_finally apply_best (modify (with_sess (set_busy false))).

(** [refit] (lines 77-87 and 211-221). *)
Definition refit : M unit := fun w =>
  if busy (sess w) then (Ret tt, w)   (* if (busy) return; *)
  else cycle w.

(** [disconnect] (lines 109-113 and 247-251). *)
Definition disconnect : M unit :=
  modify (with_sess unsubscribe).

Definition deliver (ev : event) : M unit :=
  s ← gets sess;
  match ev return M unit with
  | ContainerResize => if decide (ro s = Some true) return M unit then debounced else mret tt
  | WindowResize => if winResize s return M unit then debounced else mret tt
  | ContentMutation => if decide (mo s = Some true) return M unit then debounced else mret tt
  | FontsReady =>
      if fontsThen s return M unit
      then modify (with_sess (set_fontsThen false));; debounced
      else mret tt
  | TimerFire =>
      if timer s return M unit
      then modify (with_sess (set_timer false));; refit
      else mret tt
  | AnimationFrame =>
      if frame s return M unit
      then modify (with_sess (set_frame false));; refit
      else mret tt
  end.

(** Deliver a sequence of events; an exception that escapes a callback is
    reported by the host and the next event is delivered all the same. *)
Fixpoint deliver_all (evs : list event) (w : World) : World :=
  match evs with
  | [] => w
  | ev :: evs' => deliver_all evs' (snd (deliver ev w))
  end.

End WithSearch.
End Controller.

(** ** The in-place implementation (lines 5-119) *)

Module InPlace.

(** [elementFits] (lines 14-18).  [&&] does not read the heights when the
    widths already overflow. *)
Definition elementFits (h : Host) (target container : node) : M bool :=
  sw ← layout (scrollWidth h (Node target));
  cw ← layout (clientWidth h (Node container));
  if sw <=? cw return M bool then
    sh ← layout (scrollHeight h (Node target));
    ch ← layout (clientHeight h (Node container));
    mret (sh <=? ch)
  else mret false.

(** The body of the loop up to its test (lines 45-50): set the size on the
    live target, read a layout property to force a reflow, then test. *)
Definition probe (h : Host) (target container : node) (mid : Z) : M bool :=
  setFontSizePx (Node target) (inject_Z mid);;
  layout (scrollHeight h (Node target));;
  elementFits h target container.

(** [computeBestFontSize] (lines 24-61).  The read of the [style] attribute
    into [prevStyle] (line 36) has no effect and is left out. *)
Definition computeBestFontSize (h : Host) (target container : node)
    (minPx maxPx : Q) : M Q :=
  cw ← layout (clientWidth h (Node container));
  ch ← layout (clientHeight h (Node container));
  if (cw <=? 0) || (ch <=? 0) return M Q then mret minPx else
  let lo := Z.max 1 (Qfloor minPx) in
  let hi := Qfloor maxPx in
  set_style (Node target) "display" (Keyword "block");;
  set_style (Node target) "width" (Percent 100);;
  set_style (Node target) "maxWidth" (Percent 100);;
  best ← search (probe h target container) lo hi lo;
  mret (inject_Z (best - 10)).

(** The first argument of [Object.assign] (lines 66-72). *)
Definition defaults : gmap string value :=
  list_to_map
    [("minPx", VNum 8); ("maxPx", VNum 512); ("observeMutations", VBool true);
     ("observeResize", VBool true); ("debounceMs", VNum 100)].

(** [fitFontToContainer] (lines 63-115): the session it returns, or the
    error it throws.  It does not write to the document: the first refit is
    left to the animation frame it requests. *)
Definition fitFontToContainer (h : Host) (target container : option node)
    (options : gmap string value) (d : Dom) : outcome Session * Dom :=
  match target, container with
  | Some t, Some c =>
      let o := object_assign defaults options in
      let resize := truthy (o !!! "observeResize") && hasResizeObserver h in
      let mutation := truthy (o !!! "observeMutations") && hasMutationObserver h in
      (Ret {| targetEl := t; containerEl := c; opts := o;
              busy := false; timer := false; frame := true;
              ro := if resize then Some true else None;
              mo := if mutation then Some true else None;
              winResize := negb resize;
              fontsThen := false |}, d)
  | _, _ =>
      (Throw "fitFontToContainer: target and container elements are required", d)
  end.

Definition refit (h : Host) : M unit :=
  Controller.refit (computeBestFontSize h).

Definition disconnect : M unit := Controller.disconnect.

Definition deliver (h : Host) : event -> M unit :=
  Controller.deliver (computeBestFontSize h).

End InPlace.

(** ** The offscreen-clone implementation (lines 124-256) *)

Module Clone.

(** The [div] that [makeMeasureBox] creates and styles (lines 136-143),
    [width] being the width of the container's bounding rectangle. *)
Definition measure_box (width : Q) : MeasureBox :=
  {| box_style :=
       list_to_map
         [("position", Keyword "absolute"); ("left", Px (-99999));
          ("top", Keyword "0"); ("width", Px (Z.max 0 (Qfloor width)));
          ("pointerEvents", Keyword "none"); ("visibility", Keyword "hidden");
          ("overflow", Keyword "visible")];
     box_children := [] |}.

(** [makeMeasureBox] (lines 133-146): the box is appended to
    [document.body]; the result is its position there. *)
Definition makeMeasureBox (h : Host) (container : node) : M nat :=
  rw ← layout (rectWidth h (Node container));
  i ← gets (fun w => length (body (dom w)));
  modify (with_dom (with_body (fun bs => bs ++ [measure_box rw])));;
  mret i.

(** The style overrides of [cloneForMeasure] (lines 151-159). *)
Definition measure_style (st : gmap string css) : gmap string css :=
  <["width" := Percent 100]> (<["maxWidth" := Percent 100]>
  (<["display" := Keyword "block"]> (<["overflow" := Keyword "visible"]>
  (<["wordBreak" := Keyword "break-word"]> (<["whiteSpace" := Keyword "normal"]>
  (<["border" := Keyword "0"]> (<["padding" := Keyword "0"]>
  (<["margin" := Keyword "0"]> st)))))))).

(** [cloneForMeasure] (lines 148-162): a deep copy of the target, restyled,
    appended to box [i]; the result is the reference to the clone. *)
Definition cloneForMeasure (target : node) (i : nat) : M elem :=
  t ← gets (fun w => get_node target (dom w));
  let clone :=
    {| style := measure_style (style t); dataset := dataset t;
       content := content t |} in
  j ← gets (fun w => length (box_children (body (dom w) !!! i)));
  modify (with_dom (with_body (alter (alter_box (fun cs => cs ++ [clone])) i)));;
  mret (Probe i j).

(** The body of the loop up to its test (lines 179-183): the size is set on
    the clone and only its height is compared, with the container's client
    height read before the loop. *)
Definition probe (h : Host) (p : elem) (ch : Z) (mid : Z) : M bool :=
  setFontSizePx p (inject_Z mid);;
  sh ← layout (scrollHeight h p);
  mret (sh <=? ch).

(** [computeBestFontSize] (lines 164-194). *)
Definition computeBestFontSize (h : Host) (target container : node)
    (minPx maxPx : Q) : M Q :=
  cw ← layout (clientWidth h (Node container));
  ch ← layout (clientHeight h (Node container));
  if (cw <=? 0) || (ch <=? 0) return M Q then mret minPx else
  i ← makeMeasureBox h container;
  p ← cloneForMeasure target i;
  let lo := Z.max 1 (Qfloor minPx) in
  let hi := Qfloor maxPx in
  best ← search (probe h p ch) lo hi lo;
  modify (with_dom (with_body (delete i)));;   (* measureBox.remove() *)
  mret (inject_Z best).

(** The first argument of [Object.assign] (lines 199-206). *)
Definition defaults : gmap string value :=
  list_to_map
    [("minPx", VNum 8); ("maxPx", VNum 512); ("observeMutations", VBool true);
     ("observeResize", VBool true); ("debounceMs", VNum 100);
     ("refitOnFontLoad", VBool true)].

(** [fitFontToContainer] (lines 196-253). *)
Definition fitFontToContainer (h : Host) (target container : option node)
    (options : gmap string value) (d : Dom) : outcome Session * Dom :=
  match target, container with
  | Some t, Some c =>
      let o := object_assign defaults options in
      let resize := truthy (o !!! "observeResize") && hasResizeObserver h in
      let mutation := truthy (o !!! "observeMutations") && hasMutationObserver h in
      (Ret {| targetEl := t; containerEl := c; opts := o;
              busy := false; timer := false; frame := true;
              ro := if resize then Some true else None;
              mo := if mutation then Some true else None;
              winResize := negb resize;
              fontsThen := truthy (o !!! "refitOnFontLoad") && hasFontsReady h |}, d)
  | _, _ =>
      (Throw "fitFontToContainer: target and container elements are required", d)
  end.

Definition refit (h : Host) : M unit :=
  Controller.refit (computeBestFontSize h).

Definition disconnect : M unit := Controller.disconnect.

Definition deliver (h : Host) : event -> M unit :=
  Controller.deliver (computeBestFontSize h).

End Clone.

(** ** A concrete page, used to run the code *)

Definition font_px (e : Element) : Z :=
  match style e !! "fontSize" with
  | Some (Px n) => n
  | _ => 16
  end.

(** A container of [cw] by [ch] pixels holding one line of text that is
    three times as wide as its font size and as high as its font size. *)
Definition line_host (cw ch : Z) : Host :=
  {| hasResizeObserver := true; hasMutationObserver := true; hasFontsReady := true;
     clientWidth := fun _ _ => Ret cw;
     clientHeight := fun _ _ => Ret ch;
     scrollWidth := fun el d => Ret (3 * font_px (get_elem el d));
     scrollHeight := fun el d => Ret (font_px (get_elem el d));
     rectWidth := fun _ _ => Ret (inject_Z cw) |}.

(** The same page on an engine whose height read fails from 100px on. *)
Definition failing_host (cw ch : Z) : Host :=
  {| hasResizeObserver := true; hasMutationObserver := true; hasFontsReady := true;
     clientWidth := fun _ _ => Ret cw;
     clientHeight := fun _ _ => Ret ch;
     scrollWidth := fun el d => Ret (3 * font_px (get_elem el d));
     scrollHeight := fun el d =>
       if 100 <=? font_px (get_elem el d) then Throw "layout failed"
       else Ret (font_px (get_elem el d));
     rectWidth := fun _ _ => Ret (inject_Z cw) |}.

Definition hello : Element := {| style := ∅; dataset := ∅; content := "Hello" |}.

Definition holder : Element := {| style := ∅; dataset := ∅; content := "" |}.

Definition page : Dom := {| target := hello; container := holder; body := [] |}.

(** The world right after [fitFontToContainer(target, container, options)]
    returned a session. *)
Definition started (r : outcome Session * Dom) : option World :=
  match r with
  | (Ret s, d) => Some {| dom := d; sess := s |}
  | (Throw _, _) => None
  end.

(** ** What the search is meant to find *)

(** [s] is a size of the range that the oracle accepts. *)
Definition fits_in (fits : Z -> bool) (lo hi s : Z) : Prop :=
  lo <= s <= hi /\ fits s = true.

(** [b] is the largest size of the range that fits, or the lower end of the
    range when no size of the range fits. *)
Definition largest_fit (fits : Z -> bool) (lo hi b : Z) : Prop :=
  (fits_in fits lo hi b /\ forall s, fits_in fits lo hi s -> s <= b) \/
  ((forall s, ~ fits_in fits lo hi s) /\ b = lo).

(** The oracle is non-increasing in the size. *)
Definition monotone (fits : Z -> bool) : Prop :=
  forall x y, y < x -> fits x = true -> fits y = true.

(** The world in which element [el] has font size [max(1, mid)] pixels. *)
Definition at_size (el : elem) (mid : Z) (w : World) : World :=
  with_dom (alter_elem (with_style "fontSize" (Px (Z.max 1 mid))) el) w.

(** An action that only reads. *)
Definition read_only {A} (m : M A) : Prop := forall w, snd (m w) = w.

(** Whether a call ended with an exception. *)
Definition throws {A} (o : outcome A) : bool :=
  match o with
  | Ret _ => false
  | Throw _ => true
  end.

(** The options a session holds after [fitFontToContainer] returned. *)
Definition session_opts (r : outcome Session * Dom) : option (gmap string value) :=
  match r with
  | (Ret s, _) => Some (opts s)
  | (Throw _, _) => None
  end.

(** The events that reach a session through an observer or a listener, as
    opposed to a timeout, an animation frame or a promise already set up. *)
Definition observed (ev : event) : bool :=
  match ev with
  | ContainerResize | WindowResize | ContentMutation => true
  | FontsReady | TimerFire | AnimationFrame => false
  end.

(** A size computation during which [refit()] is called again, for instance
    by a callback that runs while the layout is read. *)
Definition reentrant (compute : node -> node -> Q -> Q -> M Q)
    (t c : node) (minPx maxPx : Q) : M Q :=
  Controller.refit compute;; compute t c minPx maxPx.

(** The sessions that [fitFontToContainer(target, container)] returns on
    [page] with no options, where all three capabilities are present, and
    the worlds they start in. *)
Definition inplace_session : Session :=
  {| targetEl := TargetEl; containerEl := ContainerEl;
     opts := InPlace.defaults;
     busy := false; timer := false; frame := true;
     ro := Some true; mo := Some true; winResize := false; fontsThen := false |}.

Definition clone_session : Session :=
  {| targetEl := TargetEl; containerEl := ContainerEl;
     opts := Clone.defaults;
     busy := false; timer := false; frame := true;
     ro := Some true; mo := Some true; winResize := false; fontsThen := true |}.

Definition inplace_start : World := {| dom := page; sess := inplace_session |}.
Definition clone_start : World := {| dom := page; sess := clone_session |}.

(** The font size applied to a node and the marker recorded on it. *)
Definition applied_size (n : node) (w : World) : option css :=
  style (get_node n (dom w)) !! "fontSize".

Definition marker (n : node) (w : World) : option Q :=
  dataset (get_node n (dom w)) !! "fittedFontPx".

(** A page whose engine cannot measure content at all: every read of a
    scroll size or of a bounding rectangle throws. *)
Definition blind_host (cw ch : Z) : Host :=
  {| hasResizeObserver := true; hasMutationObserver := true; hasFontsReady := true;
     clientWidth := fun _ _ => Ret cw;
     clientHeight := fun _ _ => Ret ch;
     scrollWidth := fun _ _ => Throw "no layout";
     scrollHeight := fun _ _ => Throw "no layout";
     rectWidth := fun _ _ => Throw "no layout" |}.

(** The properties that the code reads from the merged options. *)
Definition option_keys : list string :=
  ["minPx"; "maxPx"; "observeMutations"; "observeResize"; "debounceMs"].

(** What the probes of the two implementations answer on [line_host cw ch]. *)
Definition line_fits (cw ch mid : Z) : bool :=
  (3 * Z.max 1 mid <=? cw) && (Z.max 1 mid <=? ch).

Definition line_fits_height (ch mid : Z) : bool :=
  Z.max 1 mid <=? ch.

(** The world in which the clone implementation starts its loop on
    [clone_start]: the box is under [body] and holds the clone. *)
Definition clone_probing (h : Host) : World :=
  snd ((i ← Clone.makeMeasureBox h ContainerEl;
        Clone.cloneForMeasure TargetEl i) clone_start).

(** The call of [computeBestFontSize] made by a refit cycle that starts in
    [w]: the measurement phase of the cycle. *)
Definition measurement (compute : node -> node -> Q -> Q -> M Q) (w : World)
  : outcome Q * World :=
  compute (targetEl (sess w)) (containerEl (sess w))
    (to_number (opts (sess w) !!! "minPx"))
    (to_number (opts (sess w) !!! "maxPx"))
    (with_sess (set_busy true) w).

(** [clone_start] after the observer reported a resize of the container,
    which armed the debounce timer, and after [disconnect()] was then
    called. *)
Definition resized : World :=
  snd (Clone.deliver (line_host 200 50) ContainerResize clone_start).

Definition resized_disconnected : World := snd (Clone.disconnect resized).

(** [inplace_start] in the middle of a refit cycle. *)
Definition inplace_refitting : World := with_sess (set_busy true) inplace_start.

(** The worlds in which the measurement phase of a refit of [inplace_start]
    ends on [failing_host 200 50], whose first probe, at 260px, throws: the
    in-place implementation leaves the target at 260px, the clone
    implementation leaves its measurement box under [body]. *)
Definition inplace_torn : World :=
  at_size (Node TargetEl) 260
    (with_dom (alter_elem (with_style "maxWidth" (Percent 100)) (Node TargetEl))
    (with_dom (alter_elem (with_style "width" (Percent 100)) (Node TargetEl))
    (with_dom (alter_elem (with_style "display" (Keyword "block")) (Node TargetEl))
       inplace_refitting))).

Definition clone_torn : World :=
  snd (measurement (Clone.computeBestFontSize (failing_host 200 50)) inplace_start).

(** ** Further notions used to state what the code keeps *)

(** The loop run for at most [n] iterations, hence at most [n] probes:
    [None] when a probe would still be due after them. *)
Fixpoint search_within (n : nat) (probe : Z -> M bool) (lo hi best : Z)
    (w : World) : option (outcome Z * World) :=
  if decide (lo <= hi) then
    match n with
    | O => None
    | S n' =>
        match probe ((lo + hi) / 2) w with
        | (Ret true, w') =>
            search_within n' probe ((lo + hi) / 2 + 1) hi ((lo + hi) / 2) w'
        | (Ret false, w') =>
            search_within n' probe lo ((lo + hi) / 2 - 1) best w'
        | (Throw e, w') => Some (Throw e, w')
        end
    end
  else Some (Ret best, w).

(** Every world an action can reach from [w] is related to [w] by [P]. *)
Definition keeps {A} (P : World -> World -> Prop) (m : M A) : Prop :=
  forall w, P w (snd (m w)).

(** An action that neither reads nor writes the session. *)
Definition session_blind {A} (m : M A) : Prop :=
  forall f w, m (with_sess f w) = (fst (m w), with_sess f (snd (m w))).

(** What a user or the host can do with a session. *)
Inductive action :=
| CallRefit                  (* session.refit() *)
| CallDisconnect             (* session.disconnect() *)
| HostEvent (ev : event).

Definition perform (compute : node -> node -> Q -> Q -> M Q) (a : action)
  : M unit :=
  match a with
  | CallRefit => Controller.refit compute
  | CallDisconnect => Controller.disconnect
  | HostEvent ev => Controller.deliver compute ev
  end.

(** A history of calls and events; an exception does not stop the page. *)
Fixpoint perform_all (compute : node -> node -> Q -> Q -> M Q)
    (acts : list action) (w : World) : World :=
  match acts with
  | [] => w
  | a :: acts' => perform_all compute acts' (snd (perform compute a w))
  end.

(** Whether the session is subscribed to the source of an observed event. *)
Definition listens (s : Session) (ev : event) : bool :=
  match ev with
  | ContainerResize => bool_decide (ro s = Some true)
  | WindowResize => winResize s
  | ContentMutation => bool_decide (mo s = Some true)
  | FontsReady | TimerFire | AnimationFrame => false
  end.

(** Session [s'] is what session [s] can have become: the same elements and
    options, and no subscription that [s] did not have. *)
Definition ages (s s' : Session) : Prop :=
  targetEl s' = targetEl s /\ containerEl s' = containerEl s /\
  opts s' = opts s /\
  (ro s' = Some true -> ro s = Some true) /\
  (mo s' = Some true -> mo s = Some true) /\
  (winResize s' = true -> winResize s = true) /\
  (fontsThen s' = true -> fontsThen s = true).

(** The clone that [cloneForMeasure] makes of an element. *)
Definition measure_clone (e : Element) : Element :=
  {| style := Clone.measure_style (style e); dataset := dataset e;
     content := content e |}.

(** [w'] has, after what [w] has under [body], one more box, which holds
    one clone and is styled as the measurement box of width [rw]. *)
Definition box_left (rw : Q) (w w' : World) : Prop :=
  exists bx,
    w' = with_dom (with_body (fun bs => bs ++ [bx])) w /\
    box_style bx = box_style (Clone.measure_box rw) /\
    length (box_children bx) = 1%nat.

(** [w'] is [w] up to the inline style properties [keys] of node [n]. *)
Definition restyled (n : node) (keys : list string) (w w' : World) : Prop :=
  sess w' = sess w /\
  body (dom w') = body (dom w) /\
  (forall m, m <> n -> get_node m (dom w') = get_node m (dom w)) /\
  dataset (get_node n (dom w')) = dataset (get_node n (dom w)) /\
  content (get_node n (dom w')) = content (get_node n (dom w)) /\
  (forall k, k ∉ keys ->
     style (get_node n (dom w')) !! k = style (get_node n (dom w)) !! k).

(** The inline style properties that the in-place implementation writes. *)
Definition inplace_keys : list string :=
  ["display"; "width"; "maxWidth"; "fontSize"].

(** [b] is where the answers of the oracle change: [b] fits and is the
    upper end of the range or has a successor that does not fit; or [b] is
    the lower end of a range that is empty or whose lower end does not
    fit. *)
Definition boundary (fits : Z -> bool) (lo hi b : Z) : Prop :=
  (lo <= b <= hi /\ fits b = true /\ (b = hi \/ fits (b + 1) = false)) \/
  (b = lo /\ (hi < lo \/ fits lo = false)).

(** Document [d'] is [d] up to the [dataset] of node [n] and to the inline
    style properties [keys] of node [n]. *)
Definition relaid (n : node) (keys : list string) (d d' : Dom) : Prop :=
  body d' = body d /\
  (forall m, m <> n -> get_node m d' = get_node m d) /\
  content (get_node n d') = content (get_node n d) /\
  (forall k, k ∉ keys -> style (get_node n d') !! k = style (get_node n d) !! k).

(** The size of the container does not depend on [dataset] of node [t] nor
    on the style properties [keys] of node [t]. *)
Definition container_independent (h : Host) (t c : node) (keys : list string)
  : Prop :=
  forall d d', relaid t keys d d' ->
    clientWidth h (Node c) d = clientWidth h (Node c) d' /\
    clientHeight h (Node c) d = clientHeight h (Node c) d' /\
    rectWidth h (Node c) d = rectWidth h (Node c) d'.

(** The scroll size of node [t] does not depend on its [dataset]. *)
Definition dataset_free (h : Host) (t : node) : Prop :=
  forall d d', relaid t [] d d' ->
    scrollWidth h (Node t) d = scrollWidth h (Node t) d' /\
    scrollHeight h (Node t) d = scrollHeight h (Node t) d'.

(** The scroll height of a clone depends only on the style of its box and
    on its own style and content. *)
Definition probe_local (h : Host) : Prop :=
  forall i j d d',
    box_style (body d !!! i) = box_style (body d' !!! i) ->
    style (get_elem (Probe i j) d) = style (get_elem (Probe i j) d') ->
    content (get_elem (Probe i j) d) = content (get_elem (Probe i j) d') ->
    scrollHeight h (Probe i j) d = scrollHeight h (Probe i j) d'.

(** The world in which the clone implementation runs its loop when it was
    called in [w] and the container's rectangle is [rw] wide: the box is the
    last one under [body] and holds the clone of node [t]. *)
Definition clone_loop_world (rw : Q) (t : node) (w : World) : World :=
  with_dom (with_body (fun bs =>
    bs ++ [{| box_style := box_style (Clone.measure_box rw);
              box_children := [measure_clone (get_node t (dom w))] |}])) w.

(** The world a cycle ends in when its measurement returned [best] in the
    world it started in, as the clone implementation does. *)
Definition fitted (best : Q) (w : World) : World :=
  with_sess (set_busy false)
    (with_dom (alter_elem (with_data "fittedFontPx" best)
                 (Node (targetEl (sess w))))
       (with_dom (alter_elem
                    (with_style "fontSize" (Px (Z.max 1 (Qfloor best))))
                    (Node (targetEl (sess w))))
          (with_sess (set_busy true) w))).

(** The world in which the in-place implementation runs its loop when it
    was called in [w]: node [t] has the three layout properties set. *)
Definition inplace_loop_world (t : node) (w : World) : World :=
  with_dom (alter_elem (with_style "maxWidth" (Percent 100)) (Node t))
    (with_dom (alter_elem (with_style "width" (Percent 100)) (Node t))
       (with_dom (alter_elem (with_style "display" (Keyword "block")) (Node t))
          w)).

(** ** The loop on double-precision numbers *)

(** The integer that a double-precision number holds when it is given the
    integer [z]: [z] itself when [z] has at most 53 significant bits;
    otherwise the nearest multiple of [2^e], where [e] is the number of bits
    in excess, and of two that are as near the one whose quotient by [2^e]
    is even.  Overflow to infinity, from [2^1024] on, is left out. *)
Definition to_double (z : Z) : Z :=
  let e := Z.log2 (Z.abs z) - 52 in
  if e <=? 0 then z
  else
    let q := Z.abs z / 2 ^ e in
    let r := Z.abs z mod 2 ^ e in
    let up := (2 ^ (e - 1) <? r) || ((2 ^ (e - 1) =? r) && Z.odd q) in
    Z.sgn z * ((if up then q + 1 else q) * 2 ^ e).

(** The loop of the source with the rounding of its three additions
    ([lo + hi], [mid + 1] and [mid - 1]; halving and [Math.floor] are
    exact), run for at most [n] iterations: [None] when a probe would still
    be due after them. *)
Fixpoint search_double (n : nat) (probe : Z -> M bool) (lo hi best : Z)
    (w : World) : option (outcome Z * World) :=
  if decide (lo <= hi) then
    match n with
    | O => None
    | S n' =>
        match probe (to_double (lo + hi) / 2) w with
        | (Ret true, w') =>
            search_double n' probe (to_double (to_double (lo + hi) / 2 + 1)) hi
              (to_double (lo + hi) / 2) w'
        | (Ret false, w') =>
            search_double n' probe lo (to_double (to_double (lo + hi) / 2 - 1))
              best w'
        | (Throw e, w') => Some (Throw e, w')
        end
    end
  else Some (Ret best, w).

(** The ranges on which the loop on integers is the loop of the source:
    when [hi] is below [2^52], every sum [lo + hi] that the loop forms is
    below [2^53], so the sum, its half [mid], [mid + 1], [mid - 1] and
    [best - 10] are integers that a double holds exactly
    (see [search_double_in_range] below). *)
Definition exact_size (hi : Z) : Prop := hi < 2 ^ 52.

(** The [minPx] option of the session is a number. *)
Definition numeric_min (s : Session) : Prop :=
  exists m, opts s !!! "minPx" = VNum m.

(** The sessions on which a refit here is a refit of the source: [minPx] is
    a number, and the bounds of the search are in the range of
    [exact_size]. *)
Definition exact_options (s : Session) : Prop :=
  numeric_min s /\
  exact_size (Qfloor (to_number (opts s !!! "minPx"))) /\
  exact_size (Qfloor (to_number (opts s !!! "maxPx"))).

(** Options under the names minSize, maxSize, observeContainerResize and
    observeContentMutation, which are not names that the code reads. *)
Definition misnamed_options : gmap string value :=
  list_to_map
    [("minSize", VNum 20); ("maxSize", VNum 30);
     ("observeContainerResize", VBool false);
     ("observeContentMutation", VBool false)].

(** * Properties *)

(** ** The search loop *)

Lemma search_eq (probe : Z -> M bool) (lo hi best : Z) (w : World) :
  search probe lo hi best w =
  if decide (lo <= hi) then
    match probe ((lo + hi) / 2) w with
    | (Ret true, w') => search probe ((lo + hi) / 2 + 1) hi ((lo + hi) / 2) w'
    | (Ret false, w') => search probe lo ((lo + hi) / 2 - 1) best w'
    | (Throw e, w') => (Throw e, w')
    end
  else (Ret best, w).
Proof.
  simp search. destruct (Z_le_dec lo hi) as [Hle | Hgt]; simpl.
  - rewrite decide_True by done.
    destruct (probe ((lo + hi) / 2) w) as [[[] | e] w']; simpl; reflexivity.
  - rewrite decide_False by done. reflexivity.
Qed.

Section SearchSpec.

Variable probe : Z -> M bool.
Variable fits : Z -> bool.
(** What holds of the state when the loop starts and is kept by a probe. *)
Variable I : World -> Prop.
Hypothesis probe_fits :
  forall mid w, I w -> exists w', probe mid w = (Ret (fits mid), w') /\ I w'.
Hypothesis fits_mono : monotone fits.
Variables lo0 hi0 : Z.

(** The loop invariant: nothing above [hi] fits, and [best] is either still
    the lower end of the range, with [lo] not yet moved, or the size just
    below [lo], which fits. *)
Let inv (lo hi best : Z) : Prop :=
  lo0 <= lo /\ hi <= hi0 /\
  ((lo = lo0 /\ best = lo0) \/
   (best = lo - 1 /\ lo0 <= best <= hi0 /\ fits best = true)) /\
  (forall s, hi < s <= hi0 -> fits s = false).

Lemma inv_exit lo hi best :
  inv lo hi best -> hi < lo -> largest_fit fits lo0 hi0 best.
Proof.
  intros (Hlo & Hhi & Hbest & Habove) Hlt.
  destruct Hbest as [[-> ->] | (-> & Hrange & Hfit)].
  - right. split; [| reflexivity].
    intros s [Hs Hfs]. rewrite Habove in Hfs by lia. discriminate.
  - left. split; [split; assumption |].
    intros s [Hs Hfs].
    destruct (Z_le_gt_dec s (lo - 1)) as [|Hgt]; [assumption |].
    rewrite Habove in Hfs by lia. discriminate.
Qed.

Lemma inv_fit lo hi best :
  inv lo hi best -> lo <= hi -> fits ((lo + hi) / 2) = true ->
  inv ((lo + hi) / 2 + 1) hi ((lo + hi) / 2).
Proof.
  intros (Hlo & Hhi & Hbest & Habove) Hle Hfit.
  assert (lo <= (lo + hi) / 2 <= hi)
    by (split; [apply Z.div_le_lower_bound | apply Z.div_le_upper_bound]; lia).
  repeat split; try lia; [| assumption].
  right. repeat split; try lia. assumption.
Qed.

Lemma inv_overflow lo hi best :
  inv lo hi best -> lo <= hi -> fits ((lo + hi) / 2) = false ->
  inv lo ((lo + hi) / 2 - 1) best.
Proof.
  intros (Hlo & Hhi & Hbest & Habove) Hle Hfit.
  assert (lo <= (lo + hi) / 2 <= hi)
    by (split; [apply Z.div_le_lower_bound | apply Z.div_le_upper_bound]; lia).
  repeat split; try lia; [assumption |].
  intros s Hs.
  destruct (Z_le_gt_dec s hi) as [Hsle | Hsgt]; [| apply Habove; lia].
  destruct (fits s) eqn:Hfs; [| reflexivity].
  destruct (Z.eq_dec s ((lo + hi) / 2)) as [-> | Hne]; [congruence |].
  rewrite (fits_mono s ((lo + hi) / 2)) in Hfit by (assumption || lia).
  discriminate.
Qed.

Lemma search_invariant (n : nat) :
  forall lo hi best w,
    (Z.to_nat (hi + 1 - lo) <= n)%nat -> I w -> inv lo hi best ->
    exists b w', search probe lo hi best w = (Ret b, w') /\ I w' /\
                 largest_fit fits lo0 hi0 b.
Proof.
  induction n as [| n IH]; intros lo hi best w Hn Hw Hinv;
    rewrite search_eq; case_decide as Hle.
  - lia.
  - exists best, w. repeat split; [assumption |].
    apply (inv_exit lo hi); [assumption | lia].
  - assert (lo <= (lo + hi) / 2 <= hi)
      by (split; [apply Z.div_le_lower_bound | apply Z.div_le_upper_bound]; lia).
    destruct (probe_fits ((lo + hi) / 2) w Hw) as (w' & -> & Hw').
    destruct (fits ((lo + hi) / 2)) eqn:Hfit.
    + apply IH; [lia | assumption | by apply (inv_fit lo hi best)].
    + apply IH; [lia | assumption | by apply (inv_overflow lo hi best)].
  - exists best, w. repeat split; [assumption |].
    apply (inv_exit lo hi); [assumption | lia].
Qed.

(** From the start of the loop, with [best = lo]. *)
Lemma search_largest_fit w :
  I w ->
  exists b w', search probe lo0 hi0 lo0 w = (Ret b, w') /\ I w' /\
               largest_fit fits lo0 hi0 b.
Proof.
  intros Hw. apply (search_invariant (Z.to_nat (hi0 + 1 - lo0))); [lia | assumption |].
  repeat split; lia.
Qed.

End SearchSpec.

(** ** The loop on doubles *)

Lemma to_double_small z : Z.abs z < 2 ^ 53 -> to_double z = z.
Proof.
  intros Hz. unfold to_double. cbv zeta.
  assert (He : Z.log2 (Z.abs z) - 52 <= 0).
  { destruct (Z.eq_dec z 0) as [-> | Hnz]; [vm_compute; discriminate |].
    assert (Z.log2 (Z.abs z) < 53) by (apply Z.log2_lt_pow2; lia). lia. }
  apply Z.leb_le in He. by rewrite He.
Qed.

(** In the exact range the loop with the rounding is the loop on integers,
    and it is over within a logarithmic number of probes. *)
Lemma search_double_in_range (probe : Z -> M bool) (n : nat) :
  forall lo hi best w,
    1 <= lo -> exact_size hi -> hi + 1 - lo < 2 ^ Z.of_nat n ->
    search_double n probe lo hi best w = Some (search probe lo hi best w).
Proof.
  unfold exact_size.
  induction n as [| n IH]; intros lo hi best w Hlo Hhi Hsize;
    rewrite search_eq; simpl search_double; case_decide as Hle; try reflexivity.
  - simpl in Hsize. lia.
  - assert (Hmid : lo <= (lo + hi) / 2 <= hi)
      by (split; [apply Z.div_le_lower_bound | apply Z.div_le_upper_bound]; lia).
    assert (Hhalf : hi + lo - 1 <= 2 * ((lo + hi) / 2) <= lo + hi)
      by (pose proof (Z.mod_pos_bound (lo + hi) 2 eq_refl);
          pose proof (Z.div_mod (lo + hi) 2); lia).
    assert (H52 : 2 ^ 53 = 2 * 2 ^ 52) by reflexivity.
    rewrite (to_double_small (lo + hi)) by lia.
    rewrite (to_double_small ((lo + hi) / 2 + 1)) by lia.
    rewrite (to_double_small ((lo + hi) / 2 - 1)) by lia.
    rewrite Nat2Z.inj_succ, Z.pow_succ_r in Hsize by lia.
    destruct (probe ((lo + hi) / 2) w) as [[[] | e] w1]; [| | reflexivity];
      apply IH; try lia;
      generalize dependent (2 ^ Z.of_nat n);
      generalize dependent ((lo + hi) / 2); intros; lia.
Qed.

Lemma exact_size_below hi : exact_size hi -> hi < 2 ^ 53.
Proof.
  unfold exact_size. intros Hhi.
  assert (2 ^ 52 < 2 ^ 53) by reflexivity. lia.
Qed.

(** A number of probes that is enough for the range. *)
Lemma range_size_below_power lo hi :
  hi + 1 - lo < 2 ^ Z.of_nat (Z.to_nat (hi + 1 - lo)).
Proof.
  destruct (Z_le_gt_dec (hi + 1 - lo) 0) as [Hle | Hgt].
  - rewrite Z2Nat.nonpos by lia. simpl. lia.
  - rewrite Z2Nat.id by lia. apply Z.pow_gt_lin_r; lia.
Qed.

(** At [lo = hi = 2^53], a probe that fits sends the loop with the rounding
    back to where it was. *)
Lemma search_double_stuck (probe : Z -> M bool) (I : World -> Prop) :
  (forall w, I w -> exists w', probe (2 ^ 53) w = (Ret true, w') /\ I w') ->
  forall n best w, I w -> search_double n probe (2 ^ 53) (2 ^ 53) best w = None.
Proof.
  intros Hfits. induction n as [| n IH]; intros best w Hw.
  - reflexivity.
  - assert (Hmid : to_double (2 ^ 53 + 2 ^ 53) / 2 = 2 ^ 53)
      by (vm_compute; reflexivity).
    assert (Hlo : to_double (2 ^ 53 + 1) = 2 ^ 53) by (vm_compute; reflexivity).
    cbn [search_double]. rewrite decide_True by lia.
    rewrite Hmid, Hlo.
    destruct (Hfits w Hw) as (w' & -> & Hw'). by apply IH.
Qed.

Lemma to_double_upto z : 0 <= z <= 2 ^ 53 -> to_double z = z.
Proof.
  intros Hz. destruct (Z.eq_dec z (2 ^ 53)) as [-> | Hne]; [reflexivity |].
  apply to_double_small. lia.
Qed.

(** The sum of two sizes below [2^53] may be rounded, yet the size probed
    lies between them. *)
Lemma pivot_in_range lo hi :
  1 <= lo -> lo <= hi -> hi < 2 ^ 53 ->
  lo <= to_double (lo + hi) / 2 <= hi.
Proof.
  intros Hlo Hle Hhi.
  assert (Hhalf : 2 * ((lo + hi) / 2) <= lo + hi < 2 * ((lo + hi) / 2) + 2)
    by (pose proof (Z.mod_pos_bound (lo + hi) 2 eq_refl);
        pose proof (Z.div_mod (lo + hi) 2); lia).
  destruct (Z_lt_le_dec (lo + hi) (2 ^ 53)) as [Hsmall | Hbig].
  - rewrite to_double_small by lia. lia.
  - assert (H54 : 2 ^ 54 = 2 * 2 ^ 53) by reflexivity.
    assert (Hlog : Z.log2 (Z.abs (lo + hi)) = 53).
    { rewrite Z.abs_eq by lia. apply Z.log2_unique; [lia |].
      change (2 ^ (53 + 1)) with (2 ^ 54). lia. }
    unfold to_double. cbv zeta. rewrite Hlog.
    change (53 - 52 <=? 0) with false. cbv iota.
    change (2 ^ (53 - 52)) with 2. change (2 ^ (53 - 52 - 1)) with 1.
    rewrite Z.abs_eq, Z.sgn_pos, Z.mul_1_l by lia.
    pose proof (Z.mod_pos_bound (lo + hi) 2 eq_refl) as Hr.
    pose proof (Z.div_mod (lo + hi) 2 ltac:(lia)) as Hdm.
    destruct ((1 <? (lo + hi) mod 2)
              || ((1 =? (lo + hi) mod 2) && Z.odd ((lo + hi) / 2))) eqn:Hup;
      rewrite Z.div_mul by lia; [| lia].
    apply orb_true_iff in Hup as [Hup | Hup].
    + apply Z.ltb_lt in Hup. lia.
    + apply andb_true_iff in Hup as [Hup _]. apply Z.eqb_eq in Hup. lia.
Qed.

Lemma largest_fit_unique (fits : Z -> bool) (lo hi b1 b2 : Z) :
  largest_fit fits lo hi b1 -> largest_fit fits lo hi b2 -> b1 = b2.
Proof.
  intros [[Hin1 Hmax1] | [Hnone1 ->]] [[Hin2 Hmax2] | [Hnone2 ->]].
  - pose proof (Hmax1 _ Hin2). pose proof (Hmax2 _ Hin1). lia.
  - destruct (Hnone2 _ Hin1).
  - destruct (Hnone1 _ Hin2).
  - reflexivity.
Qed.

Section DoubleSearchSpec.

Variable probe : Z -> M bool.
Variable fits : Z -> bool.
Variable I : World -> Prop.
Hypothesis probe_fits :
  forall mid w, I w -> exists w', probe mid w = (Ret (fits mid), w') /\ I w'.
Hypothesis fits_mono : monotone fits.
Variables lo0 hi0 : Z.
Hypothesis lo0_positive : 1 <= lo0.
Hypothesis hi0_bounded : hi0 < 2 ^ 53.

(** The invariant of the loop, for whatever size of the range is probed. *)
Let kept (lo hi best : Z) : Prop :=
  lo0 <= lo /\ hi <= hi0 /\
  ((lo = lo0 /\ best = lo0) \/
   (best = lo - 1 /\ lo0 <= best <= hi0 /\ fits best = true)) /\
  (forall s, hi < s <= hi0 -> fits s = false).

Lemma kept_exit lo hi best :
  kept lo hi best -> hi < lo -> largest_fit fits lo0 hi0 best.
Proof.
  intros (Hlo & Hhi & Hbest & Habove) Hlt.
  destruct Hbest as [[-> ->] | (-> & Hrange & Hfit)].
  - right. split; [| reflexivity].
    intros s [Hs Hfs]. rewrite Habove in Hfs by lia. discriminate.
  - left. split; [split; assumption |].
    intros s [Hs Hfs].
    destruct (Z_le_gt_dec s (lo - 1)) as [|Hgt]; [assumption |].
    rewrite Habove in Hfs by lia. discriminate.
Qed.

Lemma kept_fit lo hi best mid :
  kept lo hi best -> lo <= mid <= hi -> fits mid = true ->
  kept (mid + 1) hi mid.
Proof.
  intros (Hlo & Hhi & Hbest & Habove) Hmid Hfit.
  repeat split; try lia; [| assumption].
  right. repeat split; try lia. assumption.
Qed.

Lemma kept_overflow lo hi best mid :
  kept lo hi best -> lo <= mid <= hi -> fits mid = false ->
  kept lo (mid - 1) best.
Proof.
  intros (Hlo & Hhi & Hbest & Habove) Hmid Hfit.
  repeat split; try lia; [assumption |].
  intros s Hs.
  destruct (Z_le_gt_dec s hi) as [Hsle | Hsgt]; [| apply Habove; lia].
  destruct (fits s) eqn:Hfs; [| reflexivity].
  destruct (Z.eq_dec s mid) as [-> | Hne]; [congruence |].
  rewrite (fits_mono s mid) in Hfit by (assumption || lia).
  discriminate.
Qed.

Lemma search_double_invariant (n : nat) :
  forall lo hi best w,
    (Z.to_nat (hi + 1 - lo) <= n)%nat -> I w -> kept lo hi best ->
    exists b w', search_double n probe lo hi best w = Some (Ret b, w') /\ I w' /\
                 largest_fit fits lo0 hi0 b.
Proof.
  induction n as [| n IH]; intros lo hi best w Hn Hw Hkept;
    simpl search_double; case_decide as Hle; try lia;
    try (exists best, w; repeat split; [assumption |];
         apply (kept_exit lo hi); [assumption | lia]).
  pose proof Hkept as (Hlo & Hhi & _).
  assert (Hmid : lo <= to_double (lo + hi) / 2 <= hi)
    by (apply pivot_in_range; lia).
  destruct (probe_fits (to_double (lo + hi) / 2) w Hw) as (w' & -> & Hw').
  destruct (fits (to_double (lo + hi) / 2)) eqn:Hfit.
  - rewrite to_double_upto by lia.
    apply IH; [lia | assumption | by apply (kept_fit lo hi best)].
  - rewrite to_double_upto by lia.
    apply IH; [lia | assumption | by apply (kept_overflow lo hi best)].
Qed.

(** From the start of the loop, with [best = lo], and with the probes that
    the range can take at most. *)
Lemma search_double_largest_fit w :
  I w ->
  exists b w', search_double (Z.to_nat (hi0 + 1 - lo0)) probe lo0 hi0 lo0 w
                 = Some (Ret b, w') /\ I w' /\
               largest_fit fits lo0 hi0 b.
Proof.
  intros Hw. apply search_double_invariant; [lia | assumption |].
  repeat split; lia.
Qed.

End DoubleSearchSpec.

(** Whatever the probes answer, a size that the loop returns is the initial
    [best] or a size of the range. *)
Lemma search_range (probe : Z -> M bool) (n : nat) :
  forall lo hi best w b w',
    (Z.to_nat (hi + 1 - lo) <= n)%nat ->
    search probe lo hi best w = (Ret b, w') ->
    b = best \/ lo <= b <= hi.
Proof.
  induction n as [| n IH]; intros lo hi best w b w' Hn;
    rewrite search_eq; case_decide as Hle; try lia.
  - intros [= <- <-]. by left.
  - assert (lo <= (lo + hi) / 2 <= hi)
      by (split; [apply Z.div_le_lower_bound | apply Z.div_le_upper_bound]; lia).
    destruct (probe ((lo + hi) / 2) w) as [[[] | e] w1]; [| | discriminate].
    + intros Hs. apply IH in Hs; [| lia]. lia.
    + intros Hs. apply IH in Hs; [| lia]. lia.
  - intros [= <- <-]. by left.
Qed.

(** ** Writes to the document *)

Lemma bind_run {A B} (m : M A) (f : A -> M B) (w : World) :
  (m ≫= f) w =
  match m w with
  | (Ret a, w') => f a w'
  | (Throw e, w') => (Throw e, w')
  end.
Proof. reflexivity. Qed.

Lemma with_style_twice k v v' e :
  with_style k v (with_style k v' e) = with_style k v e.
Proof. unfold with_style; simpl. by rewrite insert_insert_eq. Qed.

Lemma alter_elem_twice f g el d :
  alter_elem f el (alter_elem g el d) = alter_elem (fun e => f (g e)) el d.
Proof.
  destruct el as [[] | i j]; simpl; try reflexivity.
  f_equal. rewrite list_alter_alter_eq.
  apply list_alter_ext; [| reflexivity].
  intros b _. unfold alter_box; simpl. f_equal.
  by rewrite list_alter_alter_eq.
Qed.

Lemma alter_elem_ext f g el d :
  (forall e, f e = g e) -> alter_elem f el d = alter_elem g el d.
Proof.
  intros Hfg. destruct el as [[] | i j]; simpl; rewrite ?Hfg; try reflexivity.
  f_equal. apply list_alter_ext; [| reflexivity].
  intros b _. unfold alter_box. f_equal.
  apply list_alter_ext; [| reflexivity]. intros e _. apply Hfg.
Qed.

Lemma at_size_twice el m m' w :
  at_size el m (at_size el m' w) = at_size el m w.
Proof.
  unfold at_size, with_dom; simpl. f_equal.
  rewrite alter_elem_twice. apply alter_elem_ext.
  intros e. apply with_style_twice.
Qed.

Lemma setFontSizePx_run el (mid : Z) w :
  setFontSizePx el (inject_Z mid) w = (Ret tt, at_size el mid w).
Proof. unfold setFontSizePx, set_style, modify, at_size. by rewrite Qfloor_Z. Qed.

(** ** Reads *)

Lemma read_only_layout {A} (r : Dom -> outcome A) : read_only (layout r).
Proof. intros w. reflexivity. Qed.

Lemma read_only_ret {A} (a : A) : read_only (mret a : M A).
Proof. intros w. reflexivity. Qed.

Lemma read_only_bind {A B} (m : M A) (f : A -> M B) :
  read_only m -> (forall a, read_only (f a)) -> read_only (m ≫= f).
Proof.
  intros Hm Hf w. rewrite bind_run. specialize (Hm w).
  destruct (m w) as [[a | e] w']; simpl in *; subst; [apply Hf | reflexivity].
Qed.

Lemma read_only_elementFits h t c : read_only (InPlace.elementFits h t c).
Proof.
  unfold InPlace.elementFits.
  apply read_only_bind; [apply read_only_layout | intros sw].
  apply read_only_bind; [apply read_only_layout | intros cw].
  destruct (sw <=? cw); [| apply read_only_ret].
  apply read_only_bind; [apply read_only_layout | intros sh].
  apply read_only_bind; [apply read_only_layout | intros ch].
  apply read_only_ret.
Qed.

(** ** A probe: one write of the size, then reads *)

Section Probe.

Variable el : elem.
Variable reads : M bool.
Hypothesis reads_only : read_only reads.

Let probe (mid : Z) : M bool := setFontSizePx el (inject_Z mid);; reads.

Lemma probe_run mid w :
  probe mid w = (fst (reads (at_size el mid w)), at_size el mid w).
Proof.
  unfold probe. rewrite bind_run, setFontSizePx_run.
  specialize (reads_only (at_size el mid w)).
  destruct (reads (at_size el mid w)); simpl in *; by subst.
Qed.

(** The answer of a probe does not depend on the sizes probed before. *)
Lemma probe_forgets mid m w :
  fst (probe mid (at_size el m w)) = fst (probe mid w).
Proof. by rewrite !probe_run, at_size_twice. Qed.

(** If the probes answer as [fits] in the state in which the loop starts,
    they do so throughout the loop. *)
Lemma probe_stable (fits : Z -> bool) w0 :
  (forall mid, fst (probe mid w0) = Ret (fits mid)) ->
  forall mid w,
    (w = w0 \/ exists m, w = at_size el m w0) ->
    exists w', probe mid w = (Ret (fits mid), w') /\
               (w' = w0 \/ exists m, w' = at_size el m w0).
Proof.
  intros Hfits mid w Hw. exists (at_size el mid w0).
  split; [| right; by exists mid].
  destruct Hw as [-> | [m ->]].
  - rewrite probe_run. f_equal. rewrite <- Hfits. by rewrite probe_run.
  - rewrite probe_run, at_size_twice. f_equal.
    rewrite <- Hfits. by rewrite probe_run.
Qed.

End Probe.

(** ** Running the monadic code *)

Lemma layout_run {A} (r : Dom -> outcome A) w : layout r w = (r (dom w), w).
Proof. reflexivity. Qed.

Lemma gets_run {A} (f : World -> A) w : gets f w = (Ret (f w), w).
Proof. reflexivity. Qed.

Lemma modify_run (f : World -> World) w : modify f w = (Ret tt, f w).
Proof. reflexivity. Qed.

Lemma ret_run {A} (a : A) w : (mret a : M A) w = (Ret a, w).
Proof. reflexivity. Qed.

Lemma set_style_run el k v w :
  set_style el k v w = (Ret tt, with_dom (alter_elem (with_style k v) el) w).
Proof. reflexivity. Qed.

Lemma set_data_run el k q w :
  set_data el k q w = (Ret tt, with_dom (alter_elem (with_data k q) el) w).
Proof. reflexivity. Qed.

Ltac run :=
  repeat first
    [ rewrite bind_run
    | rewrite layout_run
    | rewrite gets_run
    | rewrite modify_run
    | rewrite set_style_run
    | rewrite set_data_run
    | rewrite ret_run ].

Lemma makeMeasureBox_run h c w :
  Clone.makeMeasureBox h c w =
  match rectWidth h (Node c) (dom w) with
  | Ret rw =>
      (Ret (length (body (dom w))),
       with_dom (with_body (fun bs => bs ++ [Clone.measure_box rw])) w)
  | Throw e => (Throw e, w)
  end.
Proof.
  unfold Clone.makeMeasureBox. run.
  destruct (rectWidth h (Node c) (dom w)); reflexivity.
Qed.

Lemma cloneForMeasure_run t i w :
  exists j w', Clone.cloneForMeasure t i w = (Ret (Probe i j), w').
Proof. eexists _, _. unfold Clone.cloneForMeasure. run. reflexivity. Qed.

(** ** The result of the clone implementation *)

(** A size returned by the clone implementation is the [minPx] it was given
    (from the guard), or a size the loop returned. *)
Lemma clone_compute_returns h t c minPx maxPx w s w' :
  Clone.computeBestFontSize h t c minPx maxPx w = (Ret s, w') ->
  s = minPx \/
  exists b, s = inject_Z b /\
    (b = Z.max 1 (Qfloor minPx) \/ Z.max 1 (Qfloor minPx) <= b <= Qfloor maxPx).
Proof.
  unfold Clone.computeBestFontSize. run.
  destruct (clientWidth h (Node c) (dom w)) as [cw | e]; [| discriminate]. run.
  destruct (clientHeight h (Node c) (dom w)) as [ch | e]; [| discriminate].
  destruct ((cw <=? 0) || (ch <=? 0)).
  { run. intros [= <- <-]. by left. }
  rewrite bind_run, makeMeasureBox_run.
  destruct (rectWidth h (Node c) (dom w)) as [rw | e]; [| discriminate].
  rewrite bind_run.
  destruct (cloneForMeasure_run t (length (body (dom w)))
              (with_dom (with_body (fun bs => bs ++ [Clone.measure_box rw])) w))
    as (j & w1 & ->).
  rewrite bind_run.
  destruct (search _ _ _ _ w1) as [[b | e] w2] eqn:Hs; [| discriminate].
  run. intros [= <- <-]. right. exists b. split; [reflexivity |].
  eapply search_range; [| exact Hs]. reflexivity.
Qed.

(** With integer bounds [1 <= m <= n] the clone implementation returns an
    integer between them. *)
Lemma clone_result_in_bounds h t c (m n : Z) w s w' :
  1 <= m <= n ->
  Clone.computeBestFontSize h t c (inject_Z m) (inject_Z n) w = (Ret s, w') ->
  exists b, s = inject_Z b /\ m <= b <= n.
Proof.
  intros Hmn Hrun. apply clone_compute_returns in Hrun.
  rewrite !Qfloor_Z in Hrun.
  destruct Hrun as [-> | (b & -> & Hb)]; [exists m | exists b]; split; lia || reflexivity.
Qed.

(** ** The result of the in-place implementation *)

(** A size returned by the in-place implementation is the [minPx] it was
    given (from the guard), or 10 less than a size the loop returned. *)
Lemma inplace_compute_returns h t c minPx maxPx w s w' :
  InPlace.computeBestFontSize h t c minPx maxPx w = (Ret s, w') ->
  s = minPx \/
  exists b, s = inject_Z (b - 10) /\
    (b = Z.max 1 (Qfloor minPx) \/ Z.max 1 (Qfloor minPx) <= b <= Qfloor maxPx).
Proof.
  unfold InPlace.computeBestFontSize. run.
  destruct (clientWidth h (Node c) (dom w)) as [cw | e]; [| discriminate]. run.
  destruct (clientHeight h (Node c) (dom w)) as [ch | e]; [| discriminate].
  destruct ((cw <=? 0) || (ch <=? 0)).
  { run. intros [= <- <-]. by left. }
  run.
  match goal with
  | |- context [search ?p ?lo ?hi ?b0 ?w0] =>
      destruct (search p lo hi b0 w0) as [[b | e] w2] eqn:Hs; [| discriminate]
  end.
  intros [= <- <-]. right. exists b. split; [reflexivity |].
  eapply search_range; [| exact Hs]. reflexivity.
Qed.

(** With integer bounds [1 <= m <= n], what the in-place implementation
    returns once the container has an area is between [m - 10] and
    [n - 10]. *)
Lemma inplace_result_offset_bounds h t c (m n : Z) w s w' cw ch :
  1 <= m <= n ->
  clientWidth h (Node c) (dom w) = Ret cw -> 0 < cw ->
  clientHeight h (Node c) (dom w) = Ret ch -> 0 < ch ->
  InPlace.computeBestFontSize h t c (inject_Z m) (inject_Z n) w = (Ret s, w') ->
  exists b, s = inject_Z (b - 10) /\ m <= b <= n.
Proof.
  intros Hmn Hcw Hcwpos Hch Hchpos Hrun.
  assert (Hguard : (cw <=? 0) || (ch <=? 0) = false).
  { apply orb_false_iff. rewrite !Z.leb_gt. lia. }
  pose proof (inplace_compute_returns _ _ _ _ _ _ _ _ Hrun) as Hs.
  rewrite !Qfloor_Z in Hs.
  destruct Hs as [-> | (b & -> & Hb)]; [| exists b; split; [reflexivity | lia]].
  revert Hrun. unfold InPlace.computeBestFontSize. run.
  rewrite Hcw. run. rewrite Hch, Hguard. run.
  match goal with
  | |- context [search ?p ?lo ?hi ?b0 ?w0] =>
      destruct (search p lo hi b0 w0) as [[b | e] w2] eqn:Hs; [| discriminate]
  end.
  intros [= Hb <-]. exists b. split; [by rewrite Hb |].
  apply search_range with (n := Z.to_nat (Qfloor (inject_Z n) + 1
                                 - Z.max 1 (Qfloor (inject_Z m)))) in Hs;
    [| reflexivity].
  rewrite !Qfloor_Z in Hs. lia.
Qed.

(** ** The sample sessions are the ones the code starts *)

Lemma inplace_start_started :
  started (InPlace.fitFontToContainer (line_host 200 50) (Some TargetEl)
             (Some ContainerEl) ∅ page) = Some inplace_start.
Proof. vm_compute. reflexivity. Qed.

Lemma clone_start_started :
  started (Clone.fitFontToContainer (line_host 200 50) (Some TargetEl)
             (Some ContainerEl) ∅ page) = Some clone_start.
Proof. vm_compute. reflexivity. Qed.

(** * The claims *)

(** C1 (bounds of the computed size), evaluated on the in-place
    implementation.  The in-place [computeBestFontSize] returns the size
    found by the search minus 10, so the size returned is not always between
    the minimum and the maximum: with the bounds 8 and 512, on a 40x12
    container the largest size that fits is 12 and 2 is returned; on a 20x20
    container no size fits and -2 is returned.  The clone implementation
    returns 12 on the first page. *)
Theorem inplace_result_below_minimum :
  fst (InPlace.computeBestFontSize (line_host 40 12) TargetEl ContainerEl
         8 512 inplace_start) = Ret 2%Q /\
  fst (InPlace.computeBestFontSize (line_host 20 20) TargetEl ContainerEl
         8 512 inplace_start) = Ret (-2)%Q /\
  fst (Clone.computeBestFontSize (line_host 40 12) TargetEl ContainerEl
         8 512 clone_start) = Ret 12%Q.
Proof. repeat split; vm_compute; reflexivity. Qed.

Lemma monotone_line_fits cw ch : monotone (line_fits cw ch).
Proof.
  intros x y Hlt. unfold line_fits.
  rewrite !andb_true_iff, !Z.leb_le. lia.
Qed.

Lemma monotone_line_fits_height ch : monotone (line_fits_height ch).
Proof. intros x y Hlt. unfold line_fits_height. rewrite !Z.leb_le. lia. Qed.

Lemma read_only_inplace_reads h t c :
  read_only (layout (scrollHeight h (Node t));; InPlace.elementFits h t c).
Proof.
  apply read_only_bind; [apply read_only_layout | intros _].
  apply read_only_elementFits.
Qed.

Lemma read_only_clone_reads h p ch :
  read_only (sh ← layout (scrollHeight h p); mret (sh <=? ch)).
Proof.
  apply read_only_bind; [apply read_only_layout | intros sh].
  apply read_only_ret.
Qed.

(** C2 (the search loop), as the code has it.  Take bounds with
    [floor(maxPx)] below [2^53].  In the in-place implementation, if the
    probes of the loop answer as an oracle [fits] that is non-increasing in
    the size, the loop of the source, with the rounding of its additions,
    started with [lo = max(1, floor(minPx))], [hi = floor(maxPx)] and
    [best = lo], is over after some number of probes, and its result is the
    largest size of the range [lo..hi] that fits, or [lo] when no size of
    the range fits; the loop on integers returns the same size.  The same
    holds of the clone implementation, under the same assumption on its own
    probes. *)
Theorem search_returns_largest_fit
    (h : Host) (t c : node) (p : elem) (ch : Z) (minPx maxPx : Q) (w : World) :
  Qfloor maxPx < 2 ^ 53 ->
  (forall fits : Z -> bool,
     monotone fits ->
     (forall mid, fst (InPlace.probe h t c mid w) = Ret (fits mid)) ->
     exists n best w1 w2,
       search_double n (InPlace.probe h t c) (Z.max 1 (Qfloor minPx))
         (Qfloor maxPx) (Z.max 1 (Qfloor minPx)) w = Some (Ret best, w1) /\
       search (InPlace.probe h t c) (Z.max 1 (Qfloor minPx)) (Qfloor maxPx)
         (Z.max 1 (Qfloor minPx)) w = (Ret best, w2) /\
       largest_fit fits (Z.max 1 (Qfloor minPx)) (Qfloor maxPx) best) /\
  (forall fits : Z -> bool,
     monotone fits ->
     (forall mid, fst (Clone.probe h p ch mid w) = Ret (fits mid)) ->
     exists n best w1 w2,
       search_double n (Clone.probe h p ch) (Z.max 1 (Qfloor minPx))
         (Qfloor maxPx) (Z.max 1 (Qfloor minPx)) w = Some (Ret best, w1) /\
       search (Clone.probe h p ch) (Z.max 1 (Qfloor minPx)) (Qfloor maxPx)
         (Z.max 1 (Qfloor minPx)) w = (Ret best, w2) /\
       largest_fit fits (Z.max 1 (Qfloor minPx)) (Qfloor maxPx) best).
Proof.
  intros Hhi. split; intros fits Hmono Hfits.
  - pose proof (probe_stable (Node t) _ (read_only_inplace_reads h t c) fits w Hfits)
      as Hstable.
    destruct (search_double_largest_fit (InPlace.probe h t c) fits
                (fun w' => w' = w \/ exists m, w' = at_size (Node t) m w)
                Hstable Hmono (Z.max 1 (Qfloor minPx)) (Qfloor maxPx)
                ltac:(lia) Hhi w ltac:(by left))
      as (b & w1 & Hrun & _ & Hbest).
    destruct (search_largest_fit (InPlace.probe h t c) fits
                (fun w' => w' = w \/ exists m, w' = at_size (Node t) m w)
                Hstable Hmono (Z.max 1 (Qfloor minPx)) (Qfloor maxPx)
                w ltac:(by left))
      as (b' & w2 & Hrun' & _ & Hbest').
    rewrite <- (largest_fit_unique _ _ _ _ _ Hbest Hbest') in Hrun'.
    by exists (Z.to_nat (Qfloor maxPx + 1 - Z.max 1 (Qfloor minPx))), b, w1, w2.
  - pose proof (probe_stable p _ (read_only_clone_reads h p ch) fits w Hfits)
      as Hstable.
    destruct (search_double_largest_fit (Clone.probe h p ch) fits
                (fun w' => w' = w \/ exists m, w' = at_size p m w)
                Hstable Hmono (Z.max 1 (Qfloor minPx)) (Qfloor maxPx)
                ltac:(lia) Hhi w ltac:(by left))
      as (b & w1 & Hrun & _ & Hbest).
    destruct (search_largest_fit (Clone.probe h p ch) fits
                (fun w' => w' = w \/ exists m, w' = at_size p m w)
                Hstable Hmono (Z.max 1 (Qfloor minPx)) (Qfloor maxPx)
                w ltac:(by left))
      as (b' & w2 & Hrun' & _ & Hbest').
    rewrite <- (largest_fit_unique _ _ _ _ _ Hbest Hbest') in Hrun'.
    by exists (Z.to_nat (Qfloor maxPx + 1 - Z.max 1 (Qfloor minPx))), b, w1, w2.
Qed.

Lemma font_px_at_size t mid w :
  font_px (get_elem (Node t) (dom (at_size (Node t) mid w))) = Z.max 1 mid.
Proof.
  destruct t; unfold font_px, at_size, with_dom, with_style; simpl;
    by rewrite lookup_insert_eq.
Qed.

(** On [line_host] the in-place probe answers [line_fits]. *)
Lemma line_host_inplace_probe cw ch t c mid w :
  fst (InPlace.probe (line_host cw ch) t c mid w) = Ret (line_fits cw ch mid).
Proof.
  unfold InPlace.probe.
  rewrite (probe_run _ _ (read_only_inplace_reads _ _ _)).
  unfold InPlace.elementFits. run.
  unfold line_host at 1, scrollHeight. run.
  unfold line_host at 1, scrollWidth. run.
  unfold line_host at 1, clientWidth.
  rewrite font_px_at_size. unfold line_fits.
  destruct (3 * Z.max 1 mid <=? cw); [| reflexivity]. run.
  unfold line_host at 1, scrollHeight. run.
  unfold line_host at 1, clientHeight.
  by rewrite font_px_at_size.
Qed.

Lemma clone_probe_on_line (ch mid : Z) :
  fst (Clone.probe (line_host 200 ch) (Probe 0 0) ch mid
         (clone_probing (line_host 200 ch))) = Ret (line_fits_height ch mid).
Proof.
  unfold Clone.probe.
  rewrite (probe_run _ _ (read_only_clone_reads _ _ _)). run.
  unfold line_fits_height, line_host, scrollHeight.
  replace (font_px _) with (Z.max 1 mid) by (vm_compute; reflexivity).
  reflexivity.
Qed.

Lemma search_returns_largest_fit_witness :
  Qfloor 100 < 2 ^ 53 /\
  monotone (line_fits 200 50) /\
  monotone (line_fits_height 50) /\
  (forall mid,
     fst (InPlace.probe (line_host 200 50) TargetEl ContainerEl mid
            (clone_probing (line_host 200 50))) = Ret (line_fits 200 50 mid)) /\
  (forall mid,
     fst (Clone.probe (line_host 200 50) (Probe 0 0) 50 mid
            (clone_probing (line_host 200 50))) = Ret (line_fits_height 50 mid)) /\
  (exists n best w1 w2,
     search_double n (InPlace.probe (line_host 200 50) TargetEl ContainerEl)
       (Z.max 1 (Qfloor 8)) (Qfloor 100) (Z.max 1 (Qfloor 8))
       (clone_probing (line_host 200 50)) = Some (Ret best, w1) /\
     search (InPlace.probe (line_host 200 50) TargetEl ContainerEl)
       (Z.max 1 (Qfloor 8)) (Qfloor 100) (Z.max 1 (Qfloor 8))
       (clone_probing (line_host 200 50)) = (Ret best, w2) /\
     largest_fit (line_fits 200 50) (Z.max 1 (Qfloor 8)) (Qfloor 100) best) /\
  (exists n best w1 w2,
     search_double n (Clone.probe (line_host 200 50) (Probe 0 0) 50)
       (Z.max 1 (Qfloor 8)) (Qfloor 100) (Z.max 1 (Qfloor 8))
       (clone_probing (line_host 200 50)) = Some (Ret best, w1) /\
     search (Clone.probe (line_host 200 50) (Probe 0 0) 50)
       (Z.max 1 (Qfloor 8)) (Qfloor 100) (Z.max 1 (Qfloor 8))
       (clone_probing (line_host 200 50)) = (Ret best, w2) /\
     largest_fit (line_fits_height 50) (Z.max 1 (Qfloor 8)) (Qfloor 100) best).
Proof.
  assert (H0 : Qfloor 100 < 2 ^ 53) by reflexivity.
  assert (H1 : forall mid,
     fst (InPlace.probe (line_host 200 50) TargetEl ContainerEl mid
            (clone_probing (line_host 200 50))) = Ret (line_fits 200 50 mid)).
  { intros mid. apply line_host_inplace_probe. }
  assert (H2 : forall mid,
     fst (Clone.probe (line_host 200 50) (Probe 0 0) 50 mid
            (clone_probing (line_host 200 50))) = Ret (line_fits_height 50 mid)).
  { intros mid. apply clone_probe_on_line. }
  split; [exact H0 |].
  split; [apply monotone_line_fits |].
  split; [apply monotone_line_fits_height |].
  split; [exact H1 |]. split; [exact H2 |].
  destruct (search_returns_largest_fit (line_host 200 50) TargetEl ContainerEl
              (Probe 0 0) 50 8 100 (clone_probing (line_host 200 50)) H0)
    as [Hin Hcl].
  split.
  - exact (Hin (line_fits 200 50) (monotone_line_fits 200 50) H1).
  - exact (Hcl (line_fits_height 50) (monotone_line_fits_height 50) H2).
Defined.

(** C2, at [2^53].  With [minPx = maxPx = 2^53], on a page whose container
    is [2^53] pixels high, the probes of the clone implementation answer
    as an oracle that is non-increasing in the size and accepts [2^53]; the
    loop starts with [lo = hi = 2^53] and is not over after any number of
    probes: [mid] is [2^53], it fits, and [mid + 1] rounds back to [2^53].
    The loop does not terminate. *)
Lemma search_loop_never_ends_at_2_53 :
  monotone (line_fits_height (2 ^ 53)) /\
  (forall mid,
     fst (Clone.probe (line_host 200 (2 ^ 53)) (Probe 0 0) (2 ^ 53) mid
            (clone_probing (line_host 200 (2 ^ 53))))
     = Ret (line_fits_height (2 ^ 53) mid)) /\
  Z.max 1 (Qfloor (inject_Z (2 ^ 53))) = 2 ^ 53 /\
  Qfloor (inject_Z (2 ^ 53)) = 2 ^ 53 /\
  forall n,
    search_double n (Clone.probe (line_host 200 (2 ^ 53)) (Probe 0 0) (2 ^ 53))
      (Z.max 1 (Qfloor (inject_Z (2 ^ 53)))) (Qfloor (inject_Z (2 ^ 53)))
      (Z.max 1 (Qfloor (inject_Z (2 ^ 53))))
      (clone_probing (line_host 200 (2 ^ 53))) = None.
Proof.
  split; [apply monotone_line_fits_height |].
  split; [intros mid; apply clone_probe_on_line |].
  split; [reflexivity |]. split; [reflexivity |].
  intros n. rewrite Qfloor_Z. change (Z.max 1 (2 ^ 53)) with (2 ^ 53).
  apply (search_double_stuck _
           (fun w' => w' = clone_probing (line_host 200 (2 ^ 53)) \/
                      exists m, w' = at_size (Probe 0 0) m
                                       (clone_probing (line_host 200 (2 ^ 53)))));
    [| by left].
  intros w' Hw'.
  destruct (probe_stable (Probe 0 0) _
              (read_only_clone_reads (line_host 200 (2 ^ 53)) (Probe 0 0) (2 ^ 53))
              (line_fits_height (2 ^ 53)) _
              (fun mid => clone_probe_on_line (2 ^ 53) mid) (2 ^ 53) w' Hw')
    as (w'' & Hrun & Hw'').
  exists w''. split; [exact Hrun | exact Hw''].
Qed.


(** C3 (zero-area guard).  In both implementations, when the container's
    client width or client height is at most 0, [computeBestFontSize]
    returns exactly the [minPx] it was given and leaves the document as it
    was: no size is written, no measurement box or clone is created.  No
    probe takes place: the result is the same whatever the engine would
    answer to a read of a scroll size, even if such a read would throw. *)
Theorem zero_area_returns_min_unprobed
    (h : Host) (t c : node) (minPx maxPx : Q) (w : World) (cw ch : Z) :
  clientWidth h (Node c) (dom w) = Ret cw ->
  clientHeight h (Node c) (dom w) = Ret ch ->
  cw <= 0 \/ ch <= 0 ->
  InPlace.computeBestFontSize h t c minPx maxPx w = (Ret minPx, w) /\
  Clone.computeBestFontSize h t c minPx maxPx w = (Ret minPx, w).
Proof.
  intros Hcw Hch Hzero.
  assert (Hguard : (cw <=? 0) || (ch <=? 0) = true).
  { apply orb_true_iff. rewrite !Z.leb_le. exact Hzero. }
  split.
  - unfold InPlace.computeBestFontSize. run. rewrite Hcw. run. rewrite Hch.
    rewrite Hguard. reflexivity.
  - unfold Clone.computeBestFontSize. run. rewrite Hcw. run. rewrite Hch.
    rewrite Hguard. reflexivity.
Qed.

Lemma zero_area_returns_min_unprobed_witness :
  clientWidth (blind_host 200 0) (Node ContainerEl) (dom clone_start) = Ret 200 /\
  clientHeight (blind_host 200 0) (Node ContainerEl) (dom clone_start) = Ret 0 /\
  (200 <= 0 \/ 0 <= 0) /\
  InPlace.computeBestFontSize (blind_host 200 0) TargetEl ContainerEl 8 512
    clone_start = (Ret 8%Q, clone_start) /\
  Clone.computeBestFontSize (blind_host 200 0) TargetEl ContainerEl 8 512
    clone_start = (Ret 8%Q, clone_start).
Proof.
  split; [reflexivity |]. split; [reflexivity |]. split; [right; lia |].
  apply (zero_area_returns_min_unprobed (blind_host 200 0) TargetEl ContainerEl
           8 512 clone_start 200 0); [reflexivity | reflexivity | right; lia].
Defined.

(** ** One refit cycle *)

(** The world after the size [best] was applied to node [n] and recorded. *)
Lemma cycle_run compute w :
  Controller.cycle compute w =
  match measurement compute w with
  | (Ret best, w1) =>
      (Ret tt,
       with_sess (set_busy false)
         (with_dom (alter_elem (with_data "fittedFontPx" best)
                      (Node (targetEl (sess w))))
            (with_dom (alter_elem
                         (with_style "fontSize" (Px (Z.max 1 (Qfloor best))))
                         (Node (targetEl (sess w)))) w1)))
  | (Throw e, w1) => (Throw e, with_sess (set_busy false) w1)
  end.
Proof.
  unfold Controller.cycle, Controller.apply_best, try_finally, measurement. run.
  simpl sess at 1 2 3 4.
  destruct (compute _ _ _ _ _) as [[best | e] w1]; reflexivity.
Qed.

Lemma refit_idle_run compute w :
  busy (sess w) = false -> Controller.refit compute w = Controller.cycle compute w.
Proof. intros Hidle. unfold Controller.refit. by rewrite Hidle. Qed.

Lemma applied_after_cycle n f v k q w :
  applied_size n
    (with_sess f (with_dom (alter_elem (with_data k q) (Node n))
                    (with_dom (alter_elem (with_style "fontSize" v) (Node n)) w)))
  = Some v.
Proof. destruct n; unfold applied_size; simpl; by rewrite lookup_insert_eq. Qed.

Lemma marker_after_cycle n f v q w :
  marker n
    (with_sess f (with_dom (alter_elem (with_data "fittedFontPx" q) (Node n))
                    (with_dom (alter_elem (with_style "fontSize" v) (Node n)) w)))
  = Some q.
Proof. destruct n; unfold marker; simpl; by rewrite lookup_insert_eq. Qed.

(** In the clone implementation, with an integer [minPx] of at least 1, the
    marker recorded by a refit that returns is the size it applied. *)
Lemma clone_marker_matches h w w' (m : Z) :
  busy (sess w) = false ->
  to_number (opts (sess w) !!! "minPx") = inject_Z m ->
  1 <= m ->
  Clone.refit h w = (Ret tt, w') ->
  exists b, applied_size (targetEl (sess w)) w' = Some (Px b) /\
            marker (targetEl (sess w)) w' = Some (inject_Z b).
Proof.
  intros Hidle Hmin Hm. unfold Clone.refit.
  rewrite refit_idle_run, cycle_run by assumption.
  unfold measurement.
  destruct (Clone.computeBestFontSize _ _ _ _ _ _) as [[best | e] w1] eqn:Hrun;
    [| discriminate].
  intros [= <-]. rewrite applied_after_cycle, marker_after_cycle.
  apply clone_compute_returns in Hrun. rewrite Hmin, Qfloor_Z in Hrun.
  destruct Hrun as [-> | (b & -> & Hb)]; rewrite Qfloor_Z.
  - exists m. by rewrite Z.max_r by lia.
  - exists b. by rewrite Z.max_r by lia.
Qed.

(** C4 (marker equals applied size), evaluated on the in-place
    implementation.  After a refit on a 20x20 container with the default
    options, the font size applied to the target is 1px (the value is clamped
    by [setFontSizePx]) and the marker records -2 (the value returned by
    [computeBestFontSize], 8 - 10): the two differ.  The clone
    implementation applies 20px and records 20 on the same page. *)
Theorem inplace_marker_differs_from_applied_size :
  fst (InPlace.refit (line_host 20 20) inplace_start) = Ret tt /\
  applied_size TargetEl (snd (InPlace.refit (line_host 20 20) inplace_start))
    = Some (Px 1) /\
  marker TargetEl (snd (InPlace.refit (line_host 20 20) inplace_start))
    = Some (-2)%Q /\
  applied_size TargetEl (snd (Clone.refit (line_host 20 20) clone_start))
    = Some (Px 20) /\
  marker TargetEl (snd (Clone.refit (line_host 20 20) clone_start))
    = Some 20%Q.
Proof. repeat split; vm_compute; reflexivity. Qed.

(** ** Options *)

Lemma object_assign_lookup (tgt src : gmap string value) (k : string) :
  object_assign tgt src !! k =
  match src !! k with
  | Some v => Some v
  | None => tgt !! k
  end.
Proof.
  unfold object_assign. rewrite lookup_union.
  destruct (src !! k), (tgt !! k); reflexivity.
Qed.

(** Every property that the code reads is present in the merged options. *)
Lemma merged_keys_present (options : gmap string value) (k : string) :
  k ∈ option_keys ->
  is_Some (object_assign InPlace.defaults options !! k) /\
  is_Some (object_assign Clone.defaults options !! k).
Proof.
  intros Hk. rewrite !object_assign_lookup.
  destruct (options !! k); [split; eauto |].
  unfold option_keys in Hk.
  repeat (apply elem_of_cons in Hk as [-> | Hk]; [split; vm_compute; eauto |]).
  by apply elem_of_nil in Hk.
Qed.

(** C5 (options merged over the defaults), as the code has it.  The session
    holds [Object.assign(defaults, options)]: a property supplied by the
    caller overrides the default of the same name and a property left out
    takes its default.  The defaults, under the names that the code reads,
    are minPx 8, maxPx 512, observeMutations and observeResize true,
    debounceMs 100 and, in the clone implementation only, refitOnFontLoad
    true. *)
Theorem options_merged_over_defaults
    (h : Host) (t c : node) (options : gmap string value) (d : Dom) (k : string) :
  session_opts (InPlace.fitFontToContainer h (Some t) (Some c) options d)
    = Some (object_assign InPlace.defaults options) /\
  session_opts (Clone.fitFontToContainer h (Some t) (Some c) options d)
    = Some (object_assign Clone.defaults options) /\
  object_assign InPlace.defaults options !! k =
    match options !! k with
    | Some v => Some v
    | None => InPlace.defaults !! k
    end /\
  object_assign Clone.defaults options !! k =
    match options !! k with
    | Some v => Some v
    | None => Clone.defaults !! k
    end /\
  InPlace.defaults =
    list_to_map
      [("minPx", VNum 8); ("maxPx", VNum 512); ("observeMutations", VBool true);
       ("observeResize", VBool true); ("debounceMs", VNum 100)] /\
  Clone.defaults = <["refitOnFontLoad" := VBool true]> InPlace.defaults /\
  InPlace.defaults !! "refitOnFontLoad" = None.
Proof.
  split; [reflexivity |]. split; [reflexivity |].
  split; [apply object_assign_lookup |]. split; [apply object_assign_lookup |].
  split; [reflexivity |]. split; [| reflexivity].
  vm_compute. reflexivity.
Qed.

(** C5, the names of the options.  minSize, maxSize, observeContainerResize
    and observeContentMutation are not names of defaults, and a value
    supplied under them overrides nothing.  The sessions created with
    [{ minSize: 20, maxSize: 30, observeContainerResize: false,
       observeContentMutation: false }] hold minPx 8 and maxPx 512 and
    observe the container and the target.  On a 200x50 page a refit of the
    clone session applies 50px, above the 30 supplied as maxSize; on a
    container without width it applies 8px, below the 20 supplied as
    minSize. *)
Lemma misnamed_options_override_nothing :
  InPlace.defaults !! "minSize" = None /\
  InPlace.defaults !! "maxSize" = None /\
  InPlace.defaults !! "observeContainerResize" = None /\
  InPlace.defaults !! "observeContentMutation" = None /\
  Clone.defaults !! "minSize" = None /\
  Clone.defaults !! "maxSize" = None /\
  Clone.defaults !! "observeContainerResize" = None /\
  Clone.defaults !! "observeContentMutation" = None /\
  (fun w => (opts (sess w) !! "minPx", opts (sess w) !! "maxPx",
             ro (sess w), mo (sess w), winResize (sess w)))
    <$> started (InPlace.fitFontToContainer (line_host 200 50) (Some TargetEl)
                   (Some ContainerEl) misnamed_options page)
    = Some (Some (VNum 8), Some (VNum 512), Some true, Some true, false) /\
  (fun w => (opts (sess w) !! "minPx", opts (sess w) !! "maxPx",
             ro (sess w), mo (sess w), winResize (sess w)))
    <$> started (Clone.fitFontToContainer (line_host 200 50) (Some TargetEl)
                   (Some ContainerEl) misnamed_options page)
    = Some (Some (VNum 8), Some (VNum 512), Some true, Some true, false) /\
  (fun w => (applied_size TargetEl (snd (Clone.refit (line_host 200 50) w)),
             marker TargetEl (snd (Clone.refit (line_host 200 50) w))))
    <$> started (Clone.fitFontToContainer (line_host 200 50) (Some TargetEl)
                   (Some ContainerEl) misnamed_options page)
    = Some (Some (Px 50), Some 50%Q) /\
  (fun w => (applied_size TargetEl (snd (Clone.refit (line_host 0 50) w)),
             marker TargetEl (snd (Clone.refit (line_host 0 50) w))))
    <$> started (Clone.fitFontToContainer (line_host 0 50) (Some TargetEl)
                   (Some ContainerEl) misnamed_options page)
    = Some (Some (Px 8), Some 8%Q).
Proof. repeat split; vm_compute; reflexivity. Qed.

(** C6 (missing target or container).  In both implementations
    [fitFontToContainer] throws exactly when the target or the container is
    absent; it then returns no session, hence no observer and no listener,
    and the document is as it was. *)
Theorem missing_element_throws
    (h : Host) (t c : option node) (options : gmap string value) (d : Dom) :
  (throws (fst (InPlace.fitFontToContainer h t c options d)) = true
     <-> t = None \/ c = None) /\
  (started (InPlace.fitFontToContainer h t c options d) = None
     <-> t = None \/ c = None) /\
  snd (InPlace.fitFontToContainer h t c options d) = d /\
  (throws (fst (Clone.fitFontToContainer h t c options d)) = true
     <-> t = None \/ c = None) /\
  (started (Clone.fitFontToContainer h t c options d) = None
     <-> t = None \/ c = None) /\
  snd (Clone.fitFontToContainer h t c options d) = d.
Proof.
  destruct t as [t |], c as [c |]; simpl;
    repeat split; intros; try discriminate; try tauto;
    match goal with
    | H : _ \/ _ |- _ => destruct H; discriminate
    | |- _ => idtac
    end.
Qed.

(** ** Exceptions and the busy flag *)

Lemma refit_throw compute w e w1 :
  busy (sess w) = false ->
  measurement compute w = (Throw e, w1) ->
  Controller.refit compute w = (Throw e, with_sess (set_busy false) w1).
Proof.
  intros Hidle Hthrow. by rewrite refit_idle_run, cycle_run, Hthrow.
Qed.

(** Whatever the measurement does, the session is idle when a cycle ends. *)
Lemma cycle_ends_idle compute w :
  busy (sess (snd (Controller.cycle compute w))) = false.
Proof.
  rewrite cycle_run. destruct (measurement compute w) as [[best | e] w1]; reflexivity.
Qed.

(** C7 (an exception in the measurement phase).  In the in-place
    implementation, if [computeBestFontSize] throws during a refit, [refit]
    throws the same exception to its caller, the busy flag is false
    afterwards, and the next call of [refit] is not dropped: it runs a
    cycle.  The same holds of the clone implementation, whenever its own
    [computeBestFontSize] throws. *)
Theorem refit_rethrows_and_clears_busy (h : Host) (w : World) :
  busy (sess w) = false ->
  (forall e w1,
     measurement (InPlace.computeBestFontSize h) w = (Throw e, w1) ->
     InPlace.refit h w = (Throw e, with_sess (set_busy false) w1) /\
     busy (sess (snd (InPlace.refit h w))) = false /\
     InPlace.refit h (snd (InPlace.refit h w)) =
       Controller.cycle (InPlace.computeBestFontSize h) (snd (InPlace.refit h w))) /\
  (forall e w1,
     measurement (Clone.computeBestFontSize h) w = (Throw e, w1) ->
     Clone.refit h w = (Throw e, with_sess (set_busy false) w1) /\
     busy (sess (snd (Clone.refit h w))) = false /\
     Clone.refit h (snd (Clone.refit h w)) =
       Controller.cycle (Clone.computeBestFontSize h) (snd (Clone.refit h w))).
Proof.
  intros Hidle. split; intros e w1 Hthrow.
  - unfold InPlace.refit. rewrite (refit_throw _ w e w1 Hidle Hthrow).
    repeat split; by apply refit_idle_run.
  - unfold Clone.refit. rewrite (refit_throw _ w e w1 Hidle Hthrow).
    repeat split; by apply refit_idle_run.
Qed.

Lemma refit_rethrows_and_clears_busy_witness :
  busy (sess inplace_start) = false /\
  measurement (InPlace.computeBestFontSize (failing_host 200 50)) inplace_start
    = (Throw "layout failed", inplace_torn) /\
  measurement (Clone.computeBestFontSize (failing_host 200 50)) inplace_start
    = (Throw "layout failed", clone_torn) /\
  (InPlace.refit (failing_host 200 50) inplace_start
     = (Throw "layout failed", with_sess (set_busy false) inplace_torn) /\
   busy (sess (snd (InPlace.refit (failing_host 200 50) inplace_start))) = false /\
   InPlace.refit (failing_host 200 50)
       (snd (InPlace.refit (failing_host 200 50) inplace_start)) =
     Controller.cycle (InPlace.computeBestFontSize (failing_host 200 50))
       (snd (InPlace.refit (failing_host 200 50) inplace_start))) /\
  (Clone.refit (failing_host 200 50) inplace_start
     = (Throw "layout failed", with_sess (set_busy false) clone_torn) /\
   busy (sess (snd (Clone.refit (failing_host 200 50) inplace_start))) = false /\
   Clone.refit (failing_host 200 50)
       (snd (Clone.refit (failing_host 200 50) inplace_start)) =
     Controller.cycle (Clone.computeBestFontSize (failing_host 200 50))
       (snd (Clone.refit (failing_host 200 50) inplace_start))).
Proof.
  assert (H1 : measurement (InPlace.computeBestFontSize (failing_host 200 50))
                 inplace_start = (Throw "layout failed", inplace_torn))
    by (vm_compute; reflexivity).
  assert (H2 : measurement (Clone.computeBestFontSize (failing_host 200 50))
                 inplace_start = (Throw "layout failed", clone_torn))
    by (vm_compute; reflexivity).
  split; [reflexivity |]. split; [exact H1 |]. split; [exact H2 |].
  destruct (refit_rethrows_and_clears_busy (failing_host 200 50) inplace_start
              eq_refl) as [Hin Hcl].
  split.
  - exact (Hin "layout failed" inplace_torn H1).
  - exact (Hcl "layout failed" clone_torn H2).
Defined.

(** ** Reentrancy *)

Lemma refit_busy_run compute w :
  busy (sess w) = true -> Controller.refit compute w = (Ret tt, w).
Proof. intros Hbusy. unfold Controller.refit. by rewrite Hbusy. Qed.

(** A call of [refit] made while the size is being computed changes nothing
    to what the cycle does. *)
Lemma refit_reentrant compute w :
  Controller.refit (reentrant compute) w = Controller.refit compute w.
Proof.
  unfold Controller.refit. destruct (busy (sess w)); [reflexivity |].
  rewrite !cycle_run. unfold measurement, reentrant. run.
  by rewrite refit_busy_run.
Qed.

(** Between two events the session is idle: whatever is delivered, and
    whether or not a refit throws, no cycle is left in progress. *)
Lemma deliver_keeps_idle compute ev w :
  busy (sess w) = false ->
  busy (sess (snd (Controller.deliver compute ev w))) = false.
Proof.
  intros Hidle. unfold Controller.deliver. run.
  destruct ev.
  - destruct (decide (ro (sess w) = Some true)); exact Hidle.
  - destruct (winResize (sess w)); exact Hidle.
  - destruct (decide (mo (sess w) = Some true)); exact Hidle.
  - destruct (fontsThen (sess w)); exact Hidle.
  - destruct (timer (sess w)); [| exact Hidle]. run.
    rewrite refit_idle_run by exact Hidle. apply cycle_ends_idle.
  - destruct (frame (sess w)); [| exact Hidle]. run.
    rewrite refit_idle_run by exact Hidle. apply cycle_ends_idle.
Qed.

Lemma deliver_all_keeps_idle compute evs :
  forall w, busy (sess w) = false ->
            busy (sess (Controller.deliver_all compute evs w)) = false.
Proof.
  induction evs as [| ev evs IH]; intros w Hidle; simpl; [exact Hidle |].
  apply IH. by apply deliver_keeps_idle.
Qed.

(** C8 (reentrancy guard).  In both implementations a call of [refit] made
    while the busy flag is set returns at once and changes nothing: no
    search, no new font size, no new marker.  Hence a call of [refit] made
    from inside a running cycle does not start a second cycle, the running
    cycle does exactly what it does without that call; and no cycle is in
    progress between two events, whatever events were delivered to an idle
    session. *)
Theorem refit_while_busy_is_dropped (h : Host) (w : World) :
  busy (sess w) = true ->
  InPlace.refit h w = (Ret tt, w) /\
  Clone.refit h w = (Ret tt, w) /\
  (forall w0, Controller.refit (reentrant (InPlace.computeBestFontSize h)) w0
              = InPlace.refit h w0) /\
  (forall w0, Controller.refit (reentrant (Clone.computeBestFontSize h)) w0
              = Clone.refit h w0) /\
  (forall evs w0,
     busy (sess w0) = false ->
     busy (sess (Controller.deliver_all (InPlace.computeBestFontSize h) evs w0))
       = false /\
     busy (sess (Controller.deliver_all (Clone.computeBestFontSize h) evs w0))
       = false).
Proof.
  intros Hbusy. unfold InPlace.refit, Clone.refit.
  rewrite !refit_busy_run by assumption.
  repeat split; intros; try apply refit_reentrant;
    by apply deliver_all_keeps_idle.
Qed.

Lemma refit_while_busy_is_dropped_witness :
  busy (sess inplace_refitting) = true /\
  InPlace.refit (line_host 200 50) inplace_refitting = (Ret tt, inplace_refitting) /\
  Clone.refit (line_host 200 50) inplace_refitting = (Ret tt, inplace_refitting) /\
  (forall w0,
     Controller.refit (reentrant (InPlace.computeBestFontSize (line_host 200 50))) w0
     = InPlace.refit (line_host 200 50) w0) /\
  (forall w0,
     Controller.refit (reentrant (Clone.computeBestFontSize (line_host 200 50))) w0
     = Clone.refit (line_host 200 50) w0) /\
  (forall evs w0,
     busy (sess w0) = false ->
     busy (sess (Controller.deliver_all
                   (InPlace.computeBestFontSize (line_host 200 50)) evs w0))
       = false /\
     busy (sess (Controller.deliver_all
                   (Clone.computeBestFontSize (line_host 200 50)) evs w0))
       = false).
Proof.
  split; [reflexivity |].
  exact (refit_while_busy_is_dropped (line_host 200 50) inplace_refitting eq_refl).
Defined.

(** ** Disconnecting *)

Lemma unsubscribe_idempotent s : unsubscribe (unsubscribe s) = unsubscribe s.
Proof. unfold unsubscribe; simpl. by destruct (ro s), (mo s). Qed.

Lemma disconnect_run w :
  Controller.disconnect w = (Ret tt, with_sess unsubscribe w).
Proof. reflexivity. Qed.

(** A session that observes nothing ignores what is observed. *)
Lemma deliver_observed_inert compute ev w :
  ro (sess w) <> Some true -> mo (sess w) <> Some true ->
  winResize (sess w) = false -> observed ev = true ->
  Controller.deliver compute ev w = (Ret tt, w).
Proof.
  intros Hro Hmo Hwin Hev. unfold Controller.deliver. run.
  destruct ev; try discriminate; simpl.
  - by rewrite decide_False.
  - by rewrite Hwin.
  - by rewrite decide_False.
Qed.

Lemma deliver_all_observed_inert compute evs w :
  ro (sess w) <> Some true -> mo (sess w) <> Some true ->
  winResize (sess w) = false ->
  Controller.deliver_all compute (List.filter observed evs) w = w.
Proof.
  intros Hro Hmo Hwin. induction evs as [| ev evs IH]; simpl; [reflexivity |].
  destruct (observed ev) eqn:Hev; [| exact IH]. simpl.
  by rewrite deliver_observed_inert.
Qed.

Lemma unsubscribed_ro s : ro (unsubscribe s) <> Some true.
Proof. simpl. by destruct (ro s). Qed.

Lemma unsubscribed_mo s : mo (unsubscribe s) <> Some true.
Proof. simpl. by destruct (mo s). Qed.

(** C9 (disconnect), as the code has it.  [disconnect] returns, is
    idempotent, and leaves no observer observing and no window listener
    registered; after it, resize reports for the container, window resizes
    and content mutations no longer reach the session, so they change
    neither the session nor the document, in particular not the target's
    font size.  It changes nothing else: a debounce timeout or an animation
    frame that is pending stays pending, and so does the wait on the fonts. *)
Theorem disconnect_unsubscribes (h : Host) (w : World) (evs : list event) :
  InPlace.disconnect w = (Ret tt, with_sess unsubscribe w) /\
  Clone.disconnect w = (Ret tt, with_sess unsubscribe w) /\
  InPlace.disconnect (with_sess unsubscribe w) = (Ret tt, with_sess unsubscribe w) /\
  ro (sess (with_sess unsubscribe w)) <> Some true /\
  mo (sess (with_sess unsubscribe w)) <> Some true /\
  winResize (sess (with_sess unsubscribe w)) = false /\
  Controller.deliver_all (InPlace.computeBestFontSize h)
    (List.filter observed evs) (with_sess unsubscribe w) = with_sess unsubscribe w /\
  Controller.deliver_all (Clone.computeBestFontSize h)
    (List.filter observed evs) (with_sess unsubscribe w) = with_sess unsubscribe w /\
  dom (with_sess unsubscribe w) = dom w /\
  timer (sess (with_sess unsubscribe w)) = timer (sess w) /\
  frame (sess (with_sess unsubscribe w)) = frame (sess w) /\
  fontsThen (sess (with_sess unsubscribe w)) = fontsThen (sess w).
Proof.
  split; [reflexivity |]. split; [reflexivity |].
  split.
  { unfold InPlace.disconnect. rewrite disconnect_run.
    unfold with_sess; simpl. by rewrite unsubscribe_idempotent. }
  split; [apply unsubscribed_ro |]. split; [apply unsubscribed_mo |].
  split; [reflexivity |].
  split; [apply deliver_all_observed_inert;
          [apply unsubscribed_ro | apply unsubscribed_mo | reflexivity] |].
  split; [apply deliver_all_observed_inert;
          [apply unsubscribed_ro | apply unsubscribed_mo | reflexivity] |].
  repeat split.
Qed.

(** C9 as stated fails: [disconnect] does not cancel a debounced invocation
    that is pending.  On a 200x50 container, once the observer has reported
    a resize the timeout is armed; [disconnect()] is called, the target
    still has no font size; the timeout fires, and the target gets 50px and
    the marker 50.  The fonts becoming ready after [disconnect()] lead to
    the same. *)
Lemma disconnect_then_timer_mutates_target :
  timer (sess resized) = true /\
  timer (sess resized_disconnected) = true /\
  applied_size TargetEl resized_disconnected = None /\
  applied_size TargetEl
    (snd (Clone.deliver (line_host 200 50) TimerFire resized_disconnected))
    = Some (Px 50) /\
  marker TargetEl
    (snd (Clone.deliver (line_host 200 50) TimerFire resized_disconnected))
    = Some 50%Q /\
  applied_size TargetEl
    (Controller.deliver_all (Clone.computeBestFontSize (line_host 200 50))
       [FontsReady; TimerFire] (snd (Clone.disconnect clone_start)))
    = Some (Px 50).
Proof. repeat split; vm_compute; reflexivity. Qed.

(** ** What is pending at disconnect *)

Lemma deliver_timer_run compute w :
  timer (sess w) = true ->
  Controller.deliver compute TimerFire w =
  Controller.refit compute (with_sess (set_timer false) w).
Proof. intros Htimer. unfold Controller.deliver. run. by rewrite Htimer. Qed.

Lemma deliver_frame_run compute w :
  Controller.deliver compute AnimationFrame w =
  if frame (sess w) then Controller.refit compute (with_sess (set_frame false) w)
  else (Ret tt, w).
Proof. unfold Controller.deliver. run. by destruct (frame (sess w)). Qed.

(** A timeout that fires on an idle session whose measurement returns
    [best] applies [best] to the target and records it. *)
Lemma timer_refits compute w best w1 :
  busy (sess w) = false -> timer (sess w) = true ->
  measurement compute (with_sess (set_timer false) w) = (Ret best, w1) ->
  fst (Controller.deliver compute TimerFire w) = Ret tt /\
  applied_size (targetEl (sess w)) (snd (Controller.deliver compute TimerFire w))
    = Some (Px (Z.max 1 (Qfloor best))) /\
  marker (targetEl (sess w)) (snd (Controller.deliver compute TimerFire w))
    = Some best.
Proof.
  intros Hidle Htimer Hrun.
  rewrite deliver_timer_run, refit_idle_run, cycle_run, Hrun by assumption.
  simpl fst; simpl snd. simpl sess at 1 2 3.
  by rewrite applied_after_cycle, marker_after_cycle.
Qed.

(** C10 (a pending timeout survives disconnect).  In both implementations,
    if the debounce timeout is pending when [disconnect()] is called, it is
    still pending afterwards, and so is the animation frame requested at
    construction if it was; when the timeout then fires, [refit] is called.
    In each implementation, on a session whose [minPx] is a number and
    whose bounds are below [2^52], if the [computeBestFontSize] of that
    implementation returns in this refit, the refit returns, applies the
    size returned to the target and records it in the marker.  An animation frame that fires
    after [disconnect()] calls [refit] as well. *)
Theorem pending_timer_survives_disconnect (h : Host) (w : World) :
  busy (sess w) = false ->
  timer (sess w) = true ->
  timer (sess (snd (InPlace.disconnect w))) = true /\
  timer (sess (snd (Clone.disconnect w))) = true /\
  frame (sess (snd (InPlace.disconnect w))) = frame (sess w) /\
  frame (sess (snd (Clone.disconnect w))) = frame (sess w) /\
  InPlace.deliver h TimerFire (snd (InPlace.disconnect w)) =
    InPlace.refit h (with_sess (set_timer false) (snd (InPlace.disconnect w))) /\
  Clone.deliver h TimerFire (snd (Clone.disconnect w)) =
    Clone.refit h (with_sess (set_timer false) (snd (Clone.disconnect w))) /\
  (forall best w1,
     exact_options (sess w) ->
     measurement (InPlace.computeBestFontSize h)
       (with_sess (set_timer false) (snd (InPlace.disconnect w))) = (Ret best, w1) ->
     fst (InPlace.deliver h TimerFire (snd (InPlace.disconnect w))) = Ret tt /\
     applied_size (targetEl (sess w))
       (snd (InPlace.deliver h TimerFire (snd (InPlace.disconnect w))))
       = Some (Px (Z.max 1 (Qfloor best))) /\
     marker (targetEl (sess w))
       (snd (InPlace.deliver h TimerFire (snd (InPlace.disconnect w))))
       = Some best) /\
  (forall best w1,
     exact_options (sess w) ->
     measurement (Clone.computeBestFontSize h)
       (with_sess (set_timer false) (snd (Clone.disconnect w))) = (Ret best, w1) ->
     fst (Clone.deliver h TimerFire (snd (Clone.disconnect w))) = Ret tt /\
     applied_size (targetEl (sess w))
       (snd (Clone.deliver h TimerFire (snd (Clone.disconnect w))))
       = Some (Px (Z.max 1 (Qfloor best))) /\
     marker (targetEl (sess w))
       (snd (Clone.deliver h TimerFire (snd (Clone.disconnect w))))
       = Some best) /\
  InPlace.deliver h AnimationFrame (snd (InPlace.disconnect w)) =
    (if frame (sess w)
     then InPlace.refit h (with_sess (set_frame false) (snd (InPlace.disconnect w)))
     else (Ret tt, snd (InPlace.disconnect w))) /\
  Clone.deliver h AnimationFrame (snd (Clone.disconnect w)) =
    (if frame (sess w)
     then Clone.refit h (with_sess (set_frame false) (snd (Clone.disconnect w)))
     else (Ret tt, snd (Clone.disconnect w))).
Proof.
  intros Hidle Htimer.
  split; [exact Htimer |]. split; [exact Htimer |].
  split; [reflexivity |]. split; [reflexivity |].
  split; [exact (deliver_timer_run _ (with_sess unsubscribe w) Htimer) |].
  split; [exact (deliver_timer_run _ (with_sess unsubscribe w) Htimer) |].
  split; [intros best w1 _ Hrun;
          exact (timer_refits _ (with_sess unsubscribe w) best w1 Hidle Htimer Hrun) |].
  split; [intros best w1 _ Hrun;
          exact (timer_refits _ (with_sess unsubscribe w) best w1 Hidle Htimer Hrun) |].
  split; exact (deliver_frame_run _ (with_sess unsubscribe w)).
Qed.

Lemma pending_timer_survives_disconnect_witness :
  busy (sess resized) = false /\
  timer (sess resized) = true /\
  exact_options (sess resized) /\
  measurement (InPlace.computeBestFontSize (line_host 200 50))
    (with_sess (set_timer false) (snd (InPlace.disconnect resized)))
    = (Ret 40%Q,
       snd (measurement (InPlace.computeBestFontSize (line_host 200 50))
              (with_sess (set_timer false) (snd (InPlace.disconnect resized))))) /\
  measurement (Clone.computeBestFontSize (line_host 200 50))
    (with_sess (set_timer false) (snd (Clone.disconnect resized)))
    = (Ret 50%Q,
       snd (measurement (Clone.computeBestFontSize (line_host 200 50))
              (with_sess (set_timer false) (snd (Clone.disconnect resized))))) /\
  timer (sess (snd (Clone.disconnect resized))) = true /\
  applied_size TargetEl
    (snd (InPlace.deliver (line_host 200 50) TimerFire (snd (InPlace.disconnect resized))))
    = Some (Px 40) /\
  marker TargetEl
    (snd (InPlace.deliver (line_host 200 50) TimerFire (snd (InPlace.disconnect resized))))
    = Some 40%Q /\
  applied_size TargetEl
    (snd (Clone.deliver (line_host 200 50) TimerFire (snd (Clone.disconnect resized))))
    = Some (Px 50) /\
  marker TargetEl
    (snd (Clone.deliver (line_host 200 50) TimerFire (snd (Clone.disconnect resized))))
    = Some 50%Q.
Proof.
  assert (H0 : exact_options (sess resized)).
  { split; [by exists 8%Q |]. split; reflexivity. }
  assert (H1 : measurement (InPlace.computeBestFontSize (line_host 200 50))
    (with_sess (set_timer false) (snd (InPlace.disconnect resized)))
    = (Ret 40%Q,
       snd (measurement (InPlace.computeBestFontSize (line_host 200 50))
              (with_sess (set_timer false) (snd (InPlace.disconnect resized))))))
    by (vm_compute; reflexivity).
  assert (H2 : measurement (Clone.computeBestFontSize (line_host 200 50))
    (with_sess (set_timer false) (snd (Clone.disconnect resized)))
    = (Ret 50%Q,
       snd (measurement (Clone.computeBestFontSize (line_host 200 50))
              (with_sess (set_timer false) (snd (Clone.disconnect resized))))))
    by (vm_compute; reflexivity).
  split; [reflexivity |]. split; [reflexivity |]. split; [exact H0 |].
  split; [exact H1 |]. split; [exact H2 |].
  destruct (pending_timer_survives_disconnect (line_host 200 50) resized
              eq_refl eq_refl)
    as (_ & Ht & _ & _ & _ & _ & Hin & Hcl & _).
  destruct (Hin _ _ H0 H1) as (_ & Ha1 & Hm1).
  destruct (Hcl _ _ H0 H2) as (_ & Ha2 & Hm2).
  split; [exact Ht |].
  split; [exact Ha1 |]. split; [exact Hm1 |].
  split; [exact Ha2 |]. exact Hm2.
Defined.

(** * Further properties of the code *)

(** ** The loop, whatever the probes do *)

(** What every probe keeps, the loop keeps. *)
Lemma search_keeps (P : World -> Prop) (probe : Z -> M bool) :
  (forall mid w, P w -> P (snd (probe mid w))) ->
  forall (n : nat) lo hi best w,
    (Z.to_nat (hi + 1 - lo) <= n)%nat -> P w ->
    P (snd (search probe lo hi best w)).
Proof.
  intros Hprobe. induction n as [| n IH]; intros lo hi best w Hn Hw;
    rewrite search_eq; case_decide as Hle; try lia; try exact Hw.
  assert (lo <= (lo + hi) / 2 <= hi)
    by (split; [apply Z.div_le_lower_bound | apply Z.div_le_upper_bound]; lia).
  specialize (Hprobe ((lo + hi) / 2) w Hw).
  destruct (probe ((lo + hi) / 2) w) as [[[] | e] w1]; simpl in Hprobe.
  - apply IH; [lia | exact Hprobe].
  - apply IH; [lia | exact Hprobe].
  - exact Hprobe.
Qed.

(** Two loops whose probes answer alike on related worlds return alike. *)
Lemma search_sim (R : World -> World -> Prop) (p1 p2 : Z -> M bool) :
  (forall mid w1 w2, R w1 w2 ->
     fst (p1 mid w1) = fst (p2 mid w2) /\ R (snd (p1 mid w1)) (snd (p2 mid w2))) ->
  forall (n : nat) lo hi best w1 w2,
    (Z.to_nat (hi + 1 - lo) <= n)%nat -> R w1 w2 ->
    fst (search p1 lo hi best w1) = fst (search p2 lo hi best w2) /\
    R (snd (search p1 lo hi best w1)) (snd (search p2 lo hi best w2)).
Proof.
  intros Hprobe. induction n as [| n IH]; intros lo hi best w1 w2 Hn Hw;
    rewrite !search_eq; case_decide as Hle; try lia; try (split; [reflexivity | exact Hw]).
  assert (lo <= (lo + hi) / 2 <= hi)
    by (split; [apply Z.div_le_lower_bound | apply Z.div_le_upper_bound]; lia).
  destruct (Hprobe ((lo + hi) / 2) w1 w2 Hw) as [Hfst Hsnd].
  destruct (p1 ((lo + hi) / 2) w1) as [[[] | e] w1'],
           (p2 ((lo + hi) / 2) w2) as [r2 w2']; simpl in *; subst r2.
  - apply IH; [lia | exact Hsnd].
  - apply IH; [lia | exact Hsnd].
  - split; [reflexivity | exact Hsnd].
Qed.

(** A loop that throws does so in a probe at a size of the range. *)
Lemma search_throw_at (probe : Z -> M bool) (n : nat) :
  forall lo hi best w e w',
    (Z.to_nat (hi + 1 - lo) <= n)%nat ->
    search probe lo hi best w = (Throw e, w') ->
    exists mid w0, lo <= mid <= hi /\ probe mid w0 = (Throw e, w').
Proof.
  induction n as [| n IH]; intros lo hi best w e w' Hn;
    rewrite search_eq; case_decide as Hle; try lia; try discriminate.
  assert (lo <= (lo + hi) / 2 <= hi)
    by (split; [apply Z.div_le_lower_bound | apply Z.div_le_upper_bound]; lia).
  destruct (probe ((lo + hi) / 2) w) as [[[] | e0] w1] eqn:Hp.
  - intros Hs. apply IH in Hs as (mid & w0 & Hmid & Hthrow); [| lia].
    exists mid, w0. split; [lia | exact Hthrow].
  - intros Hs. apply IH in Hs as (mid & w0 & Hmid & Hthrow); [| lia].
    exists mid, w0. split; [lia | exact Hthrow].
  - intros [= <- <-]. by exists ((lo + hi) / 2), w.
Qed.

Lemma search_within_enough (probe : Z -> M bool) (n : nat) :
  forall lo hi best w,
    hi + 1 - lo < 2 ^ Z.of_nat n ->
    search_within n probe lo hi best w = Some (search probe lo hi best w).
Proof.
  induction n as [| n IH]; intros lo hi best w Hsize;
    rewrite search_eq; simpl search_within; case_decide as Hle; try reflexivity.
  - simpl in Hsize. lia.
  - assert (lo <= (lo + hi) / 2 <= hi)
      by (split; [apply Z.div_le_lower_bound | apply Z.div_le_upper_bound]; lia).
    assert (hi + lo - 1 <= 2 * ((lo + hi) / 2) <= lo + hi)
      by (pose proof (Z.mod_pos_bound (lo + hi) 2 eq_refl);
          pose proof (Z.div_mod (lo + hi) 2); lia).
    rewrite Nat2Z.inj_succ, Z.pow_succ_r in Hsize by lia.
    destruct (probe ((lo + hi) / 2) w) as [[[] | e] w1]; [| | reflexivity];
      apply IH; generalize dependent (2 ^ Z.of_nat n);
      generalize dependent ((lo + hi) / 2); intros; lia.
Qed.

(** X1 (number of probes).  A range of fewer than [2^n] sizes, from 1 up
    and below [2^52], is searched with at most [n] probes: the loop of the
    source, with the rounding of its additions, is over after at most [n]
    iterations, and it ends as the loop on integers does, with the same
    result or the same exception in the same world; so does the loop on
    integers cut off after [n] iterations. *)
Theorem search_probes_logarithmic
    (probe : Z -> M bool) (n : nat) (lo hi best : Z) (w : World) :
  1 <= lo ->
  exact_size hi ->
  hi + 1 - lo < 2 ^ Z.of_nat n ->
  search_double n probe lo hi best w = Some (search probe lo hi best w) /\
  search_within n probe lo hi best w = Some (search probe lo hi best w).
Proof.
  intros Hlo Hhi Hsize. split.
  - by apply search_double_in_range.
  - by apply search_within_enough.
Qed.

Lemma search_probes_logarithmic_witness :
  1 <= 8 /\
  exact_size 512 /\
  512 + 1 - 8 < 2 ^ Z.of_nat 9 /\
  search_double 9 (Clone.probe (line_host 200 50) (Probe 0 0) 50) 8 512 8
    (clone_probing (line_host 200 50))
  = Some (search (Clone.probe (line_host 200 50) (Probe 0 0) 50) 8 512 8
            (clone_probing (line_host 200 50))) /\
  search_within 9 (Clone.probe (line_host 200 50) (Probe 0 0) 50) 8 512 8
    (clone_probing (line_host 200 50))
  = Some (search (Clone.probe (line_host 200 50) (Probe 0 0) 50) 8 512 8
            (clone_probing (line_host 200 50))).
Proof.
  split; [lia |]. split; [reflexivity |]. split; [reflexivity |].
  apply (search_probes_logarithmic _ 9 8 512 8); [lia | reflexivity | reflexivity].
Defined.

(** ** What an action leaves alone *)

Lemma keeps_ret {A} (P : World -> World -> Prop) `{!Reflexive P} (a : A) :
  keeps P (mret a : M A).
Proof. intros w. simpl. reflexivity. Qed.

Lemma keeps_layout {A} (P : World -> World -> Prop) `{!Reflexive P}
    (r : Dom -> outcome A) :
  keeps P (layout r).
Proof. intros w. simpl. reflexivity. Qed.

Lemma keeps_gets {A} (P : World -> World -> Prop) `{!Reflexive P}
    (g : World -> A) :
  keeps P (gets g).
Proof. intros w. simpl. reflexivity. Qed.

Lemma keeps_modify (P : World -> World -> Prop) (g : World -> World) :
  (forall w, P w (g w)) -> keeps P (modify g).
Proof. intros Hg w. apply Hg. Qed.

Lemma keeps_bind {A B} (P : World -> World -> Prop) `{!Transitive P}
    (m : M A) (f : A -> M B) :
  keeps P m -> (forall a, keeps P (f a)) -> keeps P (m ≫= f).
Proof.
  intros Hm Hf w. rewrite bind_run. specialize (Hm w).
  destruct (m w) as [[a | e] w1]; simpl in *; [| exact Hm].
  transitivity w1; [exact Hm | apply Hf].
Qed.

Lemma keeps_search (P : World -> World -> Prop)
    `{!Reflexive P} `{!Transitive P} (probe : Z -> M bool) lo hi best :
  (forall mid, keeps P (probe mid)) -> keeps P (search probe lo hi best).
Proof.
  intros Hprobe w.
  apply (search_keeps (P w) probe) with (n := Z.to_nat (hi + 1 - lo));
    [| reflexivity | reflexivity].
  intros mid w1 Hw1. transitivity w1; [exact Hw1 | apply Hprobe].
Qed.

Lemma blind_ret {A} (a : A) : session_blind (mret a : M A).
Proof. intros f w. reflexivity. Qed.

Lemma blind_layout {A} (r : Dom -> outcome A) : session_blind (layout r).
Proof. intros f w. reflexivity. Qed.

Lemma blind_gets {A} (g : World -> A) :
  (forall f w, g (with_sess f w) = g w) -> session_blind (gets g).
Proof. intros Hg f w. unfold gets. by rewrite Hg. Qed.

Lemma blind_modify (g : World -> World) :
  (forall f w, g (with_sess f w) = with_sess f (g w)) ->
  session_blind (modify g).
Proof. intros Hg f w. unfold modify. by rewrite Hg. Qed.

Lemma blind_bind {A B} (m : M A) (k : A -> M B) :
  session_blind m -> (forall a, session_blind (k a)) -> session_blind (m ≫= k).
Proof.
  intros Hm Hk f w. rewrite !bind_run, Hm.
  destruct (m w) as [[a | e] w1]; simpl; [apply Hk | reflexivity].
Qed.

Lemma blind_search (probe : Z -> M bool) lo hi best :
  (forall mid, session_blind (probe mid)) ->
  session_blind (search probe lo hi best).
Proof.
  intros Hprobe f w.
  destruct (search_sim (fun w1 w2 => w2 = with_sess f w1) probe probe)
    with (n := Z.to_nat (hi + 1 - lo)) (lo := lo) (hi := hi) (best := best)
         (w1 := w) (w2 := with_sess f w) as [Hfst Hsnd];
    [| reflexivity | reflexivity |].
  - intros mid w1 w2 ->. by rewrite Hprobe.
  - destruct (search probe lo hi best (with_sess f w)); simpl in *. by subst.
Qed.

(** The session an action that is blind to the session ends in is the one
    it started in. *)
Lemma blind_keeps_session {A} (m : M A) w :
  session_blind m -> sess (snd (m w)) = sess w.
Proof.
  intros Hm. specialize (Hm (fun _ => sess w) w).
  replace (with_sess (fun _ => sess w) w) with w in Hm by (by destruct w).
  destruct (m w) as [r w1]; simpl in *. by injection Hm as ->.
Qed.

Ltac blind :=
  cbv zeta;
  repeat first
    [ apply blind_ret
    | apply blind_layout
    | apply blind_gets; reflexivity
    | apply blind_modify; reflexivity
    | apply blind_search; intros ?
    | apply blind_bind; [| intros ?]
    | match goal with |- session_blind (if ?b then _ else _) => destruct b end ].

Lemma blind_setFontSizePx el px : session_blind (setFontSizePx el px).
Proof. unfold setFontSizePx, set_style. blind. Qed.

Lemma blind_inplace_compute h t c minPx maxPx :
  session_blind (InPlace.computeBestFontSize h t c minPx maxPx).
Proof.
  unfold InPlace.computeBestFontSize, InPlace.probe, InPlace.elementFits,
    setFontSizePx, set_style.
  blind.
Qed.

Lemma blind_clone_compute h t c minPx maxPx :
  session_blind (Clone.computeBestFontSize h t c minPx maxPx).
Proof.
  unfold Clone.computeBestFontSize, Clone.makeMeasureBox, Clone.cloneForMeasure,
    Clone.probe, setFontSizePx, set_style.
  blind.
Qed.

(** ** The session over a history of calls and events *)

Global Instance ages_refl : Reflexive ages.
Proof. intros s. unfold ages. tauto. Qed.

Global Instance ages_trans : Transitive ages.
Proof.
  intros s1 s2 s3 (Ht & Hc & Ho & Hro & Hmo & Hw & Hf)
    (Ht' & Hc' & Ho' & Hro' & Hmo' & Hw' & Hf').
  unfold ages. repeat split; try congruence; auto.
Qed.

Lemma refit_session compute w :
  (forall t c a b, session_blind (compute t c a b)) ->
  sess (snd (Controller.refit compute w)) =
  if busy (sess w) then sess w else set_busy false (sess w).
Proof.
  intros Hblind. unfold Controller.refit.
  destruct (busy (sess w)); [reflexivity |].
  rewrite cycle_run. unfold measurement.
  pose proof (blind_keeps_session
                (compute (targetEl (sess w)) (containerEl (sess w))
                   (to_number (opts (sess w) !!! "minPx"))
                   (to_number (opts (sess w) !!! "maxPx")))
                (with_sess (set_busy true) w) (Hblind _ _ _ _)) as Hsess.
  destruct (compute _ _ _ _ _) as [[best | e] w1]; simpl in *;
    by rewrite Hsess.
Qed.

Lemma ages_refit compute w :
  (forall t c a b, session_blind (compute t c a b)) ->
  ages (sess w) (sess (snd (Controller.refit compute w))).
Proof.
  intros Hblind. rewrite refit_session by assumption.
  destruct (busy (sess w)); unfold ages; simpl; tauto.
Qed.

Lemma debounced_run w : debounced w = (Ret tt, with_sess (set_timer true) w).
Proof. reflexivity. Qed.

Lemma ages_perform compute a w :
  (forall t c a b, session_blind (compute t c a b)) ->
  ages (sess w) (sess (snd (perform compute a w))).
Proof.
  intros Hblind. destruct a as [| | ev]; simpl.
  - by apply ages_refit.
  - unfold ages; simpl.
    destruct (ro (sess w)), (mo (sess w)); simpl; repeat split; congruence.
  - unfold Controller.deliver. run. destruct ev.
    + destruct (decide (ro (sess w) = Some true));
        rewrite ?debounced_run, ?ret_run; unfold ages; simpl; tauto.
    + destruct (winResize (sess w));
        rewrite ?debounced_run, ?ret_run; unfold ages; simpl; tauto.
    + destruct (decide (mo (sess w) = Some true));
        rewrite ?debounced_run, ?ret_run; unfold ages; simpl; tauto.
    + destruct (fontsThen (sess w)); run;
        rewrite ?debounced_run; unfold ages; simpl; intuition congruence.
    + destruct (timer (sess w)); [| reflexivity]. run.
      etransitivity; [| by apply ages_refit]. unfold ages; simpl; tauto.
    + destruct (frame (sess w)); [| reflexivity]. run.
      etransitivity; [| by apply ages_refit]. unfold ages; simpl; tauto.
Qed.

Lemma ages_perform_all compute acts :
  (forall t c a b, session_blind (compute t c a b)) ->
  forall w, ages (sess w) (sess (perform_all compute acts w)).
Proof.
  intros Hblind. induction acts as [| a acts IH]; intros w; simpl; [reflexivity |].
  etransitivity; [by apply ages_perform | apply IH].
Qed.

(** X2 (a session never re-subscribes).  Whatever calls of [refit] and
    [disconnect] and whatever events follow, in either implementation the
    session keeps its elements and its options, and it listens to no source
    it did not listen to before: an observer that was disconnected, a
    listener that was removed and a wait on the fonts that was used up stay
    so. *)
Theorem session_never_resubscribes (h : Host) (acts : list action) (w : World) :
  ages (sess w) (sess (perform_all (InPlace.computeBestFontSize h) acts w)) /\
  ages (sess w) (sess (perform_all (Clone.computeBestFontSize h) acts w)).
Proof.
  split; apply ages_perform_all; intros;
    [apply blind_inplace_compute | apply blind_clone_compute].
Qed.

(** ** Refit and disconnect *)

Lemma refit_unsubscribed compute w :
  (forall t c a b, session_blind (compute t c a b)) ->
  Controller.refit compute (with_sess unsubscribe w) =
  (fst (Controller.refit compute w),
   with_sess unsubscribe (snd (Controller.refit compute w))).
Proof.
  intros Hblind. unfold Controller.refit. simpl busy.
  destruct (busy (sess w)); [reflexivity |].
  rewrite !cycle_run. unfold measurement.
  change (with_sess (set_busy true) (with_sess unsubscribe w))
    with (with_sess unsubscribe (with_sess (set_busy true) w)).
  simpl sess at 1 2 3 4. simpl targetEl. simpl containerEl. simpl opts.
  rewrite Hblind.
  destruct (compute _ _ _ _ _) as [[best | e] w1]; reflexivity.
Qed.

(** X3 (refit after disconnect).  In both implementations [refit] and
    [disconnect] commute: a manual [refit()] on a disconnected session
    returns or throws as it would have before [disconnect()], and writes the
    same to the document. *)
Theorem refit_after_disconnect (h : Host) (w : World) :
  InPlace.refit h (snd (InPlace.disconnect w)) =
    (fst (InPlace.refit h w), snd (InPlace.disconnect (snd (InPlace.refit h w)))) /\
  Clone.refit h (snd (Clone.disconnect w)) =
    (fst (Clone.refit h w), snd (Clone.disconnect (snd (Clone.refit h w)))).
Proof.
  split.
  - apply (refit_unsubscribed (InPlace.computeBestFontSize h)).
    intros. apply blind_inplace_compute.
  - apply (refit_unsubscribed (Clone.computeBestFontSize h)).
    intros. apply blind_clone_compute.
Qed.

(** ** Triggers *)

Lemma deliver_observed_run compute ev w :
  observed ev = true ->
  Controller.deliver compute ev w =
  (Ret tt, if listens (sess w) ev then with_sess (set_timer true) w else w).
Proof.
  intros Hev. unfold Controller.deliver. run.
  destruct ev; try discriminate; simpl.
  - destruct (decide (ro (sess w) = Some true)) as [Hro | Hro].
    + by rewrite bool_decide_eq_true_2.
    + by rewrite bool_decide_eq_false_2.
  - by destruct (winResize (sess w)).
  - destruct (decide (mo (sess w) = Some true)) as [Hmo | Hmo].
    + by rewrite bool_decide_eq_true_2.
    + by rewrite bool_decide_eq_false_2.
Qed.

Lemma burst_run compute evs :
  forall w,
    Controller.deliver_all compute (List.filter observed evs) w =
    if existsb (listens (sess w)) evs then with_sess (set_timer true) w else w.
Proof.
  induction evs as [| ev evs IH]; intros w; simpl; [reflexivity |].
  destruct (observed ev) eqn:Hev; simpl.
  - rewrite deliver_observed_run by exact Hev. simpl.
    destruct (listens (sess w) ev) eqn:Hl; simpl; rewrite IH; [| reflexivity].
    replace (existsb (listens (sess (with_sess (set_timer true) w))) evs)
      with (existsb (listens (sess w)) evs) by reflexivity.
    by destruct (existsb (listens (sess w)) evs).
  - replace (listens (sess w) ev) with false by (by destruct ev).
    apply IH.
Qed.

Lemma timer_fires_once compute w :
  (forall t c a b, session_blind (compute t c a b)) ->
  Controller.deliver compute TimerFire (snd (Controller.deliver compute TimerFire w))
  = (Ret tt, snd (Controller.deliver compute TimerFire w)).
Proof.
  intros Hblind.
  assert (Hoff : timer (sess (snd (Controller.deliver compute TimerFire w))) = false).
  { unfold Controller.deliver at 1. run.
    destruct (timer (sess w)) eqn:Htimer; [| by rewrite ret_run].
    run. rewrite refit_session by assumption. simpl.
    by destruct (busy (sess w)). }
  unfold Controller.deliver at 1. run. by rewrite Hoff.
Qed.

(** X4 (debounce coalescing).  In both implementations a burst of resize and
    mutation signals, however long, does not touch the document and leaves
    exactly one timeout armed if the session listens to one of them, and
    nothing changed otherwise; and a timeout fires once: when it has fired,
    a second firing without a new signal does nothing. *)
Theorem burst_arms_one_timeout (h : Host) (evs : list event) (w : World) :
  Controller.deliver_all (InPlace.computeBestFontSize h)
    (List.filter observed evs) w
    = (if existsb (listens (sess w)) evs then with_sess (set_timer true) w else w) /\
  Controller.deliver_all (Clone.computeBestFontSize h)
    (List.filter observed evs) w
    = (if existsb (listens (sess w)) evs then with_sess (set_timer true) w else w) /\
  InPlace.deliver h TimerFire (snd (InPlace.deliver h TimerFire w))
    = (Ret tt, snd (InPlace.deliver h TimerFire w)) /\
  Clone.deliver h TimerFire (snd (Clone.deliver h TimerFire w))
    = (Ret tt, snd (Clone.deliver h TimerFire w)).
Proof.
  split; [apply burst_run |]. split; [apply burst_run |].
  split; apply timer_fires_once; intros;
    [apply blind_inplace_compute | apply blind_clone_compute].
Qed.

Lemma lookup_total_assign (tgt src : gmap string value) (k : string) (v : value) :
  src !! k = Some v -> object_assign tgt src !!! k = v.
Proof.
  intros Hk. rewrite lookup_total_alt, object_assign_lookup, Hk. reflexivity.
Qed.

(** X5 (one source of resize signals).  The session that either
    implementation returns listens to exactly one of the two resize
    sources: to the window when it does not observe the container.  So
    passing [observeResize: false] does not turn resize refits off: the
    session then listens to the window. *)
Theorem resize_source_is_exclusive
    (h : Host) (t c : node) (options : gmap string value) (d : Dom) :
  (exists s,
     InPlace.fitFontToContainer h (Some t) (Some c) options d = (Ret s, d) /\
     listens s ContainerResize
       = truthy (object_assign InPlace.defaults options !!! "observeResize")
         && hasResizeObserver h /\
     listens s WindowResize = negb (listens s ContainerResize)) /\
  (exists s,
     Clone.fitFontToContainer h (Some t) (Some c) options d = (Ret s, d) /\
     listens s ContainerResize
       = truthy (object_assign Clone.defaults options !!! "observeResize")
         && hasResizeObserver h /\
     listens s WindowResize = negb (listens s ContainerResize)) /\
  (exists s,
     InPlace.fitFontToContainer h (Some t) (Some c)
       (<["observeResize" := VBool false]> options) d = (Ret s, d) /\
     listens s ContainerResize = false /\ listens s WindowResize = true) /\
  (exists s,
     Clone.fitFontToContainer h (Some t) (Some c)
       (<["observeResize" := VBool false]> options) d = (Ret s, d) /\
     listens s ContainerResize = false /\ listens s WindowResize = true).
Proof.
  repeat split; eexists; (split; [reflexivity |]); simpl.
  - destruct (truthy _ && hasResizeObserver h); split; reflexivity.
  - destruct (truthy _ && hasResizeObserver h); split; reflexivity.
  - rewrite (lookup_total_assign _ _ _ (VBool false)) by apply lookup_insert_eq.
    split; reflexivity.
  - rewrite (lookup_total_assign _ _ _ (VBool false)) by apply lookup_insert_eq.
    split; reflexivity.
Qed.

(** X6 (fonts).  The in-place implementation never refits on the fonts
    becoming ready, whatever the options say and whatever happened to the
    session since it was returned.  The clone implementation waits on the
    fonts when [refitOnFontLoad] is truthy after the merge and the
    environment has [document.fonts.ready], and reacts to them once. *)
Theorem fonts_ready_refits_clone_only
    (h : Host) (t c : node) (options : gmap string value) (d : Dom)
    (acts : list action) (w : World) :
  (exists s,
     InPlace.fitFontToContainer h (Some t) (Some c) options d = (Ret s, d) /\
     InPlace.deliver h FontsReady
       (perform_all (InPlace.computeBestFontSize h) acts {| dom := d; sess := s |})
     = (Ret tt,
        perform_all (InPlace.computeBestFontSize h) acts {| dom := d; sess := s |})) /\
  (exists s,
     Clone.fitFontToContainer h (Some t) (Some c) options d = (Ret s, d) /\
     fontsThen s
       = truthy (object_assign Clone.defaults options !!! "refitOnFontLoad")
         && hasFontsReady h) /\
  Clone.deliver h FontsReady w =
    (Ret tt,
     if fontsThen (sess w)
     then with_sess (set_timer true) (with_sess (set_fontsThen false) w)
     else w) /\
  Clone.deliver h FontsReady (snd (Clone.deliver h FontsReady w))
    = (Ret tt, snd (Clone.deliver h FontsReady w)).
Proof.
  split; [| split; [| split]].
  - eexists. split; [reflexivity |].
    match goal with
    | |- context [perform_all ?cmp ?a ?w0] =>
        pose proof (ages_perform_all cmp a
                      (fun _ _ _ _ => blind_inplace_compute h _ _ _ _) w0)
          as (_ & _ & _ & _ & _ & _ & Hf);
        destruct (fontsThen (sess (perform_all cmp a w0))) eqn:Hoff
    end.
    + specialize (Hf eq_refl). discriminate.
    + unfold InPlace.deliver, Controller.deliver. run. by rewrite Hoff.
  - eexists. split; reflexivity.
  - unfold Clone.deliver, Controller.deliver. run.
    by destruct (fontsThen (sess w)).
  - unfold Clone.deliver, Controller.deliver. run.
    destruct (fontsThen (sess w)) eqn:Hf; run; simpl.
    + reflexivity.
    + by rewrite Hf.
Qed.

(** X7 (the size applied).  Take an idle session whose [minPx] is a number
    and whose bounds are below [2^52].  In the in-place implementation,
    when a refit returns, [computeBestFontSize] has returned some [best] in
    it, and the refit has recorded this [best] in the marker and applied
    [max(1, floor(best))] pixels: the font size applied is a whole number
    of pixels, never below 1, and it is the marker exactly when [best] is
    an integer of at least 1.  The same holds of the clone implementation,
    with its own [computeBestFontSize]. *)
Theorem refit_applies_clamped_size (h : Host) (w : World) :
  busy (sess w) = false ->
  exact_options (sess w) ->
  (forall w1,
     InPlace.refit h w = (Ret tt, w1) ->
     exists best wm,
       measurement (InPlace.computeBestFontSize h) w = (Ret best, wm) /\
       marker (targetEl (sess w)) w1 = Some best /\
       applied_size (targetEl (sess w)) w1 = Some (Px (Z.max 1 (Qfloor best))) /\
       1 <= Z.max 1 (Qfloor best) /\
       (inject_Z (Z.max 1 (Qfloor best)) = best <->
        exists m, best = inject_Z m /\ 1 <= m)) /\
  (forall w1,
     Clone.refit h w = (Ret tt, w1) ->
     exists best wm,
       measurement (Clone.computeBestFontSize h) w = (Ret best, wm) /\
       marker (targetEl (sess w)) w1 = Some best /\
       applied_size (targetEl (sess w)) w1 = Some (Px (Z.max 1 (Qfloor best))) /\
       1 <= Z.max 1 (Qfloor best) /\
       (inject_Z (Z.max 1 (Qfloor best)) = best <->
        exists m, best = inject_Z m /\ 1 <= m)).
Proof.
  intros Hidle _. unfold InPlace.refit, Clone.refit.
  assert (Hiff : forall best,
            inject_Z (Z.max 1 (Qfloor best)) = best <->
            exists m, best = inject_Z m /\ 1 <= m).
  { intros best. split.
    - intros Heq. exists (Z.max 1 (Qfloor best)). split; [done | lia].
    - intros (m & -> & Hm). rewrite Qfloor_Z. f_equal. lia. }
  split; intros w1; rewrite refit_idle_run, cycle_run by assumption.
  - destruct (measurement (InPlace.computeBestFontSize h) w) as [[best | e] w'];
      [| discriminate].
    intros [= <-]. exists best, w'. split; [reflexivity |].
    rewrite applied_after_cycle, marker_after_cycle.
    repeat split; try lia; apply Hiff.
  - destruct (measurement (Clone.computeBestFontSize h) w) as [[best | e] w'];
      [| discriminate].
    intros [= <-]. exists best, w'. split; [reflexivity |].
    rewrite applied_after_cycle, marker_after_cycle.
    repeat split; try lia; apply Hiff.
Qed.

Lemma refit_applies_clamped_size_witness :
  busy (sess inplace_start) = false /\
  exact_options (sess inplace_start) /\
  InPlace.refit (line_host 20 20) inplace_start
    = (Ret tt, snd (InPlace.refit (line_host 20 20) inplace_start)) /\
  Clone.refit (line_host 20 20) inplace_start
    = (Ret tt, snd (Clone.refit (line_host 20 20) inplace_start)) /\
  (exists best wm,
     measurement (InPlace.computeBestFontSize (line_host 20 20)) inplace_start
       = (Ret best, wm) /\
     marker (targetEl (sess inplace_start))
       (snd (InPlace.refit (line_host 20 20) inplace_start)) = Some best /\
     applied_size (targetEl (sess inplace_start))
       (snd (InPlace.refit (line_host 20 20) inplace_start))
       = Some (Px (Z.max 1 (Qfloor best))) /\
     1 <= Z.max 1 (Qfloor best) /\
     (inject_Z (Z.max 1 (Qfloor best)) = best <->
      exists m, best = inject_Z m /\ 1 <= m)) /\
  (exists best wm,
     measurement (Clone.computeBestFontSize (line_host 20 20)) inplace_start
       = (Ret best, wm) /\
     marker (targetEl (sess inplace_start))
       (snd (Clone.refit (line_host 20 20) inplace_start)) = Some best /\
     applied_size (targetEl (sess inplace_start))
       (snd (Clone.refit (line_host 20 20) inplace_start))
       = Some (Px (Z.max 1 (Qfloor best))) /\
     1 <= Z.max 1 (Qfloor best) /\
     (inject_Z (Z.max 1 (Qfloor best)) = best <->
      exists m, best = inject_Z m /\ 1 <= m)).
Proof.
  assert (H0 : exact_options (sess inplace_start)).
  { split; [by exists 8%Q |]. split; reflexivity. }
  assert (H1 : InPlace.refit (line_host 20 20) inplace_start
    = (Ret tt, snd (InPlace.refit (line_host 20 20) inplace_start)))
    by (vm_compute; reflexivity).
  assert (H2 : Clone.refit (line_host 20 20) inplace_start
    = (Ret tt, snd (Clone.refit (line_host 20 20) inplace_start)))
    by (vm_compute; reflexivity).
  split; [reflexivity |]. split; [exact H0 |].
  split; [exact H1 |]. split; [exact H2 |].
  destruct (refit_applies_clamped_size (line_host 20 20) inplace_start eq_refl H0)
    as [Hin Hcl].
  split; [exact (Hin _ H1) | exact (Hcl _ H2)].
Defined.

(** ** What the clone implementation does to the document *)

Lemma alter_last {A} (f : A -> A) (l : list A) (x : A) :
  alter f (length l) (l ++ [x]) = l ++ [f x].
Proof.
  replace (length l) with (length l + 0)%nat at 1 by lia.
  by rewrite alter_app_r.
Qed.

Lemma cloneForMeasure_world t i w :
  Clone.cloneForMeasure t i w =
  (Ret (Probe i (length (box_children (body (dom w) !!! i)))),
   with_dom (with_body
     (alter (alter_box (fun cs => cs ++ [measure_clone (get_node t (dom w))])) i)) w).
Proof. unfold Clone.cloneForMeasure. run. reflexivity. Qed.

Lemma clone_probe_world h p ch mid w :
  snd (Clone.probe h p ch mid w) = at_size p mid w.
Proof.
  unfold Clone.probe. by rewrite (probe_run _ _ (read_only_clone_reads _ _ _)).
Qed.

(** While the loop runs, the box stays the last one under [body] and
    nothing else changes. *)
Lemma clone_loop_keeps_box h j ch rw lo hi best w w1 :
  box_left rw w w1 ->
  box_left rw w
    (snd (search (Clone.probe h (Probe (length (body (dom w))) j) ch)
            lo hi best w1)).
Proof.
  apply (search_keeps (box_left rw w)) with (n := Z.to_nat (hi + 1 - lo));
    [| reflexivity].
  intros mid w2 (bx & -> & Hstyle & Hlen). rewrite clone_probe_world.
  exists (alter_box (alter (with_style "fontSize" (Px (Z.max 1 mid))) j) bx).
  split; [| split].
  - unfold at_size, with_dom, with_body; simpl. by rewrite alter_last.
  - exact Hstyle.
  - simpl. by rewrite length_alter.
Qed.

(** All the ways [computeBestFontSize] of the clone implementation can end:
    returning, with the world it started in; throwing from one of its first
    three reads, with the world it started in; or throwing from the loop,
    with the box left under [body]. *)
Lemma clone_compute_shape h t c minPx maxPx w :
  match Clone.computeBestFontSize h t c minPx maxPx w with
  | (Ret _, w') => w' = w
  | (Throw _, w') =>
      ((throws (clientWidth h (Node c) (dom w)) = true \/
        throws (clientHeight h (Node c) (dom w)) = true \/
        throws (rectWidth h (Node c) (dom w)) = true) /\ w' = w) \/
      (exists rw, rectWidth h (Node c) (dom w) = Ret rw /\ box_left rw w w')
  end.
Proof.
  unfold Clone.computeBestFontSize. run.
  destruct (clientWidth h (Node c) (dom w)) as [cw | e]; [| left; simpl; tauto].
  run.
  destruct (clientHeight h (Node c) (dom w)) as [ch | e]; [| left; simpl; tauto].
  destruct ((cw <=? 0) || (ch <=? 0)); [reflexivity |].
  rewrite bind_run, makeMeasureBox_run.
  destruct (rectWidth h (Node c) (dom w)) as [rw | e]; [| left; simpl; tauto].
  rewrite bind_run, cloneForMeasure_world. rewrite bind_run.
  match goal with
  | |- context [search ?p ?lo ?hi ?b0 ?w1] =>
      assert (Hbox : box_left rw w (snd (search p lo hi b0 w1)));
      [| destruct (search p lo hi b0 w1) as [[b | e] w2]; simpl in Hbox ]
  end.
  - simpl. apply clone_loop_keeps_box.
    eexists. split.
    { unfold with_dom, with_body; simpl. rewrite alter_last. reflexivity. }
    split; reflexivity.
  - run. destruct Hbox as (bx & -> & _ & _).
    unfold with_dom, with_body; simpl.
    rewrite (delete_middle (body (dom w)) [] bx), app_nil_r.
    by destruct w as [[] ?].
  - right. exists rw. split; [reflexivity | exact Hbox].
Qed.

Lemma box_left_frame rw w w' :
  box_left rw w w' ->
  sess w' = sess w /\ target (dom w') = target (dom w) /\
  container (dom w') = container (dom w) /\
  length (body (dom w')) = S (length (body (dom w))).
Proof.
  intros (bx & -> & _ & _). simpl. rewrite length_app. simpl.
  repeat split. lia.
Qed.

(** However it ends, the clone implementation leaves the two elements and
    the session alone, and on return the whole world. *)
Lemma clone_compute_frame
    (h : Host) (t c : node) (minPx maxPx : Q) (w : World) :
  sess (snd (Clone.computeBestFontSize h t c minPx maxPx w)) = sess w /\
  target (dom (snd (Clone.computeBestFontSize h t c minPx maxPx w)))
    = target (dom w) /\
  container (dom (snd (Clone.computeBestFontSize h t c minPx maxPx w)))
    = container (dom w) /\
  (snd (Clone.computeBestFontSize h t c minPx maxPx w) = w \/
   throws (fst (Clone.computeBestFontSize h t c minPx maxPx w)) = true).
Proof.
  pose proof (clone_compute_shape h t c minPx maxPx w) as Hshape.
  destruct (Clone.computeBestFontSize h t c minPx maxPx w) as [[s | e] w'];
    simpl.
  - subst w'. repeat split. by left.
  - destruct Hshape as [[_ ->] | (rw & _ & Hbox)].
    + repeat split. by right.
    + apply box_left_frame in Hbox as (Hs & Ht & Hc & _).
      repeat split; try assumption. by right.
Qed.

(** X8 (the clone implementation is isolated).  However it ends,
    [computeBestFontSize] of the clone implementation leaves the target,
    the container and the session as they were; and when it returns, the
    whole world is as it was: the measurement box and the clone are gone. *)
Theorem clone_compute_isolated
    (h : Host) (t c : node) (minPx maxPx : Q) (w : World) :
  sess (snd (Clone.computeBestFontSize h t c minPx maxPx w)) = sess w /\
  target (dom (snd (Clone.computeBestFontSize h t c minPx maxPx w)))
    = target (dom w) /\
  container (dom (snd (Clone.computeBestFontSize h t c minPx maxPx w)))
    = container (dom w) /\
  (snd (Clone.computeBestFontSize h t c minPx maxPx w) = w \/
   throws (fst (Clone.computeBestFontSize h t c minPx maxPx w)) = true).
Proof. apply clone_compute_frame. Qed.

(** X9 (the box leaks when a probe throws).  In the clone implementation,
    if the container has an area and its rectangle can be read, an
    exception out of [computeBestFontSize] comes from the loop, and the
    measurement box is then still under [body], with its clone: the cleanup
    of line 192 is skipped. *)
Theorem clone_box_leaks_on_throw
    (h : Host) (t c : node) (minPx maxPx : Q) (w w' : World)
    (cw ch : Z) (rw : Q) (e : string) :
  clientWidth h (Node c) (dom w) = Ret cw ->
  clientHeight h (Node c) (dom w) = Ret ch ->
  rectWidth h (Node c) (dom w) = Ret rw ->
  Clone.computeBestFontSize h t c minPx maxPx w = (Throw e, w') ->
  box_left rw w w' /\
  length (body (dom w')) = S (length (body (dom w))).
Proof.
  intros Hcw Hch Hrw Hrun.
  pose proof (clone_compute_shape h t c minPx maxPx w) as Hshape.
  rewrite Hrun, Hcw, Hch, Hrw in Hshape. simpl in Hshape.
  destruct Hshape as [[[? | [? | ?]] _] | (rw' & [= <-] & Hbox)];
    try discriminate.
  split; [exact Hbox |]. by apply box_left_frame in Hbox as (_ & _ & _ & ?).
Qed.

Lemma clone_box_leaks_on_throw_witness :
  clientWidth (failing_host 200 50) (Node ContainerEl) (dom clone_start) = Ret 200 /\
  clientHeight (failing_host 200 50) (Node ContainerEl) (dom clone_start) = Ret 50 /\
  rectWidth (failing_host 200 50) (Node ContainerEl) (dom clone_start)
    = Ret (inject_Z 200) /\
  Clone.computeBestFontSize (failing_host 200 50) TargetEl ContainerEl 8 512
    clone_start
    = (Throw "layout failed",
       snd (Clone.computeBestFontSize (failing_host 200 50) TargetEl ContainerEl
              8 512 clone_start)) /\
  box_left (inject_Z 200) clone_start
    (snd (Clone.computeBestFontSize (failing_host 200 50) TargetEl ContainerEl
            8 512 clone_start)) /\
  length (body (dom (snd (Clone.computeBestFontSize (failing_host 200 50)
                            TargetEl ContainerEl 8 512 clone_start))))
    = S (length (body (dom clone_start))).
Proof.
  assert (Hrun : Clone.computeBestFontSize (failing_host 200 50) TargetEl
                   ContainerEl 8 512 clone_start
    = (Throw "layout failed",
       snd (Clone.computeBestFontSize (failing_host 200 50) TargetEl ContainerEl
              8 512 clone_start))) by (vm_compute; reflexivity).
  split; [reflexivity |]. split; [reflexivity |]. split; [reflexivity |].
  split; [exact Hrun |].
  exact (clone_box_leaks_on_throw (failing_host 200 50) TargetEl ContainerEl
           8 512 clone_start _ 200 50 (inject_Z 200) "layout failed"
           eq_refl eq_refl eq_refl Hrun).
Defined.

(** X10 (a failed refit of the clone implementation).  When [refit] of the
    clone implementation throws, the target and the container are exactly
    as they were before the call: no font size was applied and no marker
    was written. *)
Theorem clone_refit_throw_leaves_target
    (h : Host) (w w' : World) (e : string) :
  Clone.refit h w = (Throw e, w') ->
  target (dom w') = target (dom w) /\ container (dom w') = container (dom w).
Proof.
  unfold Clone.refit, Controller.refit.
  destruct (busy (sess w)); [discriminate |].
  rewrite cycle_run. unfold measurement.
  pose proof (clone_compute_frame h (targetEl (sess w)) (containerEl (sess w))
                (to_number (opts (sess w) !!! "minPx"))
                (to_number (opts (sess w) !!! "maxPx"))
                (with_sess (set_busy true) w)) as (_ & Ht & Hc & _).
  destruct (Clone.computeBestFontSize _ _ _ _ _ _) as [[best | e'] w1];
    [discriminate |].
  intros [= _ <-]. simpl in *. by split.
Qed.

Lemma clone_refit_throw_leaves_target_witness :
  Clone.refit (failing_host 200 50) clone_start
    = (Throw "layout failed", snd (Clone.refit (failing_host 200 50) clone_start)) /\
  target (dom (snd (Clone.refit (failing_host 200 50) clone_start)))
    = target (dom clone_start) /\
  container (dom (snd (Clone.refit (failing_host 200 50) clone_start)))
    = container (dom clone_start).
Proof.
  assert (Hrun : Clone.refit (failing_host 200 50) clone_start
    = (Throw "layout failed", snd (Clone.refit (failing_host 200 50) clone_start)))
    by (vm_compute; reflexivity).
  split; [exact Hrun |].
  exact (clone_refit_throw_leaves_target (failing_host 200 50) clone_start _
           "layout failed" Hrun).
Defined.

(** ** What the in-place implementation does to the document *)

Global Instance restyled_refl n keys : Reflexive (restyled n keys).
Proof. intros w. unfold restyled. repeat split. Qed.

Global Instance restyled_trans n keys : Transitive (restyled n keys).
Proof.
  intros w1 w2 w3 (Hs & Hb & Hm & Hd & Hc & Hk) (Hs' & Hb' & Hm' & Hd' & Hc' & Hk').
  unfold restyled. repeat split; try congruence.
  - intros m Hne. rewrite Hm' by exact Hne. by apply Hm.
  - intros k Hin. rewrite Hk' by exact Hin. by apply Hk.
Qed.

Lemma restyled_with_style n keys k v w :
  k ∈ keys ->
  restyled n keys w (with_dom (alter_elem (with_style k v) (Node n)) w).
Proof.
  intros Hin. unfold restyled.
  destruct n; simpl; repeat split;
    try (intros m Hne; by destruct m);
    intros k' Hout; apply lookup_insert_ne; intros ->; contradiction.
Qed.

Lemma inplace_probe_world h t c mid w :
  snd (InPlace.probe h t c mid w) = at_size (Node t) mid w.
Proof.
  unfold InPlace.probe. by rewrite (probe_run _ _ (read_only_inplace_reads _ _ _)).
Qed.

Ltac in_keys := unfold inplace_keys; rewrite ?elem_of_cons, ?not_elem_of_cons, ?elem_of_nil; intuition congruence.

Lemma keeps_inplace_probe h t c keys mid :
  "fontSize" ∈ keys -> keeps (restyled t keys) (InPlace.probe h t c mid).
Proof.
  intros Hin w. rewrite inplace_probe_world. by apply restyled_with_style.
Qed.

Lemma keeps_set_style n keys k v :
  k ∈ keys -> keeps (restyled n keys) (set_style (Node n) k v).
Proof. intros Hin w. by apply restyled_with_style. Qed.

Lemma inplace_compute_restyled h t c minPx maxPx :
  keeps (restyled t inplace_keys) (InPlace.computeBestFontSize h t c minPx maxPx).
Proof.
  unfold InPlace.computeBestFontSize. cbv zeta.
  apply keeps_bind; [apply _ | apply keeps_layout; apply _ | intros cw].
  apply keeps_bind; [apply _ | apply keeps_layout; apply _ | intros ch].
  destruct ((cw <=? 0) || (ch <=? 0)); [apply keeps_ret; apply _ |].
  apply keeps_bind; [apply _ | apply keeps_set_style; in_keys | intros _].
  apply keeps_bind; [apply _ | apply keeps_set_style; in_keys | intros _].
  apply keeps_bind; [apply _ | apply keeps_set_style; in_keys | intros _].
  apply keeps_bind; [apply _ | | intros b; apply keeps_ret; apply _].
  apply keeps_search; try apply _.
  intros mid. apply keeps_inplace_probe. in_keys.
Qed.

(** X11 (what the in-place search touches).  However it ends,
    [computeBestFontSize] of the in-place implementation changes nothing
    but four inline style properties of the target, display, width,
    maxWidth and fontSize: the marker and the rest of [dataset], the
    content, the other element, [body] and the session are as they were. *)
Theorem inplace_compute_touches_four_styles
    (h : Host) (t c : node) (minPx maxPx : Q) (w : World) :
  restyled t inplace_keys w
    (snd (InPlace.computeBestFontSize h t c minPx maxPx w)).
Proof. apply inplace_compute_restyled. Qed.

(** The world in which the in-place loop starts. *)
Lemma inplace_compute_run h t c minPx maxPx w cw ch :
  clientWidth h (Node c) (dom w) = Ret cw ->
  clientHeight h (Node c) (dom w) = Ret ch ->
  0 < cw -> 0 < ch ->
  InPlace.computeBestFontSize h t c minPx maxPx w =
  match search (InPlace.probe h t c) (Z.max 1 (Qfloor minPx)) (Qfloor maxPx)
          (Z.max 1 (Qfloor minPx))
          (with_dom (alter_elem (with_style "maxWidth" (Percent 100)) (Node t))
          (with_dom (alter_elem (with_style "width" (Percent 100)) (Node t))
          (with_dom (alter_elem (with_style "display" (Keyword "block")) (Node t))
             w))) with
  | (Ret best, w') => (Ret (inject_Z (best - 10)), w')
  | (Throw e, w') => (Throw e, w')
  end.
Proof.
  intros Hcw Hch Hcwpos Hchpos.
  assert (Hguard : (cw <=? 0) || (ch <=? 0) = false).
  { apply orb_false_iff. rewrite !Z.leb_gt. lia. }
  unfold InPlace.computeBestFontSize. run. rewrite Hcw. run.
  rewrite Hch, Hguard. run. reflexivity.
Qed.

(** X12 (the in-place search does not restore the layout styles).  Once the
    guard is passed, [computeBestFontSize] of the in-place implementation
    leaves the target with display block, width 100% and maxWidth 100%,
    whether it returns or throws. *)
Theorem inplace_compute_leaves_layout_styles
    (h : Host) (t c : node) (minPx maxPx : Q) (w : World) (cw ch : Z) :
  clientWidth h (Node c) (dom w) = Ret cw ->
  clientHeight h (Node c) (dom w) = Ret ch ->
  0 < cw -> 0 < ch ->
  style (get_node t (dom (snd (InPlace.computeBestFontSize h t c minPx maxPx w))))
    !! "display" = Some (Keyword "block") /\
  style (get_node t (dom (snd (InPlace.computeBestFontSize h t c minPx maxPx w))))
    !! "width" = Some (Percent 100) /\
  style (get_node t (dom (snd (InPlace.computeBestFontSize h t c minPx maxPx w))))
    !! "maxWidth" = Some (Percent 100).
Proof.
  intros Hcw Hch Hcwpos Hchpos.
  rewrite (inplace_compute_run h t c minPx maxPx w cw ch) by assumption.
  match goal with
  | |- context [search ?p ?lo ?hi ?b0 ?w1] =>
      pose proof (keeps_search (restyled t ["fontSize"]) p lo hi b0
                    (fun mid => keeps_inplace_probe h t c ["fontSize"] mid
                                  ltac:(in_keys)) w1)
        as (_ & _ & _ & _ & _ & Hk);
      destruct (search p lo hi b0 w1) as [[b | e] w']
  end; simpl in Hk |- *;
    rewrite !Hk by in_keys; destruct t; simpl;
    repeat split;
    repeat first [ by rewrite lookup_insert_eq | rewrite lookup_insert_ne by done ].
Qed.

Lemma inplace_compute_leaves_layout_styles_witness :
  clientWidth (failing_host 200 50) (Node ContainerEl) (dom inplace_start) = Ret 200 /\
  clientHeight (failing_host 200 50) (Node ContainerEl) (dom inplace_start) = Ret 50 /\
  0 < 200 /\ 0 < 50 /\
  style (get_node TargetEl
           (dom (snd (InPlace.computeBestFontSize (failing_host 200 50)
                        TargetEl ContainerEl 8 512 inplace_start))))
    !! "display" = Some (Keyword "block") /\
  style (get_node TargetEl
           (dom (snd (InPlace.computeBestFontSize (failing_host 200 50)
                        TargetEl ContainerEl 8 512 inplace_start))))
    !! "width" = Some (Percent 100) /\
  style (get_node TargetEl
           (dom (snd (InPlace.computeBestFontSize (failing_host 200 50)
                        TargetEl ContainerEl 8 512 inplace_start))))
    !! "maxWidth" = Some (Percent 100).
Proof.
  split; [reflexivity |]. split; [reflexivity |].
  split; [lia |]. split; [lia |].
  apply (inplace_compute_leaves_layout_styles (failing_host 200 50) TargetEl
           ContainerEl 8 512 inplace_start 200 50); reflexivity || lia.
Defined.

Lemma applied_size_at_size n f mid w :
  applied_size n (with_sess f (at_size (Node n) mid w)) = Some (Px (Z.max 1 mid)).
Proof. destruct n; unfold applied_size; simpl; by rewrite lookup_insert_eq. Qed.

(** X13 (a failed refit of the in-place implementation).  When [refit] of the
    in-place implementation throws after the guard was passed, the target
    is left at the size of the probe that threw, a size between
    [max(1, floor(minPx))] and [floor(maxPx)], and its [dataset] is as it
    was: the marker does not tell the size that is now applied. *)
Theorem inplace_refit_throw_leaves_probed_size
    (h : Host) (w w' : World) (cw ch : Z) (e : string) :
  busy (sess w) = false ->
  clientWidth h (Node (containerEl (sess w))) (dom w) = Ret cw ->
  clientHeight h (Node (containerEl (sess w))) (dom w) = Ret ch ->
  0 < cw -> 0 < ch ->
  InPlace.refit h w = (Throw e, w') ->
  (exists mid,
     Z.max 1 (Qfloor (to_number (opts (sess w) !!! "minPx"))) <= mid
       <= Qfloor (to_number (opts (sess w) !!! "maxPx")) /\
     applied_size (targetEl (sess w)) w' = Some (Px mid)) /\
  dataset (get_node (targetEl (sess w)) (dom w'))
    = dataset (get_node (targetEl (sess w)) (dom w)).
Proof.
  intros Hidle Hcw Hch Hcwpos Hchpos. unfold InPlace.refit.
  rewrite refit_idle_run, cycle_run by assumption. unfold measurement.
  pose proof (inplace_compute_restyled h (targetEl (sess w)) (containerEl (sess w))
                (to_number (opts (sess w) !!! "minPx"))
                (to_number (opts (sess w) !!! "maxPx"))
                (with_sess (set_busy true) w)) as (_ & _ & _ & Hdata & _).
  rewrite (inplace_compute_run h _ _ _ _ (with_sess (set_busy true) w) cw ch)
    in Hdata |- * by assumption.
  match goal with
  | |- context [search ?p ?lo ?hi ?b0 ?w1] =>
      destruct (search p lo hi b0 w1) as [[b | e0] w2] eqn:Hs
  end; [discriminate |].
  intros [= <- <-]. split; [| exact Hdata].
  apply search_throw_at with (n := Z.to_nat (Qfloor (to_number (opts (sess w) !!! "maxPx")) + 1 - Z.max 1 (Qfloor (to_number (opts (sess w) !!! "minPx"))))) in Hs
    as (mid & w0 & Hmid & Hthrow); [| reflexivity].
  exists mid. split; [exact Hmid |].
  assert (Hw2 : w2 = at_size (Node (targetEl (sess w))) mid w0)
    by (rewrite <- inplace_probe_world with (h := h) (c := containerEl (sess w));
        by rewrite Hthrow).
  rewrite Hw2, applied_size_at_size. f_equal. f_equal. lia.
Qed.

Lemma inplace_refit_throw_leaves_probed_size_witness :
  busy (sess inplace_start) = false /\
  clientWidth (failing_host 200 50) (Node (containerEl (sess inplace_start)))
    (dom inplace_start) = Ret 200 /\
  clientHeight (failing_host 200 50) (Node (containerEl (sess inplace_start)))
    (dom inplace_start) = Ret 50 /\
  0 < 200 /\ 0 < 50 /\
  InPlace.refit (failing_host 200 50) inplace_start
    = (Throw "layout failed", with_sess (set_busy false) inplace_torn) /\
  (exists mid,
     Z.max 1 (Qfloor (to_number (opts (sess inplace_start) !!! "minPx"))) <= mid
       <= Qfloor (to_number (opts (sess inplace_start) !!! "maxPx")) /\
     applied_size (targetEl (sess inplace_start))
       (with_sess (set_busy false) inplace_torn) = Some (Px mid)) /\
  dataset (get_node (targetEl (sess inplace_start))
             (dom (with_sess (set_busy false) inplace_torn)))
    = dataset (get_node (targetEl (sess inplace_start)) (dom inplace_start)).
Proof.
  assert (Hrun : InPlace.refit (failing_host 200 50) inplace_start
    = (Throw "layout failed", with_sess (set_busy false) inplace_torn))
    by (vm_compute; reflexivity).
  split; [reflexivity |]. split; [reflexivity |]. split; [reflexivity |].
  split; [lia |]. split; [lia |]. split; [exact Hrun |].
  apply (inplace_refit_throw_leaves_probed_size (failing_host 200 50)
           inplace_start _ 200 50 "layout failed");
    reflexivity || lia || exact Hrun.
Defined.

(** ** Refitting twice: the clone implementation *)

Global Instance relaid_refl n keys : Reflexive (relaid n keys).
Proof. intros d. unfold relaid. repeat split. Qed.

Global Instance relaid_trans n keys : Transitive (relaid n keys).
Proof.
  intros d1 d2 d3 (Hb & Hm & Hc & Hk) (Hb' & Hm' & Hc' & Hk').
  unfold relaid. repeat split; try congruence.
  - intros m Hne. rewrite Hm' by exact Hne. by apply Hm.
  - intros k Hin. rewrite Hk' by exact Hin. by apply Hk.
Qed.

Lemma relaid_sym n keys d d' : relaid n keys d d' -> relaid n keys d' d.
Proof.
  intros (Hb & Hm & Hc & Hk). unfold relaid. repeat split; try congruence.
  - intros m Hne. symmetry. by apply Hm.
  - intros k Hin. symmetry. by apply Hk.
Qed.

Lemma relaid_with_style n keys k v d :
  k ∈ keys -> relaid n keys d (alter_elem (with_style k v) (Node n) d).
Proof.
  intros Hin. unfold relaid.
  destruct n; simpl; repeat split;
    try (intros m Hne; by destruct m);
    intros k' Hout; apply lookup_insert_ne; intros ->; contradiction.
Qed.

Lemma relaid_with_data n keys k q d :
  relaid n keys d (alter_elem (with_data k q) (Node n) d).
Proof.
  unfold relaid. destruct n; simpl; repeat split; intros m Hne; by destruct m.
Qed.

Lemma relaid_of_restyled n keys w w' :
  restyled n keys w w' -> relaid n keys (dom w) (dom w').
Proof. intros (_ & Hb & Hm & _ & Hc & Hk). by repeat split. Qed.

(** The document after a cycle applied [best]. *)
Lemma relaid_applied n keys best d d' :
  "fontSize" ∈ keys -> relaid n keys d d' ->
  relaid n keys d
    (alter_elem (with_data "fittedFontPx" best) (Node n)
       (alter_elem (with_style "fontSize" (Px (Z.max 1 (Qfloor best)))) (Node n) d')).
Proof.
  intros Hin Hd. transitivity d'; [exact Hd |].
  etransitivity; [by apply relaid_with_style | apply relaid_with_data].
Qed.

(** The style of a clone at a probe does not depend on the font size of the
    element it was cloned from. *)
Lemma measure_style_at_size (m : Z) (st st' : gmap string css) :
  (forall k, k <> "fontSize" -> st' !! k = st !! k) ->
  <["fontSize" := Px (Z.max 1 m)]> (Clone.measure_style st')
  = <["fontSize" := Px (Z.max 1 m)]> (Clone.measure_style st).
Proof.
  intros Hk. apply map_eq. intros k. unfold Clone.measure_style.
  rewrite !lookup_insert. repeat case_decide; try reflexivity.
  by apply Hk.
Qed.

Lemma clone_setup_index rw w :
  length (box_children
            (body (dom (with_dom (with_body (fun bs => bs ++ [Clone.measure_box rw])) w))
             !!! length (body (dom w)))) = 0%nat.
Proof. simpl. by rewrite list_lookup_total_middle. Qed.

Lemma clone_setup_world rw t w :
  with_dom (with_body
    (alter (alter_box (fun cs =>
              cs ++ [measure_clone
                       (get_node t
                          (dom (with_dom (with_body
                                  (fun bs => bs ++ [Clone.measure_box rw])) w)))]))
       (length (body (dom w)))))
    (with_dom (with_body (fun bs => bs ++ [Clone.measure_box rw])) w)
  = clone_loop_world rw t w.
Proof.
  unfold clone_loop_world, with_dom, with_body; simpl.
  rewrite alter_last. by destruct t.
Qed.

(** How [computeBestFontSize] of the clone implementation runs once its
    first three reads returned and the container has an area. *)
Lemma clone_compute_run h t c minPx maxPx w cw ch rw :
  clientWidth h (Node c) (dom w) = Ret cw ->
  clientHeight h (Node c) (dom w) = Ret ch ->
  (cw <=? 0) || (ch <=? 0) = false ->
  rectWidth h (Node c) (dom w) = Ret rw ->
  Clone.computeBestFontSize h t c minPx maxPx w =
  match search (Clone.probe h (Probe (length (body (dom w))) 0) ch)
          (Z.max 1 (Qfloor minPx)) (Qfloor maxPx) (Z.max 1 (Qfloor minPx))
          (clone_loop_world rw t w) with
  | (Ret best, w') =>
      (Ret (inject_Z best), with_dom (with_body (delete (length (body (dom w))))) w')
  | (Throw e, w') => (Throw e, w')
  end.
Proof.
  intros Hcw Hch Hguard Hrw.
  unfold Clone.computeBestFontSize. run. rewrite Hcw. run.
  rewrite Hch, Hguard.
  rewrite bind_run, makeMeasureBox_run, Hrw.
  rewrite bind_run, cloneForMeasure_world, clone_setup_index, clone_setup_world.
  rewrite bind_run.
  destruct (search _ _ _ _ (clone_loop_world rw t w)) as [[b | e] w']; reflexivity.
Qed.

Lemma clone_probe_answer h i ch mid w :
  fst (Clone.probe h (Probe i 0) ch mid w) =
  match scrollHeight h (Probe i 0) (dom (at_size (Probe i 0) mid w)) with
  | Ret sh => Ret (sh <=? ch)
  | Throw e => Throw e
  end.
Proof.
  unfold Clone.probe. rewrite (probe_run _ _ (read_only_clone_reads _ _ _)).
  run. simpl. by destruct (scrollHeight _ _ _).
Qed.

(** At a probe, two loops of the clone implementation started on documents
    that differ in [dataset] and in the font size of the target get the
    same answer from an engine for which the height of a clone is local. *)
Lemma clone_probe_sim h t ch rw mid wA wB :
  probe_local h ->
  relaid t ["fontSize"] (dom wA) (dom wB) ->
  fst (Clone.probe h (Probe (length (body (dom wA))) 0) ch mid
         (clone_loop_world rw t wA))
  = fst (Clone.probe h (Probe (length (body (dom wA))) 0) ch mid
           (clone_loop_world rw t wB)).
Proof.
  intros Hlocal (Hbody & _ & Hcontent & Hstyle).
  rewrite !clone_probe_answer.
  rewrite (Hlocal (length (body (dom wA))) 0%nat
             (dom (at_size (Probe (length (body (dom wA))) 0) mid
                     (clone_loop_world rw t wA)))
             (dom (at_size (Probe (length (body (dom wA))) 0) mid
                     (clone_loop_world rw t wB)))); [reflexivity | | |];
    unfold at_size, clone_loop_world, with_dom, with_body; simpl;
    rewrite Hbody, !alter_last, !list_lookup_total_middle by reflexivity;
    simpl; try reflexivity.
  - symmetry. apply measure_style_at_size. intros k Hk. apply Hstyle.
    rewrite list_elem_of_singleton. exact Hk.
  - symmetry. exact Hcontent.
Qed.

(** Two calls of [computeBestFontSize] of the clone implementation on such
    documents return the same size or throw the same exception. *)
Lemma clone_compute_sim h t c minPx maxPx wA wB :
  probe_local h ->
  container_independent h t c ["fontSize"] ->
  relaid t ["fontSize"] (dom wA) (dom wB) ->
  fst (Clone.computeBestFontSize h t c minPx maxPx wA)
  = fst (Clone.computeBestFontSize h t c minPx maxPx wB).
Proof.
  intros Hlocal Hcont Hrel.
  destruct (Hcont _ _ Hrel) as (Hcw & Hch & Hrw).
  destruct (clientWidth h (Node c) (dom wA)) as [cw | e] eqn:HcwA;
    [| unfold Clone.computeBestFontSize; run; by rewrite HcwA, <- Hcw].
  destruct (clientHeight h (Node c) (dom wA)) as [ch | e] eqn:HchA;
    [| unfold Clone.computeBestFontSize; run; rewrite HcwA, <- Hcw; run;
       by rewrite HchA, <- Hch].
  destruct ((cw <=? 0) || (ch <=? 0)) eqn:Hguard;
    [unfold Clone.computeBestFontSize; run; rewrite HcwA, <- Hcw; run;
     by rewrite HchA, <- Hch, Hguard |].
  destruct (rectWidth h (Node c) (dom wA)) as [rw | e] eqn:HrwA;
    [| unfold Clone.computeBestFontSize; run; rewrite HcwA, <- Hcw; run;
       rewrite HchA, <- Hch, Hguard, !bind_run, !makeMeasureBox_run;
       by rewrite HrwA, <- Hrw].
  rewrite (clone_compute_run h t c minPx maxPx wA cw ch rw) by assumption.
  rewrite (clone_compute_run h t c minPx maxPx wB cw ch rw) by congruence.
  destruct Hrel as (Hbody & Hrel). rewrite Hbody.
  destruct (search_sim
              (fun w1 w2 => forall mid,
                 fst (Clone.probe h (Probe (length (body (dom wA))) 0) ch mid w1)
                 = fst (Clone.probe h (Probe (length (body (dom wA))) 0) ch mid w2))
              (Clone.probe h (Probe (length (body (dom wA))) 0) ch)
              (Clone.probe h (Probe (length (body (dom wA))) 0) ch))
    with (n := Z.to_nat (Qfloor maxPx + 1 - Z.max 1 (Qfloor minPx)))
         (lo := Z.max 1 (Qfloor minPx)) (hi := Qfloor maxPx)
         (best := Z.max 1 (Qfloor minPx))
         (w1 := clone_loop_world rw t wA) (w2 := clone_loop_world rw t wB)
    as [Hfst _]; [| reflexivity | |].
  - intros mid w1 w2 HR. split; [apply HR |].
    intros mid'. rewrite !clone_probe_world.
    unfold Clone.probe.
    rewrite !(probe_forgets _ _ (read_only_clone_reads _ _ _)). apply HR.
  - intros mid. apply clone_probe_sim; [exact Hlocal |]. by split.
  - destruct (search _ _ _ _ (clone_loop_world rw t wA)) as [[b | e] w1],
             (search _ _ _ _ (clone_loop_world rw t wB)) as [[b' | e'] w2];
      simpl in *; congruence.
Qed.

Lemma clone_measurement_returns h w best wm :
  measurement (Clone.computeBestFontSize h) w = (Ret best, wm) ->
  wm = with_sess (set_busy true) w.
Proof.
  unfold measurement. intros Hrun.
  pose proof (clone_compute_shape h (targetEl (sess w)) (containerEl (sess w))
                (to_number (opts (sess w) !!! "minPx"))
                (to_number (opts (sess w) !!! "maxPx"))
                (with_sess (set_busy true) w)) as Hshape.
  by rewrite Hrun in Hshape.
Qed.

Lemma applied_twice n k q v d :
  alter_elem (with_data k q) (Node n)
    (alter_elem (with_style "fontSize" v) (Node n)
       (alter_elem (with_data k q) (Node n)
          (alter_elem (with_style "fontSize" v) (Node n) d)))
  = alter_elem (with_data k q) (Node n)
      (alter_elem (with_style "fontSize" v) (Node n) d).
Proof.
  destruct n; simpl; f_equal; unfold with_data, with_style; simpl;
    by rewrite !insert_insert_eq.
Qed.

Lemma fitted_twice best w : fitted best (fitted best w) = fitted best w.
Proof.
  unfold fitted, with_sess, with_dom; simpl. f_equal. apply applied_twice.
Qed.

(** X14 (refitting twice, clone implementation).  If the size of the
    container does not depend on the font size and the [dataset] of the
    target, and the height of a clone depends only on its box and on its own
    style and content, then a second [refit] right after a [refit] that
    returned changes nothing: it returns, and the world, with the font size
    applied and the marker, is the one the first refit left. *)
Theorem clone_refit_twice (h : Host) (w w1 : World) :
  busy (sess w) = false ->
  probe_local h ->
  container_independent h (targetEl (sess w)) (containerEl (sess w)) ["fontSize"] ->
  Clone.refit h w = (Ret tt, w1) ->
  Clone.refit h w1 = (Ret tt, w1).
Proof.
  intros Hidle Hlocal Hcont. unfold Clone.refit.
  rewrite refit_idle_run, cycle_run by assumption.
  destruct (measurement (Clone.computeBestFontSize h) w) as [[best | e] wm] eqn:Hm;
    [| discriminate].
  pose proof (clone_measurement_returns _ _ _ _ Hm) as ->.
  intros [= <-]. change (with_sess (set_busy false) _) with (fitted best w).
  rewrite refit_idle_run, cycle_run by reflexivity.
  assert (Hm2 : measurement (Clone.computeBestFontSize h) (fitted best w)
                = (Ret best, with_sess (set_busy true) (fitted best w))).
  { destruct (measurement (Clone.computeBestFontSize h) (fitted best w))
      as [r2 wm2] eqn:Hm2.
    assert (Hr2 : r2 = Ret best).
    { pose proof (clone_compute_sim h (targetEl (sess w)) (containerEl (sess w))
                    (to_number (opts (sess w) !!! "minPx"))
                    (to_number (opts (sess w) !!! "maxPx"))
                    (with_sess (set_busy true) w)
                    (with_sess (set_busy true) (fitted best w))
                    Hlocal Hcont) as Hsim.
      unfold measurement in Hm, Hm2. simpl in Hm2. rewrite Hm in Hsim.
      rewrite Hm2 in Hsim. simpl in Hsim. symmetry. apply Hsim.
      apply relaid_applied; [by apply list_elem_of_singleton | reflexivity]. }
    subst r2. by rewrite (clone_measurement_returns _ _ _ _ Hm2). }
  rewrite Hm2.
  change (with_sess (set_busy false) _) with (fitted best (fitted best w)).
  by rewrite fitted_twice.
Qed.

Lemma probe_local_line_host cw ch : probe_local (line_host cw ch).
Proof.
  intros i j d d' _ Hstyle _. unfold line_host, scrollHeight, font_px.
  by rewrite Hstyle.
Qed.

Lemma container_independent_line_host cw ch t c keys :
  container_independent (line_host cw ch) t c keys.
Proof. intros d d' _. repeat split. Qed.

Lemma clone_refit_twice_witness :
  busy (sess clone_start) = false /\
  probe_local (line_host 200 50) /\
  container_independent (line_host 200 50) (targetEl (sess clone_start))
    (containerEl (sess clone_start)) ["fontSize"] /\
  Clone.refit (line_host 200 50) clone_start = (Ret tt, fitted 50 clone_start) /\
  Clone.refit (line_host 200 50) (fitted 50 clone_start)
    = (Ret tt, fitted 50 clone_start).
Proof.
  assert (Hrun : Clone.refit (line_host 200 50) clone_start
                 = (Ret tt, fitted 50 clone_start)) by (vm_compute; reflexivity).
  split; [reflexivity |].
  split; [apply probe_local_line_host |].
  split; [apply container_independent_line_host |].
  split; [exact Hrun |].
  exact (clone_refit_twice (line_host 200 50) clone_start (fitted 50 clone_start)
           eq_refl (probe_local_line_host 200 50)
           (container_independent_line_host 200 50 _ _ _) Hrun).
Defined.

(** ** Refitting twice: the in-place implementation *)

Lemma relaid_weaken n keys keys' d d' :
  (forall k, k ∈ keys -> k ∈ keys') ->
  relaid n keys d d' -> relaid n keys' d d'.
Proof.
  intros Hsub (Hb & Hm & Hc & Hk). unfold relaid. repeat split; try assumption.
  intros k Hout. apply Hk. intros Hin. apply Hout. by apply Hsub.
Qed.

(** Writing the same value to a property on both sides removes it from what
    the two documents differ in. *)
Lemma relaid_set_both n k keys v d d' :
  relaid n (k :: keys) d d' ->
  relaid n keys (alter_elem (with_style k v) (Node n) d)
    (alter_elem (with_style k v) (Node n) d').
Proof.
  intros (Hb & Hm & Hc & Hk). unfold relaid.
  destruct n; simpl in *; repeat split; try assumption;
    try (intros m Hne; destruct m; [done || by apply (Hm TargetEl)
                                   | done || by apply (Hm ContainerEl)]);
    intros k' Hout; rewrite !lookup_insert; case_decide; try reflexivity;
    apply Hk; rewrite not_elem_of_cons; by split.
Qed.

Lemma inplace_probe_answer h t c mid w :
  fst (InPlace.probe h t c mid w) =
  match scrollHeight h (Node t) (dom (at_size (Node t) mid w)) with
  | Throw e => Throw e
  | Ret _ =>
      match scrollWidth h (Node t) (dom (at_size (Node t) mid w)) with
      | Throw e => Throw e
      | Ret sw =>
          match clientWidth h (Node c) (dom (at_size (Node t) mid w)) with
          | Throw e => Throw e
          | Ret cw =>
              if sw <=? cw then
                match scrollHeight h (Node t) (dom (at_size (Node t) mid w)) with
                | Throw e => Throw e
                | Ret sh =>
                    match clientHeight h (Node c) (dom (at_size (Node t) mid w)) with
                    | Throw e => Throw e
                    | Ret ch => Ret (sh <=? ch)
                    end
                end
              else Ret false
          end
      end
  end.
Proof.
  unfold InPlace.probe. rewrite (probe_run _ _ (read_only_inplace_reads _ _ _)).
  generalize (at_size (Node t) mid w). intros W.
  unfold InPlace.elementFits. run. simpl.
  destruct (scrollHeight h (Node t) _) as [sh0 | e] eqn:Hsh; [| reflexivity]. run.
  destruct (scrollWidth h (Node t) _) as [sw | e]; [| reflexivity]. run.
  destruct (clientWidth h (Node c) _) as [cw | e]; [| reflexivity].
  destruct (sw <=? cw); [| reflexivity]. run. rewrite Hsh. run.
  destruct (clientHeight h (Node c) _) as [ch | e]; reflexivity.
Qed.

Lemma inplace_probe_sim h t c mid wA wB :
  container_independent h t c inplace_keys ->
  dataset_free h t ->
  relaid t ["fontSize"] (dom wA) (dom wB) ->
  fst (InPlace.probe h t c mid wA) = fst (InPlace.probe h t c mid wB).
Proof.
  intros Hcont Hfree Hrel. rewrite !inplace_probe_answer.
  assert (Hprobe : relaid t [] (dom (at_size (Node t) mid wA))
                     (dom (at_size (Node t) mid wB)))
    by (by apply relaid_set_both).
  destruct (Hfree _ _ Hprobe) as [-> ->].
  destruct (Hcont _ _ (relaid_weaken t [] inplace_keys _ _
                         ltac:(intros k Hk; by apply elem_of_nil in Hk) Hprobe))
    as (-> & -> & _).
  reflexivity.
Qed.

Lemma inplace_compute_sim h t c minPx maxPx wA wB :
  container_independent h t c inplace_keys ->
  dataset_free h t ->
  relaid t inplace_keys (dom wA) (dom wB) ->
  fst (InPlace.computeBestFontSize h t c minPx maxPx wA)
  = fst (InPlace.computeBestFontSize h t c minPx maxPx wB).
Proof.
  intros Hcont Hfree Hrel.
  destruct (Hcont _ _ Hrel) as (Hcw & Hch & _).
  destruct (clientWidth h (Node c) (dom wA)) as [cw | e] eqn:HcwA;
    [| unfold InPlace.computeBestFontSize; run; by rewrite HcwA, <- Hcw].
  destruct (clientHeight h (Node c) (dom wA)) as [ch | e] eqn:HchA;
    [| unfold InPlace.computeBestFontSize; run; rewrite HcwA, <- Hcw; run;
       by rewrite HchA, <- Hch].
  destruct ((cw <=? 0) || (ch <=? 0)) eqn:Hguard;
    [unfold InPlace.computeBestFontSize; run; rewrite HcwA, <- Hcw; run;
     by rewrite HchA, <- Hch, Hguard |].
  apply orb_false_iff in Hguard as [Hcwpos Hchpos].
  apply Z.leb_gt in Hcwpos, Hchpos.
  rewrite (inplace_compute_run h t c minPx maxPx wA cw ch) by assumption.
  rewrite (inplace_compute_run h t c minPx maxPx wB cw ch) by congruence.
  match goal with
  | |- fst (match search ?p ?PL ?PH ?PB ?WA with _ => _ end)
       = fst (match search _ _ _ _ ?WB with _ => _ end) =>
      destruct (search_sim
                  (fun wa wb => relaid t ["fontSize"] (dom wa) (dom wb)) p p)
        with (n := Z.to_nat (PH + 1 - PL)) (lo := PL) (hi := PH)
             (best := PB) (w1 := WA) (w2 := WB) as [Hfst _];
        [| reflexivity | |
         destruct (search p PL PH PB WA) as [[b | e] wa],
                  (search p PL PH PB WB) as [[b' | e'] wb];
           simpl in *; congruence ]
  end.
  - intros mid wa wb HR. split; [by apply inplace_probe_sim |].
    rewrite !inplace_probe_world.
    apply relaid_weaken with (keys := []);
      [intros k Hk; by apply elem_of_nil in Hk | by apply relaid_set_both].
  - simpl. do 3 apply relaid_set_both. exact Hrel.
Qed.

(** X15 (refitting twice, in-place implementation).  If the size of the
    container does not depend on the [dataset] of the target nor on its
    display, width, maxWidth and fontSize, and the scroll size of the target
    does not depend on its [dataset], then a second [refit] right after a
    [refit] that returned returns as well and leaves the same font size
    applied and the same marker. *)
Theorem inplace_refit_twice (h : Host) (w w1 : World) :
  busy (sess w) = false ->
  container_independent h (targetEl (sess w)) (containerEl (sess w)) inplace_keys ->
  dataset_free h (targetEl (sess w)) ->
  InPlace.refit h w = (Ret tt, w1) ->
  fst (InPlace.refit h w1) = Ret tt /\
  applied_size (targetEl (sess w)) (snd (InPlace.refit h w1))
    = applied_size (targetEl (sess w)) w1 /\
  marker (targetEl (sess w)) (snd (InPlace.refit h w1))
    = marker (targetEl (sess w)) w1.
Proof.
  intros Hidle Hcont Hfree. unfold InPlace.refit.
  rewrite refit_idle_run, cycle_run by assumption.
  destruct (measurement (InPlace.computeBestFontSize h) w) as [[best | e] wm] eqn:Hm;
    [| discriminate].
  intros [= <-].
  pose proof (inplace_compute_restyled h (targetEl (sess w)) (containerEl (sess w))
                (to_number (opts (sess w) !!! "minPx"))
                (to_number (opts (sess w) !!! "maxPx"))
                (with_sess (set_busy true) w)) as Hkept.
  unfold measurement in Hm. rewrite Hm in Hkept. simpl in Hkept.
  pose proof Hkept as (Hsess & _).
  rewrite refit_idle_run, cycle_run by reflexivity.
  unfold measurement. simpl sess.
  assert (Ht : targetEl (set_busy false (sess wm)) = targetEl (sess w))
    by (by rewrite Hsess).
  assert (Hc : containerEl (set_busy false (sess wm)) = containerEl (sess w))
    by (by rewrite Hsess).
  assert (Ho : opts (set_busy false (sess wm)) = opts (sess w))
    by (by rewrite Hsess).
  rewrite Ht, Hc, Ho.
  match goal with
  | |- context [InPlace.computeBestFontSize h ?t ?c ?a ?b ?WB] =>
      pose proof (inplace_compute_sim h t c a b (with_sess (set_busy true) w) WB
                    Hcont Hfree) as Hsim;
      destruct (InPlace.computeBestFontSize h t c a b WB) as [r2 wm2]
  end.
  rewrite Hm in Hsim. simpl in Hsim. rewrite <- Hsim.
  - simpl. rewrite !applied_after_cycle, !marker_after_cycle. by repeat split.
  - apply relaid_applied; [unfold inplace_keys; rewrite !elem_of_cons; tauto |].
    by apply relaid_of_restyled in Hkept.
Qed.

Lemma dataset_free_line_host cw ch t : dataset_free (line_host cw ch) t.
Proof.
  intros d d' (_ & _ & _ & Hk). unfold line_host, scrollWidth, scrollHeight.
  assert (Hfont : font_px (get_elem (Node t) d) = font_px (get_elem (Node t) d')).
  { unfold font_px. simpl. rewrite Hk; [reflexivity |]. intros Hin. by apply elem_of_nil in Hin. }
  by rewrite Hfont.
Qed.

Lemma inplace_refit_twice_witness :
  busy (sess inplace_start) = false /\
  container_independent (line_host 200 50) (targetEl (sess inplace_start))
    (containerEl (sess inplace_start)) inplace_keys /\
  dataset_free (line_host 200 50) (targetEl (sess inplace_start)) /\
  InPlace.refit (line_host 200 50) inplace_start
    = (Ret tt, snd (InPlace.refit (line_host 200 50) inplace_start)) /\
  fst (InPlace.refit (line_host 200 50)
         (snd (InPlace.refit (line_host 200 50) inplace_start))) = Ret tt /\
  applied_size (targetEl (sess inplace_start))
    (snd (InPlace.refit (line_host 200 50)
            (snd (InPlace.refit (line_host 200 50) inplace_start))))
    = applied_size (targetEl (sess inplace_start))
        (snd (InPlace.refit (line_host 200 50) inplace_start)) /\
  marker (targetEl (sess inplace_start))
    (snd (InPlace.refit (line_host 200 50)
            (snd (InPlace.refit (line_host 200 50) inplace_start))))
    = marker (targetEl (sess inplace_start))
        (snd (InPlace.refit (line_host 200 50) inplace_start)).
Proof.
  assert (Hrun : InPlace.refit (line_host 200 50) inplace_start
    = (Ret tt, snd (InPlace.refit (line_host 200 50) inplace_start)))
    by (vm_compute; reflexivity).
  split; [reflexivity |].
  split; [apply container_independent_line_host |].
  split; [apply dataset_free_line_host |].
  split; [exact Hrun |].
  exact (inplace_refit_twice (line_host 200 50) inplace_start _ eq_refl
           (container_independent_line_host 200 50 _ _ _)
           (dataset_free_line_host 200 50 _) Hrun).
Defined.

(** ** The loop, for an oracle that need not be monotone *)

Section BoundarySpec.

Variable probe : Z -> M bool.
Variable fits : Z -> bool.
Variable I : World -> Prop.
Hypothesis probe_fits :
  forall mid w, I w -> exists w', probe mid w = (Ret (fits mid), w') /\ I w'.
Variables lo0 hi0 : Z.

(** The size just above [hi] does not fit unless [hi] is still the upper
    end; [best] is still the lower end, with [lo] not yet moved, or the size
    just below [lo], which fits; and the range has not been crossed. *)
Let edge (lo hi best : Z) : Prop :=
  lo0 <= lo /\ hi <= hi0 /\
  ((lo = lo0 /\ best = lo0) \/
   (best = lo - 1 /\ lo0 <= best /\ fits best = true)) /\
  (hi = hi0 \/ fits (hi + 1) = false) /\
  (lo <= hi + 1 \/ (lo = lo0 /\ hi = hi0)).

Lemma edge_exit lo hi best :
  edge lo hi best -> hi < lo -> boundary fits lo0 hi0 best.
Proof.
  intros (Hlo & Hhi & Hbest & Habove & Hcross) Hlt.
  destruct Hbest as [[-> ->] | (-> & Hrange & Hfit)].
  - right. split; [reflexivity |].
    destruct Hcross as [Hle | [_ ->]]; [| by left].
    destruct Habove as [-> | Hno]; [left; lia |].
    right. by replace lo0 with (hi + 1) by lia.
  - left. assert (hi = lo - 1) as -> by lia.
    repeat split; try lia; assumption.
Qed.

Lemma search_edge (n : nat) :
  forall lo hi best w,
    (Z.to_nat (hi + 1 - lo) <= n)%nat -> I w -> edge lo hi best ->
    exists b w', search probe lo hi best w = (Ret b, w') /\
                 boundary fits lo0 hi0 b.
Proof.
  induction n as [| n IH]; intros lo hi best w Hn Hw Hedge;
    rewrite search_eq; case_decide as Hle; try lia;
    try (exists best, w; split; [reflexivity |];
         apply (edge_exit lo hi); [assumption | lia]).
  assert (lo <= (lo + hi) / 2 <= hi)
    by (split; [apply Z.div_le_lower_bound | apply Z.div_le_upper_bound]; lia).
  destruct (probe_fits ((lo + hi) / 2) w Hw) as (w' & -> & Hw').
  destruct Hedge as (Hlo & Hhi & Hbest & Habove & Hcross).
  destruct (fits ((lo + hi) / 2)) eqn:Hfit.
  - apply IH; [lia | assumption |].
    repeat split; try lia; [| assumption].
    right. repeat split; try lia. assumption.
  - apply IH; [lia | assumption |].
    repeat split; try lia; [assumption |].
    right. by replace ((lo + hi) / 2 - 1 + 1) with ((lo + hi) / 2) by lia.
Qed.

Lemma search_boundary w :
  I w ->
  exists b w', search probe lo0 hi0 lo0 w = (Ret b, w') /\
               boundary fits lo0 hi0 b.
Proof.
  intros Hw. apply (search_edge (Z.to_nat (hi0 + 1 - lo0))); [lia | assumption |].
  repeat split; lia.
Qed.

End BoundarySpec.

(** X16 (the result is where the oracle's answers change).  Take a range
    from 1 up and below [2^52].  In the in-place implementation, if the
    probes answer as an oracle [fits], monotone or not, the loop of the
    source, started with [best = lo], is over after some number of probes,
    as the loop on integers is, and it returns a size [b] of the range that
    fits and is followed by a size that does not fit, or is the upper end of
    the range; or it returns [lo], when the range is empty or [lo] does not
    fit.  The same holds of the clone implementation, under the same
    assumption on its own probes. *)
Theorem search_result_is_boundary
    (h : Host) (t c : node) (p : elem) (ch : Z) (lo hi : Z) (w : World) :
  1 <= lo ->
  exact_size hi ->
  (forall fits : Z -> bool,
     (forall mid, fst (InPlace.probe h t c mid w) = Ret (fits mid)) ->
     exists n b w',
       search_double n (InPlace.probe h t c) lo hi lo w = Some (Ret b, w') /\
       search (InPlace.probe h t c) lo hi lo w = (Ret b, w') /\
       boundary fits lo hi b) /\
  (forall fits : Z -> bool,
     (forall mid, fst (Clone.probe h p ch mid w) = Ret (fits mid)) ->
     exists n b w',
       search_double n (Clone.probe h p ch) lo hi lo w = Some (Ret b, w') /\
       search (Clone.probe h p ch) lo hi lo w = (Ret b, w') /\
       boundary fits lo hi b).
Proof.
  intros Hlo Hhi. split; intros fits Hfits.
  - destruct (search_boundary (InPlace.probe h t c) fits
                (fun w' => w' = w \/ exists m, w' = at_size (Node t) m w)
                (probe_stable (Node t) _ (read_only_inplace_reads h t c) fits w Hfits)
                lo hi w ltac:(by left))
      as (b & w' & Hrun & Hb).
    exists (Z.to_nat (hi + 1 - lo)), b, w'.
    rewrite search_double_in_range, Hrun
      by (assumption || apply range_size_below_power).
    by repeat split.
  - destruct (search_boundary (Clone.probe h p ch) fits
                (fun w' => w' = w \/ exists m, w' = at_size p m w)
                (probe_stable p _ (read_only_clone_reads h p ch) fits w Hfits)
                lo hi w ltac:(by left))
      as (b & w' & Hrun & Hb).
    exists (Z.to_nat (hi + 1 - lo)), b, w'.
    rewrite search_double_in_range, Hrun
      by (assumption || apply range_size_below_power).
    by repeat split.
Qed.

Lemma clone_probe_on_line_host mid :
  fst (Clone.probe (line_host 200 50) (Probe 0 0) 50 mid
         (clone_probing (line_host 200 50))) = Ret (line_fits_height 50 mid).
Proof.
  unfold Clone.probe.
  rewrite (probe_run _ _ (read_only_clone_reads _ _ _)). run.
  unfold line_fits_height, line_host, scrollHeight.
  replace (font_px _) with (Z.max 1 mid) by (vm_compute; reflexivity).
  reflexivity.
Qed.

Lemma search_result_is_boundary_witness :
  1 <= 8 /\
  exact_size 100 /\
  (forall mid,
     fst (InPlace.probe (line_host 200 50) TargetEl ContainerEl mid
            (clone_probing (line_host 200 50))) = Ret (line_fits 200 50 mid)) /\
  (forall mid,
     fst (Clone.probe (line_host 200 50) (Probe 0 0) 50 mid
            (clone_probing (line_host 200 50))) = Ret (line_fits_height 50 mid)) /\
  (exists n b w',
     search_double n (InPlace.probe (line_host 200 50) TargetEl ContainerEl)
       8 100 8 (clone_probing (line_host 200 50)) = Some (Ret b, w') /\
     search (InPlace.probe (line_host 200 50) TargetEl ContainerEl) 8 100 8
       (clone_probing (line_host 200 50)) = (Ret b, w') /\
     boundary (line_fits 200 50) 8 100 b) /\
  (exists n b w',
     search_double n (Clone.probe (line_host 200 50) (Probe 0 0) 50) 8 100 8
       (clone_probing (line_host 200 50)) = Some (Ret b, w') /\
     search (Clone.probe (line_host 200 50) (Probe 0 0) 50) 8 100 8
       (clone_probing (line_host 200 50)) = (Ret b, w') /\
     boundary (line_fits_height 50) 8 100 b).
Proof.
  assert (H0 : 1 <= 8) by lia.
  assert (H1 : exact_size 100) by reflexivity.
  split; [exact H0 |]. split; [exact H1 |].
  split; [intros mid; apply line_host_inplace_probe |].
  split; [exact clone_probe_on_line_host |].
  destruct (search_result_is_boundary (line_host 200 50) TargetEl ContainerEl
              (Probe 0 0) 50 8 100 (clone_probing (line_host 200 50)) H0 H1)
    as [Hin Hcl].
  split.
  - exact (Hin (line_fits 200 50)
             (fun mid => line_host_inplace_probe 200 50 _ _ mid _)).
  - exact (Hcl (line_fits_height 50) clone_probe_on_line_host).
Defined.

(** X17 (maximum below minimum).  When [floor(maxPx)] is below
    [max(1, floor(minPx))], itself below [2^52], and the container has an
    area, the loop makes no probe.  The in-place implementation returns
    [max(1, floor(minPx)) - 10], with display, width and maxWidth of the
    target set and nothing else changed.  The clone implementation, when
    the read of the container's rectangle returns, returns
    [max(1, floor(minPx))], a size above [maxPx], with the world as it
    was. *)
Theorem inverted_range_returns_minimum
    (h : Host) (t c : node) (minPx maxPx : Q) (w : World) (cw ch : Z) :
  clientWidth h (Node c) (dom w) = Ret cw ->
  clientHeight h (Node c) (dom w) = Ret ch ->
  0 < cw -> 0 < ch ->
  exact_size (Qfloor minPx) ->
  Qfloor maxPx < Z.max 1 (Qfloor minPx) ->
  InPlace.computeBestFontSize h t c minPx maxPx w
    = (Ret (inject_Z (Z.max 1 (Qfloor minPx) - 10)), inplace_loop_world t w) /\
  (forall rw,
     rectWidth h (Node c) (dom w) = Ret rw ->
     Clone.computeBestFontSize h t c minPx maxPx w
       = (Ret (inject_Z (Z.max 1 (Qfloor minPx))), w)).
Proof.
  intros Hcw Hch Hcwpos Hchpos _ Hinv.
  assert (Hguard : (cw <=? 0) || (ch <=? 0) = false).
  { apply orb_false_iff. rewrite !Z.leb_gt. lia. }
  split.
  - rewrite (inplace_compute_run h t c minPx maxPx w cw ch) by assumption.
    rewrite search_eq. by rewrite decide_False by lia.
  - intros rw Hrw.
    rewrite (clone_compute_run h t c minPx maxPx w cw ch rw) by assumption.
    rewrite search_eq. rewrite decide_False by lia. f_equal.
    unfold clone_loop_world, with_dom, with_body; simpl.
    rewrite (delete_middle (body (dom w)) []), app_nil_r.
    by destruct w as [[] ?].
Qed.

Lemma inverted_range_returns_minimum_witness :
  clientWidth (line_host 200 50) (Node ContainerEl) (dom clone_start) = Ret 200 /\
  clientHeight (line_host 200 50) (Node ContainerEl) (dom clone_start) = Ret 50 /\
  rectWidth (line_host 200 50) (Node ContainerEl) (dom clone_start)
    = Ret (inject_Z 200) /\
  0 < 200 /\ 0 < 50 /\
  exact_size (Qfloor 20) /\
  Qfloor 12 < Z.max 1 (Qfloor 20) /\
  InPlace.computeBestFontSize (line_host 200 50) TargetEl ContainerEl 20 12
    clone_start
    = (Ret (inject_Z (Z.max 1 (Qfloor 20) - 10)),
       inplace_loop_world TargetEl clone_start) /\
  Clone.computeBestFontSize (line_host 200 50) TargetEl ContainerEl 20 12
    clone_start = (Ret (inject_Z (Z.max 1 (Qfloor 20))), clone_start).
Proof.
  split; [reflexivity |]. split; [reflexivity |]. split; [reflexivity |].
  split; [lia |]. split; [lia |]. split; [reflexivity |]. split; [reflexivity |].
  destruct (inverted_range_returns_minimum (line_host 200 50) TargetEl ContainerEl
              20 12 clone_start 200 50) as [Hin Hcl];
    try reflexivity; try lia.
  split; [exact Hin | exact (Hcl (inject_Z 200) eq_refl)].
Defined.

(** ** A whole refit *)

Lemma guard_returns_min_inplace h t c minPx maxPx w cw ch :
  clientWidth h (Node c) (dom w) = Ret cw ->
  clientHeight h (Node c) (dom w) = Ret ch ->
  cw <= 0 \/ ch <= 0 ->
  InPlace.computeBestFontSize h t c minPx maxPx w = (Ret minPx, w).
Proof.
  intros Hcw Hch Hzero.
  assert (Hguard : (cw <=? 0) || (ch <=? 0) = true)
    by (apply orb_true_iff; rewrite !Z.leb_le; exact Hzero).
  unfold InPlace.computeBestFontSize. run. rewrite Hcw. run.
  by rewrite Hch, Hguard.
Qed.

Lemma guard_returns_min_clone h t c minPx maxPx w cw ch :
  clientWidth h (Node c) (dom w) = Ret cw ->
  clientHeight h (Node c) (dom w) = Ret ch ->
  cw <= 0 \/ ch <= 0 ->
  Clone.computeBestFontSize h t c minPx maxPx w = (Ret minPx, w).
Proof.
  intros Hcw Hch Hzero.
  assert (Hguard : (cw <=? 0) || (ch <=? 0) = true)
    by (apply orb_true_iff; rewrite !Z.leb_le; exact Hzero).
  unfold Clone.computeBestFontSize. run. rewrite Hcw. run.
  by rewrite Hch, Hguard.
Qed.

(** X18 (a refit without area).  In both implementations a refit of an idle
    session whose [minPx] option is the number [minPx] and whose container
    has no area returns, records [minPx] in the marker and applies
    [max(1, floor(minPx))] pixels to the target; nothing else changes. *)
Theorem refit_without_area_applies_minimum
    (h : Host) (w : World) (cw ch : Z) (minPx : Q) :
  busy (sess w) = false ->
  opts (sess w) !!! "minPx" = VNum minPx ->
  clientWidth h (Node (containerEl (sess w))) (dom w) = Ret cw ->
  clientHeight h (Node (containerEl (sess w))) (dom w) = Ret ch ->
  cw <= 0 \/ ch <= 0 ->
  InPlace.refit h w = (Ret tt, fitted minPx w) /\
  Clone.refit h w = (Ret tt, fitted minPx w) /\
  applied_size (targetEl (sess w)) (fitted minPx w)
    = Some (Px (Z.max 1 (Qfloor minPx))) /\
  marker (targetEl (sess w)) (fitted minPx w) = Some minPx.
Proof.
  intros Hidle Hmin Hcw Hch Hzero. unfold InPlace.refit, Clone.refit.
  rewrite !refit_idle_run, !cycle_run by assumption. unfold measurement.
  rewrite (guard_returns_min_inplace h _ _ _ _ (with_sess (set_busy true) w) cw ch)
    by assumption.
  rewrite (guard_returns_min_clone h _ _ _ _ (with_sess (set_busy true) w) cw ch)
    by assumption.
  rewrite Hmin. simpl to_number.
  split; [reflexivity |]. split; [reflexivity |].
  unfold fitted. by rewrite applied_after_cycle, marker_after_cycle.
Qed.

Lemma refit_without_area_applies_minimum_witness :
  busy (sess clone_start) = false /\
  opts (sess clone_start) !!! "minPx" = VNum 8 /\
  clientWidth (blind_host 0 50) (Node (containerEl (sess clone_start)))
    (dom clone_start) = Ret 0 /\
  clientHeight (blind_host 0 50) (Node (containerEl (sess clone_start)))
    (dom clone_start) = Ret 50 /\
  (0 <= 0 \/ 50 <= 0) /\
  InPlace.refit (blind_host 0 50) clone_start = (Ret tt, fitted 8 clone_start) /\
  Clone.refit (blind_host 0 50) clone_start = (Ret tt, fitted 8 clone_start) /\
  applied_size (targetEl (sess clone_start)) (fitted 8 clone_start)
    = Some (Px (Z.max 1 (Qfloor 8))) /\
  marker (targetEl (sess clone_start)) (fitted 8 clone_start) = Some 8%Q.
Proof.
  split; [reflexivity |]. split; [reflexivity |]. split; [reflexivity |].
  split; [reflexivity |]. split; [left; lia |].
  apply (refit_without_area_applies_minimum (blind_host 0 50) clone_start 0 50 8);
    [reflexivity | reflexivity | reflexivity | reflexivity | left; lia].
Defined.

(** X19 (a whole refit, clone implementation).  On an idle session whose
    [floor(maxPx)] is below [2^52] and whose container has an area, if the
    probes on the clone answer as an oracle
    that is non-increasing in the size, [refit] of the clone implementation
    returns, and the size it applies to the target and records in the
    marker is the largest size between [max(1, floor(minPx))] and
    [floor(maxPx)] that fits, or the lower end when none fits; nothing else
    changes. *)
Theorem clone_refit_applies_largest_fit
    (h : Host) (w : World) (cw ch : Z) (rw : Q) (fits : Z -> bool) :
  busy (sess w) = false ->
  exact_size (Qfloor (to_number (opts (sess w) !!! "maxPx"))) ->
  clientWidth h (Node (containerEl (sess w))) (dom w) = Ret cw ->
  clientHeight h (Node (containerEl (sess w))) (dom w) = Ret ch ->
  rectWidth h (Node (containerEl (sess w))) (dom w) = Ret rw ->
  0 < cw -> 0 < ch ->
  monotone fits ->
  (forall mid,
     fst (Clone.probe h (Probe (length (body (dom w))) 0) ch mid
            (clone_loop_world rw (targetEl (sess w)) (with_sess (set_busy true) w)))
     = Ret (fits mid)) ->
  exists b,
    largest_fit fits
      (Z.max 1 (Qfloor (to_number (opts (sess w) !!! "minPx"))))
      (Qfloor (to_number (opts (sess w) !!! "maxPx"))) b /\
    (exists n w',
       search_double n (Clone.probe h (Probe (length (body (dom w))) 0) ch)
         (Z.max 1 (Qfloor (to_number (opts (sess w) !!! "minPx"))))
         (Qfloor (to_number (opts (sess w) !!! "maxPx")))
         (Z.max 1 (Qfloor (to_number (opts (sess w) !!! "minPx"))))
         (clone_loop_world rw (targetEl (sess w)) (with_sess (set_busy true) w))
       = Some (Ret b, w')) /\
    Clone.refit h w = (Ret tt, fitted (inject_Z b) w) /\
    applied_size (targetEl (sess w)) (fitted (inject_Z b) w) = Some (Px b) /\
    marker (targetEl (sess w)) (fitted (inject_Z b) w) = Some (inject_Z b).
Proof.
  intros Hidle Hexact Hcw Hch Hrw Hcwpos Hchpos Hmono Hfits.
  assert (Hguard : (cw <=? 0) || (ch <=? 0) = false).
  { apply orb_false_iff. rewrite !Z.leb_gt. lia. }
  assert (Hdouble : exists n b w',
    search_double n (Clone.probe h (Probe (length (body (dom w))) 0) ch)
      (Z.max 1 (Qfloor (to_number (opts (sess w) !!! "minPx"))))
      (Qfloor (to_number (opts (sess w) !!! "maxPx")))
      (Z.max 1 (Qfloor (to_number (opts (sess w) !!! "minPx"))))
      (clone_loop_world rw (targetEl (sess w)) (with_sess (set_busy true) w))
    = Some (Ret b, w') /\
    largest_fit fits
      (Z.max 1 (Qfloor (to_number (opts (sess w) !!! "minPx"))))
      (Qfloor (to_number (opts (sess w) !!! "maxPx"))) b).
  { destruct (search_double_largest_fit
                (Clone.probe h (Probe (length (body (dom w))) 0) ch) fits _
                (probe_stable _ _ (read_only_clone_reads h _ ch) fits _ Hfits)
                Hmono
                (Z.max 1 (Qfloor (to_number (opts (sess w) !!! "minPx"))))
                (Qfloor (to_number (opts (sess w) !!! "maxPx")))
                ltac:(lia) (exact_size_below _ Hexact) _ (or_introl eq_refl))
      as (b & w' & Hrun & _ & Hbest).
    by eexists _, b, w'. }
  destruct Hdouble as (nd & bd & wd & Hrund & Hbestd).
  destruct (search_largest_fit
              (Clone.probe h (Probe (length (body (dom w))) 0) ch) fits
              (fun w' =>
                 w' = clone_loop_world rw (targetEl (sess w))
                        (with_sess (set_busy true) w) \/
                 exists m,
                   w' = at_size (Probe (length (body (dom w))) 0) m
                          (clone_loop_world rw (targetEl (sess w))
                             (with_sess (set_busy true) w))))
    with (lo0 := Z.max 1 (Qfloor (to_number (opts (sess w) !!! "minPx"))))
         (hi0 := Qfloor (to_number (opts (sess w) !!! "maxPx")))
         (w := clone_loop_world rw (targetEl (sess w)) (with_sess (set_busy true) w))
    as (b & w' & Hrun & _ & Hbest).
  { apply (probe_stable _ _ (read_only_clone_reads h _ ch) fits _ Hfits). }
  { exact Hmono. }
  { by left. }
  exists b. split; [exact Hbest |].
  split.
  { exists nd, wd. by rewrite (largest_fit_unique _ _ _ _ _ Hbest Hbestd). }
  assert (Hm : measurement (Clone.computeBestFontSize h) w
               = (Ret (inject_Z b), with_sess (set_busy true) w)).
  { destruct (measurement (Clone.computeBestFontSize h) w) as [r wm] eqn:Hm.
    pose proof Hm as Hm'. unfold measurement in Hm'.
    rewrite (clone_compute_run h _ _ _ _ (with_sess (set_busy true) w) cw ch rw)
      in Hm' by assumption.
    simpl dom in Hm'. rewrite Hrun in Hm'. injection Hm' as <- _.
    by rewrite (clone_measurement_returns _ _ _ _ Hm). }
  unfold Clone.refit. rewrite refit_idle_run, cycle_run, Hm by assumption.
  split; [reflexivity |].
  unfold fitted. rewrite applied_after_cycle, marker_after_cycle, Qfloor_Z.
  split; [| reflexivity]. f_equal. f_equal.
  destruct Hbest as [[[Hrange _] _] | [_ ->]]; lia.
Qed.

Lemma clone_probe_at_start_on_line_host mid :
  fst (Clone.probe (line_host 200 50) (Probe (length (body (dom clone_start))) 0)
         50 mid
         (clone_loop_world (inject_Z 200) (targetEl (sess clone_start))
            (with_sess (set_busy true) clone_start)))
  = Ret (line_fits_height 50 mid).
Proof.
  unfold Clone.probe.
  rewrite (probe_run _ _ (read_only_clone_reads _ _ _)). run.
  unfold line_fits_height, line_host, scrollHeight.
  replace (font_px _) with (Z.max 1 mid) by (vm_compute; reflexivity).
  reflexivity.
Qed.

Lemma clone_refit_applies_largest_fit_witness :
  busy (sess clone_start) = false /\
  exact_size (Qfloor (to_number (opts (sess clone_start) !!! "maxPx"))) /\
  clientWidth (line_host 200 50) (Node (containerEl (sess clone_start)))
    (dom clone_start) = Ret 200 /\
  clientHeight (line_host 200 50) (Node (containerEl (sess clone_start)))
    (dom clone_start) = Ret 50 /\
  rectWidth (line_host 200 50) (Node (containerEl (sess clone_start)))
    (dom clone_start) = Ret (inject_Z 200) /\
  0 < 200 /\ 0 < 50 /\
  monotone (line_fits_height 50) /\
  (forall mid,
     fst (Clone.probe (line_host 200 50)
            (Probe (length (body (dom clone_start))) 0) 50 mid
            (clone_loop_world (inject_Z 200) (targetEl (sess clone_start))
               (with_sess (set_busy true) clone_start)))
     = Ret (line_fits_height 50 mid)) /\
  exists b,
    largest_fit (line_fits_height 50)
      (Z.max 1 (Qfloor (to_number (opts (sess clone_start) !!! "minPx"))))
      (Qfloor (to_number (opts (sess clone_start) !!! "maxPx"))) b /\
    (exists n w',
       search_double n
         (Clone.probe (line_host 200 50)
            (Probe (length (body (dom clone_start))) 0) 50)
         (Z.max 1 (Qfloor (to_number (opts (sess clone_start) !!! "minPx"))))
         (Qfloor (to_number (opts (sess clone_start) !!! "maxPx")))
         (Z.max 1 (Qfloor (to_number (opts (sess clone_start) !!! "minPx"))))
         (clone_loop_world (inject_Z 200) (targetEl (sess clone_start))
            (with_sess (set_busy true) clone_start))
       = Some (Ret b, w')) /\
    Clone.refit (line_host 200 50) clone_start
      = (Ret tt, fitted (inject_Z b) clone_start) /\
    applied_size (targetEl (sess clone_start)) (fitted (inject_Z b) clone_start)
      = Some (Px b) /\
    marker (targetEl (sess clone_start)) (fitted (inject_Z b) clone_start)
      = Some (inject_Z b).
Proof.
  split; [reflexivity |]. split; [reflexivity |].
  split; [reflexivity |]. split; [reflexivity |].
  split; [reflexivity |]. split; [lia |]. split; [lia |].
  split; [apply monotone_line_fits_height |].
  split; [exact clone_probe_at_start_on_line_host |].
  apply (clone_refit_applies_largest_fit (line_host 200 50) clone_start 200 50
           (inject_Z 200) (line_fits_height 50));
    try reflexivity; try lia;
    [apply monotone_line_fits_height | exact clone_probe_at_start_on_line_host].
Defined.

(** X20 (a whole refit, in-place implementation).  On an idle session whose
    [floor(minPx)] and [floor(maxPx)] are below [2^52] and whose container
    has an area, if the probes on the target answer as an oracle
    that is non-increasing in the size, [refit] of the in-place
    implementation returns; with [b] the largest size between
    [max(1, floor(minPx))] and [floor(maxPx)] that fits, or the lower end
    when none fits, it records [b - 10] in the marker and applies
    [max(1, b - 10)] pixels to the target. *)
Theorem inplace_refit_applies_largest_fit_less_ten
    (h : Host) (w : World) (cw ch : Z) (fits : Z -> bool) :
  busy (sess w) = false ->
  exact_size (Qfloor (to_number (opts (sess w) !!! "minPx"))) ->
  exact_size (Qfloor (to_number (opts (sess w) !!! "maxPx"))) ->
  clientWidth h (Node (containerEl (sess w))) (dom w) = Ret cw ->
  clientHeight h (Node (containerEl (sess w))) (dom w) = Ret ch ->
  0 < cw -> 0 < ch ->
  monotone fits ->
  (forall mid,
     fst (InPlace.probe h (targetEl (sess w)) (containerEl (sess w)) mid
            (inplace_loop_world (targetEl (sess w)) (with_sess (set_busy true) w)))
     = Ret (fits mid)) ->
  exists b,
    largest_fit fits
      (Z.max 1 (Qfloor (to_number (opts (sess w) !!! "minPx"))))
      (Qfloor (to_number (opts (sess w) !!! "maxPx"))) b /\
    (exists n w',
       search_double n
         (InPlace.probe h (targetEl (sess w)) (containerEl (sess w)))
         (Z.max 1 (Qfloor (to_number (opts (sess w) !!! "minPx"))))
         (Qfloor (to_number (opts (sess w) !!! "maxPx")))
         (Z.max 1 (Qfloor (to_number (opts (sess w) !!! "minPx"))))
         (inplace_loop_world (targetEl (sess w)) (with_sess (set_busy true) w))
       = Some (Ret b, w')) /\
    fst (InPlace.refit h w) = Ret tt /\
    applied_size (targetEl (sess w)) (snd (InPlace.refit h w))
      = Some (Px (Z.max 1 (b - 10))) /\
    marker (targetEl (sess w)) (snd (InPlace.refit h w))
      = Some (inject_Z (b - 10)).
Proof.
  intros Hidle _ Hexact Hcw Hch Hcwpos Hchpos Hmono Hfits.
  assert (Hdouble : exists n b w',
    search_double n (InPlace.probe h (targetEl (sess w)) (containerEl (sess w)))
      (Z.max 1 (Qfloor (to_number (opts (sess w) !!! "minPx"))))
      (Qfloor (to_number (opts (sess w) !!! "maxPx")))
      (Z.max 1 (Qfloor (to_number (opts (sess w) !!! "minPx"))))
      (inplace_loop_world (targetEl (sess w)) (with_sess (set_busy true) w))
    = Some (Ret b, w') /\
    largest_fit fits
      (Z.max 1 (Qfloor (to_number (opts (sess w) !!! "minPx"))))
      (Qfloor (to_number (opts (sess w) !!! "maxPx"))) b).
  { destruct (search_double_largest_fit
                (InPlace.probe h (targetEl (sess w)) (containerEl (sess w))) fits _
                (probe_stable _ _ (read_only_inplace_reads h _ _) fits _ Hfits)
                Hmono
                (Z.max 1 (Qfloor (to_number (opts (sess w) !!! "minPx"))))
                (Qfloor (to_number (opts (sess w) !!! "maxPx")))
                ltac:(lia) (exact_size_below _ Hexact) _ (or_introl eq_refl))
      as (b & w' & Hrun & _ & Hbest).
    by eexists _, b, w'. }
  destruct Hdouble as (nd & bd & wd & Hrund & Hbestd).
  destruct (search_largest_fit
              (InPlace.probe h (targetEl (sess w)) (containerEl (sess w))) fits
              (fun w' =>
                 w' = inplace_loop_world (targetEl (sess w))
                        (with_sess (set_busy true) w) \/
                 exists m,
                   w' = at_size (Node (targetEl (sess w))) m
                          (inplace_loop_world (targetEl (sess w))
                             (with_sess (set_busy true) w))))
    with (lo0 := Z.max 1 (Qfloor (to_number (opts (sess w) !!! "minPx"))))
         (hi0 := Qfloor (to_number (opts (sess w) !!! "maxPx")))
         (w := inplace_loop_world (targetEl (sess w)) (with_sess (set_busy true) w))
    as (b & w' & Hrun & _ & Hbest).
  { apply (probe_stable _ _ (read_only_inplace_reads h _ _) fits _ Hfits). }
  { exact Hmono. }
  { by left. }
  exists b. split; [exact Hbest |].
  split.
  { exists nd, wd. by rewrite (largest_fit_unique _ _ _ _ _ Hbest Hbestd). }
  unfold InPlace.refit. rewrite refit_idle_run, cycle_run by assumption.
  unfold measurement.
  rewrite (inplace_compute_run h _ _ _ _ (with_sess (set_busy true) w) cw ch)
    by assumption.
  fold (inplace_loop_world (targetEl (sess w)) (with_sess (set_busy true) w)).
  rewrite Hrun. cbn [fst snd].
  by rewrite applied_after_cycle, marker_after_cycle, Qfloor_Z.
Qed.

Lemma inplace_refit_applies_largest_fit_less_ten_witness :
  busy (sess inplace_start) = false /\
  exact_size (Qfloor (to_number (opts (sess inplace_start) !!! "minPx"))) /\
  exact_size (Qfloor (to_number (opts (sess inplace_start) !!! "maxPx"))) /\
  clientWidth (line_host 200 50) (Node (containerEl (sess inplace_start)))
    (dom inplace_start) = Ret 200 /\
  clientHeight (line_host 200 50) (Node (containerEl (sess inplace_start)))
    (dom inplace_start) = Ret 50 /\
  0 < 200 /\ 0 < 50 /\
  monotone (line_fits 200 50) /\
  (forall mid,
     fst (InPlace.probe (line_host 200 50) (targetEl (sess inplace_start))
            (containerEl (sess inplace_start)) mid
            (inplace_loop_world (targetEl (sess inplace_start))
               (with_sess (set_busy true) inplace_start)))
     = Ret (line_fits 200 50 mid)) /\
  exists b,
    largest_fit (line_fits 200 50)
      (Z.max 1 (Qfloor (to_number (opts (sess inplace_start) !!! "minPx"))))
      (Qfloor (to_number (opts (sess inplace_start) !!! "maxPx"))) b /\
    (exists n w',
       search_double n
         (InPlace.probe (line_host 200 50) (targetEl (sess inplace_start))
            (containerEl (sess inplace_start)))
         (Z.max 1 (Qfloor (to_number (opts (sess inplace_start) !!! "minPx"))))
         (Qfloor (to_number (opts (sess inplace_start) !!! "maxPx")))
         (Z.max 1 (Qfloor (to_number (opts (sess inplace_start) !!! "minPx"))))
         (inplace_loop_world (targetEl (sess inplace_start))
            (with_sess (set_busy true) inplace_start))
       = Some (Ret b, w')) /\
    fst (InPlace.refit (line_host 200 50) inplace_start) = Ret tt /\
    applied_size (targetEl (sess inplace_start))
      (snd (InPlace.refit (line_host 200 50) inplace_start))
      = Some (Px (Z.max 1 (b - 10))) /\
    marker (targetEl (sess inplace_start))
      (snd (InPlace.refit (line_host 200 50) inplace_start))
      = Some (inject_Z (b - 10)).
Proof.
  split; [reflexivity |]. split; [reflexivity |]. split; [reflexivity |].
  split; [reflexivity |]. split; [reflexivity |].
  split; [lia |]. split; [lia |].
  split; [apply monotone_line_fits |].
  split; [intros mid; apply line_host_inplace_probe |].
  apply (inplace_refit_applies_largest_fit_less_ten (line_host 200 50)
           inplace_start 200 50 (line_fits 200 50));
    try reflexivity; try lia;
    [apply monotone_line_fits | intros mid; apply line_host_inplace_probe].
Defined.

(** ** Where the loop of the source does not end *)

(** X21 (the loop on doubles at [2^53]).  With [lo = hi = 2^53], as for
    [minPx = maxPx = 2^53], if the probe at [2^53] fits, the loop of the
    source is not over after any number of probes: [mid + 1] rounds back to
    [2^53], so [lo] stays where it is.  In the in-place implementation, and
    in the clone implementation with its own probe. *)
Theorem double_loop_never_ends_at_2_53
    (h : Host) (t c : node) (p : elem) (ch : Z) (w : World) :
  (forall fits : Z -> bool,
     (forall mid, fst (InPlace.probe h t c mid w) = Ret (fits mid)) ->
     fits (2 ^ 53) = true ->
     forall n best,
       search_double n (InPlace.probe h t c) (2 ^ 53) (2 ^ 53) best w = None) /\
  (forall fits : Z -> bool,
     (forall mid, fst (Clone.probe h p ch mid w) = Ret (fits mid)) ->
     fits (2 ^ 53) = true ->
     forall n best,
       search_double n (Clone.probe h p ch) (2 ^ 53) (2 ^ 53) best w = None).
Proof.
  split; intros fits Hfits Htop n best.
  - apply (search_double_stuck (InPlace.probe h t c)
             (fun w' => w' = w \/ exists m, w' = at_size (Node t) m w));
      [| by left].
    intros w' Hw'.
    destruct (probe_stable (Node t) _ (read_only_inplace_reads h t c) fits w
                Hfits (2 ^ 53) w' Hw') as (w'' & Hrun & Hw'').
    exists w''. split; [| exact Hw'']. rewrite <- Htop. exact Hrun.
  - apply (search_double_stuck (Clone.probe h p ch)
             (fun w' => w' = w \/ exists m, w' = at_size p m w));
      [| by left].
    intros w' Hw'.
    destruct (probe_stable p _ (read_only_clone_reads h p ch) fits w
                Hfits (2 ^ 53) w' Hw') as (w'' & Hrun & Hw'').
    exists w''. split; [| exact Hw'']. rewrite <- Htop. exact Hrun.
Qed.

Lemma double_loop_never_ends_at_2_53_witness :
  (forall mid,
     fst (InPlace.probe (line_host (3 * 2 ^ 53) (2 ^ 53)) TargetEl ContainerEl mid
            inplace_start) = Ret (line_fits (3 * 2 ^ 53) (2 ^ 53) mid)) /\
  line_fits (3 * 2 ^ 53) (2 ^ 53) (2 ^ 53) = true /\
  (forall n best,
     search_double n (InPlace.probe (line_host (3 * 2 ^ 53) (2 ^ 53)) TargetEl
                        ContainerEl) (2 ^ 53) (2 ^ 53) best inplace_start = None) /\
  (forall mid,
     fst (Clone.probe (line_host 200 (2 ^ 53)) (Probe 0 0) (2 ^ 53) mid
            (clone_probing (line_host 200 (2 ^ 53))))
     = Ret (line_fits_height (2 ^ 53) mid)) /\
  line_fits_height (2 ^ 53) (2 ^ 53) = true /\
  (forall n best,
     search_double n (Clone.probe (line_host 200 (2 ^ 53)) (Probe 0 0) (2 ^ 53))
       (2 ^ 53) (2 ^ 53) best (clone_probing (line_host 200 (2 ^ 53))) = None).
Proof.
  assert (H1 : forall mid,
     fst (InPlace.probe (line_host (3 * 2 ^ 53) (2 ^ 53)) TargetEl ContainerEl mid
            inplace_start) = Ret (line_fits (3 * 2 ^ 53) (2 ^ 53) mid)).
  { intros mid. apply line_host_inplace_probe. }
  assert (H2 : forall mid,
     fst (Clone.probe (line_host 200 (2 ^ 53)) (Probe 0 0) (2 ^ 53) mid
            (clone_probing (line_host 200 (2 ^ 53))))
     = Ret (line_fits_height (2 ^ 53) mid)).
  { intros mid. unfold Clone.probe.
    rewrite (probe_run _ _ (read_only_clone_reads _ _ _)). run.
    unfold line_fits_height, line_host, scrollHeight.
    replace (font_px _) with (Z.max 1 mid) by (vm_compute; reflexivity).
    reflexivity. }
  destruct (double_loop_never_ends_at_2_53 (line_host (3 * 2 ^ 53) (2 ^ 53))
              TargetEl ContainerEl (Probe 0 0) 0 inplace_start) as [Hin _].
  destruct (double_loop_never_ends_at_2_53 (line_host 200 (2 ^ 53))
              TargetEl ContainerEl (Probe 0 0) (2 ^ 53)
              (clone_probing (line_host 200 (2 ^ 53)))) as [_ Hcl].
  split; [exact H1 |]. split; [reflexivity |].
  split; [exact (Hin _ H1 eq_refl) |].
  split; [exact H2 |]. split; [reflexivity |].
  exact (Hcl _ H2 eq_refl).
Defined.
